(** * PCX image loader (src/IMG_pcx.c): a shallow embedding and its properties

    The two entry points of the loader, [IMG_isPCX] and [IMG_LoadPCX_IO], are
    transcribed below as Rocq functions over an explicit model of the things
    they touch: a seekable byte stream, the scratch scan-line buffer, the
    pixel rows of the surface, and the SDL allocation calls. *)

From Stdlib Require Import String.
From Stdlib Require Import ZArith List Lia Bool.
From Stdlib Require Import Init.Byte Strings.Byte.
Import ListNotations.
Local Open Scope Z_scope.

(* ================================================================== *)
(** ** Machine integers *)

(** [Uint8] values are [byte]; arithmetic on them happens after the usual
    promotion to [int], here [Z]. *)
Definition u8 (b : byte) : Z := Z.of_N (Byte.to_N b).

(** Conversion of an [int] to [Uint8]: the value modulo 256. *)
Definition to_u8 (z : Z) : byte :=
  match Byte.of_N (Z.to_N (z mod 256)) with
  | Some b => b
  | None => x00
  end.

(** A 16-bit pattern read as [Sint16]. *)
Definition sint16 (v : Z) : Z := if v <? 32768 then v else v - 65536.

(** Conversion of an [int] to [size_t] (64 bits). *)
Definition to_size_t (v : Z) : Z := v mod 2 ^ 64.

Definition INT_MIN : Z := - 2 ^ 31.
Definition INT_MAX : Z := 2 ^ 31 - 1.

(** [count--] on an [int]; the wrap at [INT_MIN] is written out. *)
Definition int_dec (c : Z) : Z := if c =? INT_MIN then INT_MAX else c - 1.

(* ================================================================== *)
(** ** The byte stream ([SDL_IOStream])

    A stream is its bytes split at the cursor: the bytes already passed and
    the bytes still to come.  Reads are short at the end of the data and
    seeks clamp to the data, as SDL's memory streams do. *)

Record SDL_IOStream : Type := mkIO {
  io_before : list byte;
  io_after : list byte
}.

Inductive SDL_IOWhence : Type := SDL_IO_SEEK_SET | SDL_IO_SEEK_CUR | SDL_IO_SEEK_END.

Definition io_bytes (s : SDL_IOStream) : list byte := io_before s ++ io_after s.

Definition io_size (s : SDL_IOStream) : Z := Z.of_nat (length (io_bytes s)).

Definition io_at (bytes : list byte) (pos : Z) : SDL_IOStream :=
  mkIO (firstn (Z.to_nat pos) bytes) (skipn (Z.to_nat pos) bytes).

Definition SDL_TellIO (s : SDL_IOStream) : Z := Z.of_nat (length (io_before s)).

Definition SDL_SeekIO (s : SDL_IOStream) (offset : Z) (whence : SDL_IOWhence) : SDL_IOStream :=
  match whence with
  | SDL_IO_SEEK_SET => io_at (io_bytes s) offset
  | SDL_IO_SEEK_CUR => io_at (io_bytes s) (SDL_TellIO s + offset)
  | SDL_IO_SEEK_END => io_at (io_bytes s) (io_size s + offset)
  end.

(** [SDL_ReadIO src ptr size]: the bytes obtained (at most [size] of them)
    and the stream advanced past them. *)
Definition SDL_ReadIO (s : SDL_IOStream) (size : Z) : list byte * SDL_IOStream :=
  let got := firstn (Z.to_nat size) (io_after s) in
  (got, mkIO (io_before s ++ got) (skipn (Z.to_nat size) (io_after s))).

Definition len {A : Type} (l : list A) : Z := Z.of_nat (length l).

(* ================================================================== *)
(** ** The header ([struct PCXheader]) *)

Record PCXheader : Type := mkPCXheader {
  Manufacturer : Z;
  Version : Z;
  Encoding : Z;
  BitsPerPixel : Z;
  Xmin : Z; Ymin : Z; Xmax : Z; Ymax : Z;
  HDpi : Z; VDpi : Z;
  Colormap : list byte;
  Reserved : Z;
  NPlanes : Z;
  BytesPerLine : Z;
  PaletteInfo : Z;
  HscreenSize : Z;
  VscreenSize : Z;
  Filler : list byte
}.

Definition sizeof_PCXheader : Z := 128.

Definition byte_at (bs : list byte) (off : nat) : Z := u8 (nth off bs x00).

(** A [Sint16] field stored least significant byte first. *)
Definition s16le_at (bs : list byte) (off : nat) : Z :=
  sint16 (byte_at bs off + 256 * byte_at bs (S off)).

(** The struct as laid out in the 128 bytes read from the stream.  The
    fields the loader passes through [SDL_Swap16LE] are [Xmin], [Ymin],
    [Xmax], [Ymax] and [BytesPerLine]; the other 16-bit fields are never
    looked at by the loader. *)
Definition header_of_bytes (bs : list byte) : PCXheader :=
  {| Manufacturer := byte_at bs 0;
     Version := byte_at bs 1;
     Encoding := byte_at bs 2;
     BitsPerPixel := byte_at bs 3;
     Xmin := s16le_at bs 4;
     Ymin := s16le_at bs 6;
     Xmax := s16le_at bs 8;
     Ymax := s16le_at bs 10;
     HDpi := s16le_at bs 12;
     VDpi := s16le_at bs 14;
     Colormap := firstn 48 (skipn 16 bs);
     Reserved := byte_at bs 64;
     NPlanes := byte_at bs 65;
     BytesPerLine := s16le_at bs 66;
     PaletteInfo := s16le_at bs 68;
     HscreenSize := s16le_at bs 70;
     VscreenSize := s16le_at bs 72;
     Filler := firstn 54 (skipn 74 bs) |}.

(* ================================================================== *)
(** ** [IMG_isPCX] *)

Definition ZSoft_Manufacturer : Z := 10.
Definition PC_Paintbrush_Version : Z := 5.
Definition PCX_Uncompressed_Encoding : Z := 0.
Definition PCX_RunLength_Encoding : Z := 1.

(** The test made on the header once it has been read. *)
Definition isPCX_header (pcxh : PCXheader) : bool :=
  (Manufacturer pcxh =? ZSoft_Manufacturer) &&
  (Version pcxh =? PC_Paintbrush_Version) &&
  ((Encoding pcxh =? PCX_RunLength_Encoding) ||
   (Encoding pcxh =? PCX_Uncompressed_Encoding)).

(** A null [src] is [None].  The result is the boolean returned together
    with the stream as the call leaves it. *)
Definition IMG_isPCX (src : option SDL_IOStream) : bool * option SDL_IOStream :=
  match src with
  | None => (false, None)
  | Some s =>
      let start := SDL_TellIO s in
      let '(got, s1) := SDL_ReadIO s sizeof_PCXheader in
      let is_PCX :=
        if len got =? sizeof_PCXheader
        then isPCX_header (header_of_bytes got)
        else false in
      (is_PCX, Some (SDL_SeekIO s1 start SDL_IO_SEEK_SET))
  end.

(* ================================================================== *)
(** ** Control flow and memory

    A step of the loader either goes on with a value, or sets [error] and
    jumps to [done], or touches memory outside the buffer it was given (the
    scratch buffer, one pixel row, the palette's colour array).  The last
    is kept apart as [Fault]: C gives it no meaning. *)

Inductive step (A : Type) : Type :=
| Ok (a : A)
| Err (msg : string)
| Fault.
Arguments Ok {A} a.
Arguments Err {A} msg.
Arguments Fault {A}.

Definition step_bind {A B : Type} (m : step A) (k : A -> step B) : step B :=
  match m with
  | Ok a => k a
  | Err e => Err e
  | Fault => Fault
  end.

(** Code that reads the stream threads it through. *)
Definition IO (A : Type) : Type := SDL_IOStream -> step A * SDL_IOStream.

Definition io_ret {A : Type} (a : A) : IO A := fun s => (Ok a, s).

Definition io_bind {A B : Type} (m : IO A) (k : A -> IO B) : IO B :=
  fun s =>
    match m s with
    | (Ok a, s1) => k a s1
    | (Err e, s1) => (Err e, s1)
    | (Fault, s1) => (Fault, s1)
    end.

Definition io_lift {A : Type} (m : step A) : IO A := fun s => (m, s).

Declare Scope io_scope.
Delimit Scope io_scope with io.
Notation "x <- m ;; k" := (io_bind m (fun x => k))
  (at level 61, m at next level, right associativity) : io_scope.
Notation "' p <- m ;; k" := (io_bind m (fun x => match x with p => k end))
  (at level 61, p pattern, m at next level, right associativity) : io_scope.

(** [for (i = i0; ...; i++)] running [n] times. *)
Fixpoint for_up {S : Type} (n : nat) (i : Z) (body : Z -> S -> step S) (s : S) : step S :=
  match n with
  | O => Ok s
  | S n' =>
      match body i s with
      | Ok s' => for_up n' (i + 1) body s'
      | Err e => Err e
      | Fault => Fault
      end
  end.

(** [for (k = n - 1; k >= 0; k--)]. *)
Fixpoint for_down {S : Type} (n : nat) (body : Z -> S -> step S) (s : S) : step S :=
  match n with
  | O => Ok s
  | S n' =>
      match body (Z.of_nat n') s with
      | Ok s' => for_down n' body s'
      | Err e => Err e
      | Fault => Fault
      end
  end.

Definition in_bounds {A : Type} (m : list A) (i : Z) : bool := (0 <=? i) && (i <? len m).

(** [m[i]] read and written, inside the [len m] elements of [m] only. *)
Definition load {A : Type} (m : list A) (i : Z) : step A :=
  if in_bounds m i
  then match nth_error m (Z.to_nat i) with Some v => Ok v | None => Fault end
  else Fault.

Definition store {A : Type} (m : list A) (i : Z) (v : A) : step (list A) :=
  if in_bounds m i
  then Ok (firstn (Z.to_nat i) m ++ v :: skipn (S (Z.to_nat i)) m)
  else Fault.

(* ================================================================== *)
(** ** Error messages of [IMG_LoadPCX_IO], under the names of the error
    kinds they stand for *)

Definition Truncated : string := "file truncated".
Definition UnsupportedFormat : string := "unsupported PCX format".
Definition CorruptData : string := "decoding out of bounds (corrupt?)".
Definition OutOfMemory : string := "Out of memory".
Definition NoPalette : string := "Couldn't create palette".

(* ================================================================== *)
(** ** Scan lines *)

(** The two variables that live across the row loop: [int count = 0] and
    [Uint8 ch]. *)
Record RunState : Type := mkRun { count : Z; ch : byte }.

(** [ch] is declared without a value; it is assigned before it is first
    read because [count] starts at 0. *)
Definition run_init : RunState := mkRun 0 x00.

(** [SDL_ReadIO(src, &ch, 1) != 1] with its [goto done]. *)
Definition read_byte : IO byte :=
  fun s =>
    let '(got, s1) := SDL_ReadIO s 1 in
    match got with
    | [c] => (Ok c, s1)
    | _ => (Err Truncated, s1)
    end.

(** The block under [if ( !count )]: a new control byte is read only when
    no repeat is pending. *)
Definition rle_refill (st : RunState) : IO RunState :=
  if count st =? 0 then
    (c <- read_byte ;;
     if u8 c <? 0xc0 then
       io_ret (mkRun 1 c)
     else
       (c2 <- read_byte ;;
        io_ret (mkRun (u8 c - 0xc0) c2)))%io
  else
    io_ret st.

(** One turn of the loop [for (i = 0; i < bpl; i++)] of the run-length
    branch: the byte stored by [buf[i] = ch] and the variables after
    [count--]. *)
Definition rle_byte (st : RunState) : IO (byte * RunState) :=
  (st1 <- rle_refill st ;;
   io_ret (ch st1, mkRun (int_dec (count st1)) (ch st1)))%io.

Fixpoint rle_line (n : nat) (st : RunState) : IO (list byte * RunState) :=
  match n with
  | O => io_ret ([], st)
  | S n' =>
      ('(c, st1) <- rle_byte st ;;
       '(cs, st2) <- rle_line n' st1 ;;
       io_ret (c :: cs, st2))%io
  end.

(** The uncompressed branch: [SDL_ReadIO(src, buf, bpl) != bpl]. *)
Definition raw_line (bpl : Z) : IO (list byte) :=
  fun s =>
    let '(got, s1) := SDL_ReadIO s bpl in
    if len got =? bpl then (Ok got, s1) else (Err Truncated, s1).

(** "decode a scan line to a temporary buffer first": the [bpl] bytes of
    [buf] after the branch on [pcxh.Encoding]. *)
Definition read_scanline (pcxh : PCXheader) (bpl : Z) (st : RunState)
  : IO (list byte * RunState) :=
  if Encoding pcxh =? 0 then
    (buf <- raw_line bpl ;; io_ret (buf, st))%io
  else
    rle_line (Z.to_nat bpl) st.

(* ================================================================== *)
(** ** Pixel rows *)

(** [row[x++] |= bit << plane] for the bits [k = 7 .. 0] of one byte.  The
    state is the row and [x]. *)
Definition expand_byte (width plane j byte_ : Z) : list byte * Z -> step (list byte * Z) :=
  for_down 8 (fun k '(row, x) =>
    let bit := Z.land (Z.shiftr byte_ k) 1 in
    (* skip padding bits *)
    if j * 8 + k >=? width then Ok (row, x)
    else
      step_bind (load row x) (fun old =>
      step_bind (store row x (to_u8 (Z.lor (u8 old) (Z.shiftl bit plane)))) (fun row' =>
      Ok (row', x + 1)))).

(** "expand planes to 1 byte/pixel".  The state of the plane loop is the row
    and [innerSrc], as an offset into [buf]. *)
Definition expand_planes (pcxh : PCXheader) (width : Z) (buf row : list byte)
  : step (list byte) :=
  step_bind
    (for_up (Z.to_nat (NPlanes pcxh)) 0 (fun plane '(row, innerSrc) =>
       step_bind
         (for_up (Z.to_nat (BytesPerLine pcxh)) 0 (fun j '(row, x, innerSrc) =>
            step_bind (load buf innerSrc) (fun byte_ =>
            step_bind (expand_byte width plane j (u8 byte_) (row, x)) (fun '(row', x') =>
            Ok (row', x', innerSrc + 1))))
            (row, 0, innerSrc))
         (fun '(row', _, innerSrc') => Ok (row', innerSrc')))
       (row, 0))
    (fun '(row', _) => Ok row').

(** "Copy the row directly": [SDL_memcpy(row, buf, SDL_min((size_t)width, bpl))]. *)
Definition copy_row (width bpl : Z) (buf row : list byte) : step (list byte) :=
  let n := Z.min (to_size_t width) bpl in
  if (n <=? len buf) && (n <=? len row)
  then Ok (firstn (Z.to_nat n) buf ++ skipn (Z.to_nat n) row)
  else Fault.

(** One turn of the loop [for ( x = 0; x < width; x++ )] of a plane: the
    two tests, then [*dst = innerSrc[x]; dst += pcxh.NPlanes].  [end1] is
    [buf + bpl] and [end2] is [row + surface->pitch]; pointers into [buf]
    and [row] are the offsets from their starts.  The state is the row and
    [dst]. *)
Definition deinterlace_turn (pcxh : PCXheader) (pitch bpl : Z) (buf : list byte)
  (innerSrc : Z) (x : Z) : list byte * Z -> step (list byte * Z) :=
  fun '(row, dst) =>
    let end1 := bpl in
    let end2 := pitch in
    if (innerSrc + x >=? end1) || (dst >=? end2) then Err CorruptData
    else
      step_bind (load buf (innerSrc + x)) (fun v =>
      step_bind (store row dst v) (fun row' =>
      Ok (row', dst + NPlanes pcxh))).

(** The loop over [x] of one plane, from [dst = row + plane]. *)
Definition deinterlace_plane (pcxh : PCXheader) (width pitch bpl : Z) (buf : list byte)
  (innerSrc plane : Z) (row : list byte) : step (list byte * Z) :=
  for_up (Z.to_nat width) 0 (deinterlace_turn pcxh pitch bpl buf innerSrc) (row, plane).

(** "de-interlace planes".  The state of the plane loop is the row and
    [innerSrc]. *)
Definition deinterlace (pcxh : PCXheader) (width pitch bpl : Z) (buf row : list byte)
  : step (list byte) :=
  step_bind
    (for_up (Z.to_nat (NPlanes pcxh)) 0 (fun plane '(row, innerSrc) =>
       step_bind (deinterlace_plane pcxh width pitch bpl buf innerSrc plane row)
         (fun '(row', _) => Ok (row', innerSrc + BytesPerLine pcxh)))
       (row, 0))
    (fun '(row', _) => Ok row').

(** The three-way branch on [src_bits] that follows the scan line. *)
Definition reconstruct (pcxh : PCXheader) (width pitch bpl src_bits : Z)
  (buf row : list byte) : step (list byte) :=
  if src_bits <=? 4 then expand_planes pcxh width buf row
  else if src_bits =? 8 then copy_row width bpl buf row
  else if src_bits =? 24 then deinterlace pcxh width pitch bpl buf row
  else Ok row.

(** The loop [for (y = 0; y < surface->h; ++y)], one turn per pixel row;
    [count] and [ch] go from one turn to the next. *)
Fixpoint decode_rows (pcxh : PCXheader) (width pitch bpl src_bits : Z)
  (rows : list (list byte)) (st : RunState) : IO (list (list byte) * RunState) :=
  match rows with
  | [] => io_ret ([], st)
  | row :: rest =>
      ('(buf, st1) <- read_scanline pcxh bpl st ;;
       row' <- io_lift (reconstruct pcxh width pitch bpl src_bits buf row) ;;
       '(rest', st2) <- decode_rows pcxh width pitch bpl src_bits rest st1 ;;
       io_ret (row' :: rest', st2))%io
  end.

(* ================================================================== *)
(** ** Surfaces, palettes and the SDL calls that allocate *)

Inductive SDL_PixelFormat : Type := SDL_PIXELFORMAT_INDEX8 | SDL_PIXELFORMAT_RGB24.

Record SDL_Color : Type := mkColor { r : byte; g : byte; b : byte; a : byte }.

(** [colors] is the array as allocated; [ncolors] is the field the loader
    overwrites. *)
Record SDL_Palette : Type := mkPalette { ncolors : Z; colors : list SDL_Color }.

(** [pixels] holds the rows, each [pitch] bytes long. *)
Record SDL_Surface : Type := mkSurface {
  format : SDL_PixelFormat;
  w : Z;
  h : Z;
  pitch : Z;
  pixels : list (list byte);
  palette : option SDL_Palette
}.

(** What the SDL library answers to the three allocating calls of the
    loader: the pitch of the new zero-filled surface, whether [SDL_calloc]
    of that many bytes succeeds, the colour array of the new palette.
    [None] and [false] are the calls returning NULL. *)
Record SDL : Type := mkSDL {
  SDL_CreateSurface : Z -> Z -> SDL_PixelFormat -> option Z;
  SDL_calloc : Z -> bool;
  SDL_CreateSurfacePalette : option (list SDL_Color)
}.

(** Allocations alive: surfaces, and buffers obtained from [SDL_calloc]. *)
Record Heap : Type := mkHeap { live_surfaces : nat; live_buffers : nat }.

Definition new_surface (fmt : SDL_PixelFormat) (width height pitch_ : Z) : SDL_Surface :=
  mkSurface fmt width height pitch_
    (repeat (repeat x00 (Z.to_nat pitch_)) (Z.to_nat height)) None.

(* ================================================================== *)
(** ** The palette *)

(** "look for a 256-colour palette": the [do ... while ( pch != 12 )] loop,
    one turn per byte left in the stream.  When the one-byte read fails the
    stream is moved to 768 bytes before its end. *)
Fixpoint look_for_palette (before after : list byte) : SDL_IOStream :=
  match after with
  | [] => SDL_SeekIO (mkIO before []) (-768) SDL_IO_SEEK_END
  | pch :: rest =>
      if u8 pch =? 12 then mkIO (before ++ [pch]) rest
      else look_for_palette (before ++ [pch]) rest
  end.

(** The loop above followed by the read of [colormap[768]]. *)
Definition read_colormap : IO (list byte) :=
  fun s =>
    let s1 := look_for_palette (io_before s) (io_after s) in
    let '(colormap, s2) := SDL_ReadIO s1 768 in
    if len colormap =? 768 then (Ok colormap, s2) else (Err Truncated, s2).

(** One turn of the loops that fill the palette: [colors[i].r], [.g] and
    [.b] are set from [cmap[i * 3 + 0]], [+ 1] and [+ 2]. *)
Definition set_color (cmap : list byte) (i : Z) (cols : list SDL_Color)
  : step (list SDL_Color) :=
  step_bind (load cols i) (fun old =>
  step_bind (load cmap (i * 3 + 0)) (fun cr =>
  step_bind (load cmap (i * 3 + 1)) (fun cg =>
  step_bind (load cmap (i * 3 + 2)) (fun cb =>
  store cols i (mkColor cr cg cb (a old)))))).

(** [for (i = 0; i < n; i++)] over the entries of the palette. *)
Definition set_colors (n : Z) (cmap : list byte) (cols : list SDL_Color)
  : step (list SDL_Color) :=
  for_up (Z.to_nat n) 0 (set_color cmap) cols.

(** The block under [if ( bits == 8 )], once the palette exists. *)
Definition fill_palette (pcxh : PCXheader) (src_bits : Z) (cols : list SDL_Color)
  : IO SDL_Palette :=
  let nc := Z.shiftl 1 src_bits in
  let nc := if nc >? len cols then len cols else nc in
  if src_bits =? 8 then
    (colormap <- read_colormap ;;
     cols' <- io_lift (set_colors 256 colormap cols) ;;
     io_ret (mkPalette nc cols'))%io
  else
    (cols' <- io_lift (set_colors nc (Colormap pcxh) cols) ;;
     io_ret (mkPalette nc cols'))%io.

(* ================================================================== *)
(** ** [IMG_LoadPCX_IO] *)

(** The choice of [bits] and [format]; [None] is the [else] branch. *)
Definition pcx_format (pcxh : PCXheader) : option (Z * SDL_PixelFormat) :=
  if ((BitsPerPixel pcxh =? 1) && (NPlanes pcxh >=? 1) && (NPlanes pcxh <=? 4))
     || ((BitsPerPixel pcxh =? 8) && (NPlanes pcxh =? 1))
  then Some (8, SDL_PIXELFORMAT_INDEX8)
  else if (BitsPerPixel pcxh =? 8) && (NPlanes pcxh =? 3)
  then Some (24, SDL_PIXELFORMAT_RGB24)
  else None.

(** The local variables that matter at the label [done]. *)
Record AtDone : Type := mkAtDone {
  d_surface : option SDL_Surface;
  d_buf : bool;
  d_error : option string;
  d_src : SDL_IOStream;
  d_heap : Heap
}.

(** The function body from "Create the surface of the appropriate type"
    down to [done], with the header already read and byte-swapped; [None]
    when a [Fault] happened on the way. *)
Definition load_after_header (sdl : SDL) (pcxh : PCXheader) (s1 : SDL_IOStream)
  (heap : Heap) : option AtDone :=
  let width := (Xmax pcxh - Xmin pcxh) + 1 in
  let height := (Ymax pcxh - Ymin pcxh) + 1 in
  let src_bits := BitsPerPixel pcxh * NPlanes pcxh in
  match pcx_format pcxh with
  | None => Some (mkAtDone None false (Some UnsupportedFormat) s1 heap)
  | Some (bits, fmt) =>
      match SDL_CreateSurface sdl width height fmt with
      | None => Some (mkAtDone None false None s1 heap)
      | Some pitch_ =>
          let surface := new_surface fmt width height pitch_ in
          let heap1 := mkHeap (S (live_surfaces heap)) (live_buffers heap) in
          let bpl := to_size_t (NPlanes pcxh * BytesPerLine pcxh) in
          if negb (SDL_calloc sdl bpl) then
            Some (mkAtDone (Some surface) false (Some OutOfMemory) s1 heap1)
          else
            let heap2 := mkHeap (live_surfaces heap1) (S (live_buffers heap1)) in
            match decode_rows pcxh width pitch_ bpl src_bits (pixels surface) run_init s1 with
            | (Fault, _) => None
            | (Err e, s2) => Some (mkAtDone (Some surface) true (Some e) s2 heap2)
            | (Ok (rows, _), s2) =>
                let surface1 := mkSurface fmt width height pitch_ rows None in
                if bits =? 8 then
                  match SDL_CreateSurfacePalette sdl with
                  | None => Some (mkAtDone (Some surface1) true (Some NoPalette) s2 heap2)
                  | Some cols =>
                      match fill_palette pcxh src_bits cols s2 with
                      | (Fault, _) => None
                      | (Err e, s3) => Some (mkAtDone (Some surface1) true (Some e) s3 heap2)
                      | (Ok pal, s3) =>
                          Some (mkAtDone
                                  (Some (mkSurface fmt width height pitch_ rows (Some pal)))
                                  true None s3 heap2)
                      end
                  end
                else Some (mkAtDone (Some surface1) true None s2 heap2)
            end
      end
  end.

(** The function body from the read of the header down to [done]. *)
Definition load_body (sdl : SDL) (s : SDL_IOStream) (heap : Heap) : option AtDone :=
  let '(got, s1) := SDL_ReadIO s sizeof_PCXheader in
  if negb (len got =? sizeof_PCXheader) then
    Some (mkAtDone None false (Some Truncated) s1 heap)
  else
    load_after_header sdl (header_of_bytes got) s1 heap.

(** What the caller sees when the call returns: the surface returned (NULL
    is [None]), the stream and the heap as they are left, and the message
    given to [SDL_SetError], if that was called. *)
Record Result : Type := mkResult {
  ret : option SDL_Surface;
  src_after : option SDL_IOStream;
  heap_after : Heap;
  error_set : option string
}.

Definition SDL_free (buf : bool) (heap : Heap) : Heap :=
  if buf then mkHeap (live_surfaces heap) (pred (live_buffers heap)) else heap.

Definition SDL_DestroySurface (heap : Heap) : Heap :=
  mkHeap (pred (live_surfaces heap)) (live_buffers heap).

(** The code from the label [done] to the end. *)
Definition done (start : Z) (d : AtDone) : Result :=
  let heap1 := SDL_free (d_buf d) (d_heap d) in
  match d_error d with
  | Some error =>
      let src1 := SDL_SeekIO (d_src d) start SDL_IO_SEEK_SET in
      let heap2 := match d_surface d with
                   | Some _ => SDL_DestroySurface heap1
                   | None => heap1
                   end in
      mkResult None (Some src1) heap2 (Some error)
  | None => mkResult (d_surface d) (Some (d_src d)) heap1 None
  end.

(** A null [src] is [None].  The outcome is [None] when the call left the
    buffers it owns (see [Fault]). *)
Definition IMG_LoadPCX_IO (sdl : SDL) (src : option SDL_IOStream) (heap : Heap)
  : option Result :=
  match src with
  | None => Some (mkResult None None heap None)
  | Some s =>
      let start := SDL_TellIO s in
      match load_body sdl s heap with
      | None => None
      | Some d => Some (done start d)
      end
  end.

(* ================================================================== *)
(** ** Test fixtures *)

(** A 16-bit value as its two bytes, least significant first. *)
Definition le16 (v : Z) : list byte := [to_u8 v; to_u8 (v / 256)].

(** The 128 bytes of a ZSoft version 5 header with the given fields. *)
Definition header_bytes (encoding bpp xmin ymin xmax ymax nplanes bytesperline : Z)
  (colormap : list byte) : list byte :=
  [to_u8 ZSoft_Manufacturer; to_u8 PC_Paintbrush_Version; to_u8 encoding; to_u8 bpp]
  ++ le16 xmin ++ le16 ymin ++ le16 xmax ++ le16 ymax
  ++ le16 72 ++ le16 72
  ++ firstn 48 (colormap ++ repeat x00 48)
  ++ [x00; to_u8 nplanes]
  ++ le16 bytesperline
  ++ le16 1 ++ le16 0 ++ le16 0
  ++ repeat x00 54.

Definition bytes_per_pixel (fmt : SDL_PixelFormat) : Z :=
  match fmt with
  | SDL_PIXELFORMAT_INDEX8 => 1
  | SDL_PIXELFORMAT_RGB24 => 3
  end.

Definition white : SDL_Color := mkColor xff xff xff xff.

(** SDL as it usually answers: a surface for every non-negative size, its
    pitch rounded up to a multiple of 4; a buffer for every size below
    2^31; a palette of 256 entries. *)
Definition sdl_usual : SDL :=
  mkSDL
    (fun width height fmt =>
       if (width <? 0) || (height <? 0) then None
       else Some ((width * bytes_per_pixel fmt + 3) / 4 * 4))
    (fun size => size <? 2 ^ 31)
    (Some (repeat white 256)).

(** SDL out of memory for surfaces. *)
Definition sdl_no_surface : SDL :=
  mkSDL (fun _ _ _ => None) (fun size => size <? 2 ^ 31) (Some (repeat white 256)).

Definition empty_heap : Heap := mkHeap 0 0.

(** A stream holding [bytes], its cursor at the beginning. *)
Definition stream_of (bytes : list byte) : SDL_IOStream := mkIO [] bytes.

(** [probe] called [n] times in a row on the same stream: the booleans
    returned, in order, and the stream at the end. *)
Fixpoint isPCX_times (n : nat) (src : option SDL_IOStream) : list bool * option SDL_IOStream :=
  match n with
  | O => ([], src)
  | S n' =>
      let '(b1, src1) := IMG_isPCX src in
      let '(bs, src2) := isPCX_times n' src1 in
      (b1 :: bs, src2)
  end.

(** The three pairs the loader accepts. *)
Definition legal_pair (bpp planes : Z) : Prop :=
  (bpp = 1 /\ 1 <= planes <= 4) \/ (bpp = 8 /\ planes = 1) \/ (bpp = 8 /\ planes = 3).

(** The header with another value in its [Encoding] field. *)
Definition with_Encoding (pcxh : PCXheader) (e : Z) : PCXheader :=
  {| Manufacturer := Manufacturer pcxh; Version := Version pcxh;
     Encoding := e; BitsPerPixel := BitsPerPixel pcxh;
     Xmin := Xmin pcxh; Ymin := Ymin pcxh; Xmax := Xmax pcxh; Ymax := Ymax pcxh;
     HDpi := HDpi pcxh; VDpi := VDpi pcxh; Colormap := Colormap pcxh;
     Reserved := Reserved pcxh; NPlanes := NPlanes pcxh;
     BytesPerLine := BytesPerLine pcxh; PaletteInfo := PaletteInfo pcxh;
     HscreenSize := HscreenSize pcxh; VscreenSize := VscreenSize pcxh;
     Filler := Filler pcxh |}.

(** The run-length grammar as the specification words it, on a whole
    stream: a byte of value 0xC0 or more makes the next byte repeat as many
    times as its low six bits say, any other byte stands for itself. *)
Fixpoint rle_expand_spec (stream : list byte) : list byte :=
  match stream with
  | [] => []
  | c :: rest =>
      if u8 c <? 0xc0 then c :: rle_expand_spec rest
      else
        match rest with
        | [] => []
        | v :: rest' => repeat v (Z.to_nat (Z.land (u8 c) 63)) ++ rle_expand_spec rest'
        end
  end.

(** No control byte of the stream is 0xC0, the run of length zero. *)
Fixpoint no_zero_run (stream : list byte) : Prop :=
  match stream with
  | [] => True
  | c :: rest =>
      if u8 c <? 0xc0 then no_zero_run rest
      else
        u8 c <> 0xc0 /\
        match rest with
        | [] => True
        | v :: rest' => no_zero_run rest'
        end
  end.

(** An 8-bit image of 4 by 1 pixels, run-length encoded, whose row data
    opens with the control byte 0xC0; the palette follows its marker. *)
Definition zero_run_image : list byte :=
  header_bytes 1 8 0 0 3 0 1 4 []
  ++ [xc0; x55; x01; x02; x03; x04]
  ++ [x0c] ++ repeat x00 768.

(** Every error the computation [m] can end with satisfies [P]. *)
Definition io_err {A : Type} (P : string -> Prop) (m : IO A) : Prop :=
  forall s e, fst (m s) = Err e -> P e.

(** The errors of the scan-line stage, and of the row loop. *)
Definition is_truncated (e : string) : Prop := e = Truncated.
Definition is_row_error (e : string) : Prop := e = Truncated \/ e = CorruptData.

(** The computation moves the cursor at most: the bytes of the stream stay. *)
Definition io_keeps {A : Type} (m : IO A) : Prop :=
  forall s, io_bytes (snd (m s)) = io_bytes s.

(** The computation [m] never [Fault]s, and what it returns satisfies [Q]. *)
Definition io_post {A : Type} (m : IO A) (Q : A -> Prop) : Prop :=
  forall s, match fst (m s) with
            | Ok x => Q x
            | Err _ => True
            | Fault => False
            end.

(** A header of an 8-bit image whose [Xmax] lies two below [Xmin], so that
    [width] is -1, followed by some bytes. *)
Definition negative_width_image : list byte :=
  header_bytes 1 8 2 0 0 0 1 2 [] ++ [x01; x02; x03; x04].

(** A well-formed 8-bit image of 2 by 1 pixels with its palette. *)
Definition small_image : list byte :=
  header_bytes 1 8 0 0 1 0 1 2 [] ++ [x01; x02] ++ [x0c] ++ repeat x07 768.

(** A three-plane image of 2 by 1 pixels that declares one byte per plane
    line. *)
Definition short_planes_image : list byte :=
  header_bytes 0 8 0 0 1 0 3 1 [] ++ [x01; x02; x03; x04].

(** The header of a two-plane, one-bit image with one byte per plane line,
    and the images of width 1 and 8 made of the plane bytes 0x80, 0x80. *)
Definition two_plane_header (xmax : Z) : list byte := header_bytes 0 1 0 0 xmax 0 2 1 [].

Definition two_plane_image (xmax : Z) : list byte := two_plane_header xmax ++ [x80; x80].

(** An 8-bit image of 4 by 2 pixels, run-length encoded, with the given
    value in its [Encoding] field. *)
Definition encoded_image (encoding : Z) : list byte :=
  header_bytes encoding 8 0 0 3 1 1 4 []
  ++ [x01; x02; xc5; x7f; x09] ++ [x0c] ++ repeat x07 768.

(** The colour made of the three bytes at [3 * j] of [cmap], with the
    alpha of [old]. *)
Definition triple_at (cmap : list byte) (j : nat) (old : SDL_Color) : SDL_Color :=
  mkColor (nth (j * 3 + 0) cmap x00) (nth (j * 3 + 1) cmap x00)
          (nth (j * 3 + 2) cmap x00) (a old).

(** Bit [k] of a byte (bit 7 is the leftmost), as a byte of value 0 or 1. *)
Definition bit_of (c : byte) (k : nat) : byte :=
  to_u8 (Z.land (Z.shiftr (u8 c) (Z.of_nat k)) 1).

(** The header of a one-plane, one-bit image with one byte per line. *)
Definition one_plane_header : PCXheader := header_of_bytes (header_bytes 0 1 0 0 7 0 1 1 []).

(** The computation [m] takes at most [k] bytes from the front of what is
    left of the stream, never [Fault]s, and fails only with "file
    truncated", with nothing left in the stream. *)
Definition io_reads {A : Type} (k : nat) (m : IO A) : Prop :=
  forall s o s',
    m s = (o, s') ->
    (exists taken,
       io_after s = taken ++ io_after s' /\ io_before s' = io_before s ++ taken /\
       (length taken <= k)%nat) /\
    (forall e, o = Err e -> e = Truncated /\ io_after s' = []) /\
    o <> Fault.

(** Where [x] stands when the plane loop reaches byte [j] of a plane line:
    8 columns a byte, but never past [width]. *)
Definition column_at (width j : Z) : Z := Z.max 0 (Z.min (8 * j) width).

(** How many of the bits [k < n] of byte [j] pass the padding test. *)
Definition bits_kept (width j n : Z) : Z := Z.max 0 (Z.min n (width - 8 * j)).

(** The bit of plane [plane] that the expansion stores for column [c]: it
    comes from byte [c / 8] of the plane line; inside that byte the first
    column stored gets the highest bit that passes the padding test (bit 7
    when all eight columns of the byte lie below [width], bit
    [width - 8 * (c / 8) - 1] otherwise), the next column the bit below,
    and so on. *)
Definition plane_bit (pcxh : PCXheader) (width : Z) (buf : list byte) (plane c : Z) : Z :=
  Z.land
    (Z.shiftr (u8 (nth (Z.to_nat (plane * BytesPerLine pcxh + c / 8)) buf x00))
              (Z.min (8 * (c / 8) + 8) width - 1 - c))
    1.

(** The value of a pixel after the planes [plane], [plane + 1], ... ([n] of
    them) have been or-ed into it. *)
Fixpoint or_planes (pcxh : PCXheader) (width : Z) (buf : list byte) (n : nat)
  (plane c : Z) (v : byte) : byte :=
  match n with
  | O => v
  | S n' =>
      or_planes pcxh width buf n' (plane + 1) c
        (to_u8 (Z.lor (u8 v) (Z.shiftl (plane_bit pcxh width buf plane c) plane)))
  end.

(* ================================================================== *)
(** * Properties *)

(** ** The stream *)

Lemma io_at_split (before after : list byte) :
  io_at (before ++ after) (len before) = mkIO before after.
Proof.
  unfold io_at, len. rewrite Nat2Z.id.
  rewrite firstn_app, skipn_app, Nat.sub_diag, firstn_all, skipn_all.
  simpl. now rewrite app_nil_r.
Qed.

Lemma SDL_ReadIO_bytes (s : SDL_IOStream) (size : Z) :
  io_bytes (snd (SDL_ReadIO s size)) = io_bytes s.
Proof.
  unfold SDL_ReadIO, io_bytes. simpl.
  now rewrite <- app_assoc, firstn_skipn.
Qed.

(** Seeking back to a position obtained from [SDL_TellIO] gives back the
    stream as it was, whatever was read in between. *)
Lemma seek_back (s s1 : SDL_IOStream) :
  io_bytes s1 = io_bytes s ->
  SDL_SeekIO s1 (SDL_TellIO s) SDL_IO_SEEK_SET = s.
Proof.
  intros E. unfold SDL_SeekIO. rewrite E. unfold io_bytes, SDL_TellIO.
  destruct s as [before after]. simpl. apply io_at_split.
Qed.

Lemma SDL_ReadIO_length (s : SDL_IOStream) (size : Z) :
  len (fst (SDL_ReadIO s size)) = Z.min (Z.max 0 size) (len (io_after s)).
Proof.
  unfold SDL_ReadIO, len. simpl. rewrite length_firstn. lia.
Qed.

(* ================================================================== *)
(** ** [IMG_isPCX] *)

Lemma IMG_isPCX_stream (s : SDL_IOStream) :
  snd (IMG_isPCX (Some s)) = Some s.
Proof.
  unfold IMG_isPCX.
  destruct (SDL_ReadIO s sizeof_PCXheader) as [got s1] eqn:R.
  simpl. f_equal. apply seek_back.
  change s1 with (snd (got, s1)). rewrite <- R. apply SDL_ReadIO_bytes.
Qed.

Lemma IMG_isPCX_short (s : SDL_IOStream) :
  len (io_after s) < sizeof_PCXheader -> fst (IMG_isPCX (Some s)) = false.
Proof.
  intros Hshort. unfold IMG_isPCX.
  pose proof (SDL_ReadIO_length s sizeof_PCXheader) as L.
  destruct (SDL_ReadIO s sizeof_PCXheader) as [got s1]. simpl in *.
  destruct (len got =? sizeof_PCXheader) eqn:E; [|reflexivity].
  apply Z.eqb_eq in E. unfold sizeof_PCXheader in *. lia.
Qed.

Lemma isPCX_times_same (n : nat) (s : SDL_IOStream) :
  isPCX_times n (Some s) = (repeat (fst (IMG_isPCX (Some s))) n, Some s).
Proof.
  induction n as [|n IH]; cbn [isPCX_times repeat]; [reflexivity|].
  pose proof (IMG_isPCX_stream s) as E.
  destruct (IMG_isPCX (Some s)) as [b1 src1]. cbn [fst snd] in *. subst src1.
  now rewrite IH.
Qed.

(** C8: probing leaves the stream as it found it, cursor included, whether
    the header matches or not; a stream with fewer than 128 bytes left is
    answered [false]; and [n] probes in a row return [n] times the same
    boolean and leave the stream unchanged. *)
Theorem IMG_isPCX_no_side_effect (s : SDL_IOStream) (n : nat) :
  snd (IMG_isPCX (Some s)) = Some s /\
  (len (io_after s) < sizeof_PCXheader -> fst (IMG_isPCX (Some s)) = false) /\
  isPCX_times n (Some s) = (repeat (fst (IMG_isPCX (Some s))) n, Some s).
Proof.
  split; [apply IMG_isPCX_stream|].
  split; [apply IMG_isPCX_short|apply isPCX_times_same].
Qed.

Lemma IMG_isPCX_no_side_effect_witness :
  let s := mkIO [x0a; x05] [x0a; x05; x01; x08] in
  snd (IMG_isPCX (Some s)) = Some s /\
  fst (IMG_isPCX (Some s)) = false /\
  isPCX_times 3 (Some s) = ([false; false; false], Some s).
Proof.
  intros s.
  destruct (IMG_isPCX_no_side_effect s 3) as [H1 [H2 H3]].
  split; [exact H1|]. split; [apply H2; vm_compute; reflexivity|].
  rewrite H3. rewrite H2 by (vm_compute; reflexivity). reflexivity.
Defined.

(** A matching header is answered [true], three times over, with the
    cursor back in the middle of the stream where it was. *)
Example IMG_isPCX_match :
  let s := mkIO [x00; x01] (header_bytes 1 8 0 0 3 1 1 4 [] ++ [x09]) in
  isPCX_times 3 (Some s) = ([true; true; true], Some s).
Proof. vm_compute. reflexivity. Qed.

(** C10: with a null stream the probe answers [false] and the loader
    returns NULL at once: no stream is touched, nothing is allocated or
    freed, and no error message is set. *)
Theorem null_src_returns_at_once (sdl : SDL) (heap : Heap) :
  IMG_isPCX None = (false, None) /\
  IMG_LoadPCX_IO sdl None heap = Some (mkResult None None heap None).
Proof. split; reflexivity. Qed.

(* ================================================================== *)
(** ** Run-length decoding *)

Lemma read_byte_cons (before : list byte) (c : byte) (rest : list byte) :
  read_byte (mkIO before (c :: rest)) = (Ok c, mkIO (before ++ [c]) rest).
Proof. reflexivity. Qed.

Lemma read_byte_nil (before : list byte) :
  fst (read_byte (mkIO before [])) = Err Truncated.
Proof. reflexivity. Qed.

Lemma int_dec_pos (c : Z) : 0 < c -> int_dec c = c - 1.
Proof.
  intros H. unfold int_dec, INT_MIN.
  destruct (c =? - 2 ^ 31) eqn:E; [apply Z.eqb_eq in E; lia|reflexivity].
Qed.

(** While a repeat is pending, a byte is produced without touching the
    stream. *)
Lemma rle_byte_pending (st : RunState) (s : SDL_IOStream) :
  count st <> 0 ->
  rle_byte st s = (Ok (ch st, mkRun (int_dec (count st)) (ch st)), s).
Proof.
  intros H. unfold rle_byte, rle_refill, io_bind, io_ret.
  apply Z.eqb_neq in H. now rewrite H.
Qed.

(** A control byte below 0xC0 is stored once, as itself. *)
Lemma rle_byte_literal (st : RunState) (before rest : list byte) (c : byte) :
  count st = 0 -> u8 c < 0xc0 ->
  rle_byte st (mkIO before (c :: rest))
  = (Ok (c, mkRun 0 c), mkIO (before ++ [c]) rest).
Proof.
  intros H0 Hc. unfold rle_byte, rle_refill, io_bind, io_ret.
  rewrite H0. simpl (0 =? 0). cbv beta iota. rewrite read_byte_cons.
  apply Z.ltb_lt in Hc. rewrite Hc. reflexivity.
Qed.

(** A control byte of 0xC0 or more takes the next byte as the value and
    its own low six bits as [count]. *)
Lemma rle_byte_run (st : RunState) (before rest : list byte) (c v : byte) :
  count st = 0 -> 0xc0 <= u8 c ->
  rle_byte st (mkIO before (c :: v :: rest))
  = (Ok (v, mkRun (int_dec (u8 c - 0xc0)) v), mkIO (before ++ [c; v]) rest).
Proof.
  intros H0 Hc. unfold rle_byte, rle_refill, io_bind, io_ret.
  rewrite H0. simpl (0 =? 0). cbv beta iota. rewrite read_byte_cons.
  destruct (u8 c <? 0xc0) eqn:E; [apply Z.ltb_lt in E; lia|].
  rewrite read_byte_cons. now rewrite <- app_assoc.
Qed.

Lemma low_six_bits (c : byte) : 0xc0 <= u8 c -> u8 c - 0xc0 = Z.land (u8 c) 63.
Proof. destruct c; vm_compute; intros H; try reflexivity; exfalso; now apply H. Qed.

(** A pending repeat of [c] bytes fills the next [n <= c] places and the
    stream stays where it is. *)
Lemma rle_line_pending (n : nat) (st : RunState) (s : SDL_IOStream) :
  Z.of_nat n <= count st ->
  rle_line n st s
  = (Ok (repeat (ch st) n, mkRun (count st - Z.of_nat n) (ch st)), s).
Proof.
  revert st. induction n as [|n IH]; intros [c v] H; cbn [count ch] in *.
  - cbn. now rewrite Z.sub_0_r.
  - cbn [rle_line]. unfold io_bind at 1.
    rewrite rle_byte_pending by (cbn [count ch]; lia). cbn [count ch].
    rewrite int_dec_pos by lia. unfold io_bind at 1.
    rewrite IH by (cbn [count ch]; lia). cbn [count ch repeat]. unfold io_ret.
    replace (c - 1 - Z.of_nat n) with (c - Z.of_nat (S n)) by lia. reflexivity.
Qed.

(** Decoding [n + m] bytes is decoding [n] bytes and then [m] more, from
    the variables and the stream as the first [n] left them. *)
Lemma rle_line_app (n m : nat) (st : RunState) (s : SDL_IOStream) :
  rle_line (n + m) st s
  = match rle_line n st s with
    | (Ok (cs, st1), s1) =>
        match rle_line m st1 s1 with
        | (Ok (ds, st2), s2) => (Ok (cs ++ ds, st2), s2)
        | (Err e, s2) => (Err e, s2)
        | (Fault, s2) => (Fault, s2)
        end
    | (Err e, s1) => (Err e, s1)
    | (Fault, s1) => (Fault, s1)
    end.
Proof.
  revert st s. induction n as [|n IH]; intros st s.
  - cbn. destruct (rle_line m st s) as [[[ds st2]|e|] s2]; reflexivity.
  - cbn [Nat.add rle_line]. unfold io_bind, io_ret.
    destruct (rle_byte st s) as [[[c st1]|e|] s1]; try reflexivity.
    rewrite IH.
    destruct (rle_line n st1 s1) as [[[cs st2]|e|] s2]; try reflexivity.
    destruct (rle_line m st2 s2) as [[[ds st3]|e|] s3]; reflexivity.
Qed.

(** A run of at least one: with no repeat pending, control byte [c >= 0xC1]
    and value [v] give [u8 c - 0xC0] copies of [v], after which nothing is
    pending and the stream stands behind [v]. *)
Lemma rle_line_run (st : RunState) (before rest : list byte) (c v : byte) :
  count st = 0 -> 0xc1 <= u8 c ->
  rle_line (Z.to_nat (u8 c - 0xc0)) st (mkIO before (c :: v :: rest))
  = (Ok (repeat v (Z.to_nat (u8 c - 0xc0)), mkRun 0 v), mkIO (before ++ [c; v]) rest).
Proof.
  intros H0 Hc.
  destruct (Z.to_nat (u8 c - 0xc0)) as [|n] eqn:En; [lia|].
  cbn [rle_line]. unfold io_bind at 1.
  rewrite rle_byte_run by (assumption || lia).
  rewrite int_dec_pos by lia. unfold io_bind at 1.
  rewrite rle_line_pending by (cbn [count ch]; lia). cbn [count ch repeat]. unfold io_ret.
  repeat f_equal. lia.
Qed.

(** On a stream without runs of length zero the loop produces what the
    grammar says, for as many bytes as the grammar yields: the bytes still
    owed by the pending repeat, then the expansion of the rest of the
    stream. *)
Lemma rle_line_refines (n : nat) :
  forall st s,
    0 <= count st ->
    no_zero_run (io_after s) ->
    (n <= Z.to_nat (count st) + length (rle_expand_spec (io_after s)))%nat ->
    exists st' s',
      rle_line n st s
      = (Ok (firstn n (repeat (ch st) (Z.to_nat (count st)) ++ rle_expand_spec (io_after s)),
             st'), s').
Proof.
  induction n as [|n IH]; intros [cnt v] [before after] Hc Hwf Hn; cbn [count ch io_after] in *.
  - do 2 eexists. reflexivity.
  - cbn [rle_line]. unfold io_bind at 1.
    destruct (Z.eq_dec cnt 0) as [->|Hpos].
    + destruct after as [|c rest]; [cbn in Hn; lia|].
      cbn [no_zero_run rle_expand_spec] in Hwf, Hn |- *.
      destruct (u8 c <? 0xc0) eqn:E.
      * apply Z.ltb_lt in E. rewrite rle_byte_literal by (reflexivity || assumption).
        destruct (IH (mkRun 0 c) (mkIO (before ++ [c]) rest)) as [st' [s' Hrun]];
          cbn [count ch io_after] in *; [lia|assumption|cbn [length] in Hn; lia|].
        unfold io_bind at 1. rewrite Hrun. do 2 eexists. reflexivity.
      * apply Z.ltb_ge in E. destruct Hwf as [Hnz Hwf].
        destruct rest as [|w rest']; [cbn in Hn; lia|].
        rewrite rle_byte_run by (reflexivity || assumption).
        rewrite int_dec_pos by lia.
        rewrite <- (low_six_bits c E) in Hn |- *.
        destruct (Z.to_nat (u8 c - 0xc0)) as [|k] eqn:Ek; [lia|].
        destruct (IH (mkRun (u8 c - 0xc0 - 1) w) (mkIO (before ++ [c; w]) rest'))
          as [st' [s' Hrun]]; cbn [count ch io_after] in *; [lia|assumption| |].
        { rewrite length_app, repeat_length in Hn. lia. }
        unfold io_bind at 1. rewrite Hrun.
        replace (Z.to_nat (u8 c - 0xc0 - 1)) with k by lia.
        do 2 eexists. reflexivity.
    + rewrite rle_byte_pending by (cbn [count]; assumption). cbn [count ch].
      rewrite int_dec_pos by lia.
      destruct (Z.to_nat cnt) as [|k] eqn:Ek; [lia|].
      destruct (IH (mkRun (cnt - 1) v) (mkIO before after)) as [st' [s' Hrun]];
        cbn [count ch io_after] in *; [lia|assumption| |].
      { replace (Z.to_nat (cnt - 1)) with k by lia. lia. }
      unfold io_bind at 1. rewrite Hrun.
      replace (Z.to_nat (cnt - 1)) with k by lia.
      do 2 eexists. reflexivity.
Qed.

(** The example of the specification: 0xC3 0x7F is three bytes 0x7F. *)
Example rle_c3_7f :
  rle_line 3 run_init (stream_of [xc3; x7f; x01])
  = (Ok ([x7f; x7f; x7f], mkRun 0 x7f), mkIO [xc3; x7f] [x01]).
Proof. reflexivity. Qed.

(** C1, at the input where the loop departs from the grammar: the control
    byte 0xC0 has its low six bits at zero, so the value after it is to be
    repeated zero times.  The loop stores the value nevertheless and
    decrements [count] from 0 to -1; [!count] is then false for every
    following byte, so the value fills the rest of the row (and of the
    image) and the stream is not read again.  The grammar gives the four
    bytes 01 02 03 04 for this row. *)
Theorem rle_zero_count_run_floods :
  rle_line 4 run_init (stream_of [xc0; x55; x01; x02; x03; x04])
  = (Ok ([x55; x55; x55; x55], mkRun (-4) x55), mkIO [xc0; x55] [x01; x02; x03; x04]) /\
  firstn 4 (rle_expand_spec [xc0; x55; x01; x02; x03; x04]) = [x01; x02; x03; x04] /\
  option_map (fun res => (option_map pixels (ret res), error_set res))
    (IMG_LoadPCX_IO sdl_usual (Some (stream_of zero_run_image)) empty_heap)
  = Some (Some [[x55; x55; x55; x55]], None).
Proof. repeat split; vm_compute; reflexivity. Qed.

(* ================================================================== *)
(** ** Runs and row boundaries *)

Lemma read_scanline_rle (pcxh : PCXheader) (bpl : Z) (st : RunState) :
  Encoding pcxh <> 0 -> read_scanline pcxh bpl st = rle_line (Z.to_nat bpl) st.
Proof.
  intros H. unfold read_scanline. apply Z.eqb_neq in H. now rewrite H.
Qed.

(** A row that starts with a repeat pending takes its first bytes from that
    repeat; the stream is read again only once the repeat is used up. *)
Lemma read_scanline_pending (pcxh : PCXheader) (bpl : Z) (st : RunState) (s : SDL_IOStream) :
  Encoding pcxh <> 0 -> 0 <= bpl -> 0 < count st ->
  read_scanline pcxh bpl st s
  = match rle_line (Z.to_nat (bpl - Z.min (count st) bpl))
            (mkRun (count st - Z.min (count st) bpl) (ch st)) s with
    | (Ok (cs, st'), s') =>
        (Ok (repeat (ch st) (Z.to_nat (Z.min (count st) bpl)) ++ cs, st'), s')
    | (Err e, s') => (Err e, s')
    | (Fault, s') => (Fault, s')
    end.
Proof.
  intros He Hb Hc. rewrite read_scanline_rle by assumption.
  set (n := Z.min (count st) bpl).
  replace (Z.to_nat bpl) with (Z.to_nat n + Z.to_nat (bpl - n))%nat by lia.
  rewrite rle_line_app, rle_line_pending by lia.
  now rewrite Z2Nat.id by lia.
Qed.

Lemma rle_line_c5 (st : RunState) (before rest : list byte) (v : byte) :
  count st = 0 ->
  rle_line 2 st (mkIO before (xc5 :: v :: rest))
  = (Ok ([v; v], mkRun 3 v), mkIO (before ++ [xc5; v]) rest).
Proof.
  intros H0. cbn [rle_line]. unfold io_bind at 1.
  rewrite rle_byte_run by (assumption || (vm_compute; discriminate)).
  unfold io_bind at 1 2.
  rewrite rle_byte_pending by (vm_compute; discriminate).
  reflexivity.
Qed.

(** C2: [count] and [ch] pass from one row to the next.  A row that begins
    while a repeat is pending first receives the rest of that repeat (or a
    row's worth of it), without the stream being read; and the loop over
    the rows hands the variables left by one scan line to the next.  In
    particular a run of 5 begun two bytes before the end of a row puts 2
    bytes into that row and exactly 3 into the next one, whose remaining
    bytes are decoded with nothing pending, from the stream as it stood
    behind the run's value byte. *)
Theorem run_carries_into_next_row (pcxh : PCXheader) (bpl : Z) :
  Encoding pcxh <> 0 -> 0 <= bpl ->
  (forall st s, 0 < count st ->
     read_scanline pcxh bpl st s
     = match rle_line (Z.to_nat (bpl - Z.min (count st) bpl))
               (mkRun (count st - Z.min (count st) bpl) (ch st)) s with
       | (Ok (cs, st'), s') =>
           (Ok (repeat (ch st) (Z.to_nat (Z.min (count st) bpl)) ++ cs, st'), s')
       | (Err e, s') => (Err e, s')
       | (Fault, s') => (Fault, s')
       end) /\
  (forall (pre : nat) st0 s0 pre_bytes st1 before v rest,
     bpl = Z.of_nat pre + 2 -> 3 <= bpl ->
     rle_line pre st0 s0 = (Ok (pre_bytes, st1), mkIO before (xc5 :: v :: rest)) ->
     count st1 = 0 ->
     read_scanline pcxh bpl st0 s0
     = (Ok (pre_bytes ++ [v; v], mkRun 3 v), mkIO (before ++ [xc5; v]) rest) /\
     read_scanline pcxh bpl (mkRun 3 v) (mkIO (before ++ [xc5; v]) rest)
     = match rle_line (Z.to_nat (bpl - 3)) (mkRun 0 v) (mkIO (before ++ [xc5; v]) rest) with
       | (Ok (cs, st'), s') => (Ok ([v; v; v] ++ cs, st'), s')
       | (Err e, s') => (Err e, s')
       | (Fault, s') => (Fault, s')
       end) /\
  (forall width pitch_ src_bits row rest st s,
     decode_rows pcxh width pitch_ bpl src_bits (row :: rest) st s
     = match read_scanline pcxh bpl st s with
       | (Ok (buf, st1), s1) =>
           match reconstruct pcxh width pitch_ bpl src_bits buf row with
           | Ok row' =>
               match decode_rows pcxh width pitch_ bpl src_bits rest st1 s1 with
               | (Ok (rest', st2), s2) => (Ok (row' :: rest', st2), s2)
               | (Err e, s2) => (Err e, s2)
               | (Fault, s2) => (Fault, s2)
               end
           | Err e => (Err e, s1)
           | Fault => (Fault, s1)
           end
       | (Err e, s1) => (Err e, s1)
       | (Fault, s1) => (Fault, s1)
       end).
Proof.
  intros He Hb. split; [|split].
  - intros st s Hc. now apply read_scanline_pending.
  - intros pre st0 s0 pre_bytes st1 before v rest Hbpl H3 Hpre H0. split.
    + rewrite read_scanline_rle by assumption.
      replace (Z.to_nat bpl) with (pre + 2)%nat by lia.
      rewrite rle_line_app, Hpre, rle_line_c5 by assumption. reflexivity.
    + rewrite read_scanline_pending by (assumption || (cbn [count]; lia)).
      cbn [count ch]. rewrite Z.min_l by lia. reflexivity.
  - intros width pitch_ src_bits row rest st s.
    cbn [decode_rows]. unfold io_bind, io_lift, io_ret.
    destruct (read_scanline pcxh bpl st s) as [[[buf st1]|e|] s1]; try reflexivity.
    destruct (reconstruct pcxh width pitch_ bpl src_bits buf row); try reflexivity.
    destruct (decode_rows pcxh width pitch_ bpl src_bits rest st1 s1)
      as [[[rest' st2]|e|] s2]; reflexivity.
Qed.

Lemma run_carries_into_next_row_witness :
  let pcxh := with_Encoding (header_of_bytes (header_bytes 1 8 0 0 3 1 1 4 [])) 1 in
  let s2 := mkIO [x01; x02; xc5; x7f] [x09; x0a] in
  read_scanline pcxh 4 run_init (stream_of [x01; x02; xc5; x7f; x09; x0a])
  = (Ok ([x01; x02; x7f; x7f], mkRun 3 x7f), s2) /\
  read_scanline pcxh 4 (mkRun 3 x7f) s2
  = (Ok ([x7f; x7f; x7f; x09], mkRun 0 x09), mkIO [x01; x02; xc5; x7f; x09] [x0a]).
Proof.
  intros pcxh s2.
  assert (He : Encoding pcxh <> 0) by (vm_compute; discriminate).
  assert (Hb : 0 <= 4) by lia.
  destruct (run_carries_into_next_row pcxh 4 He Hb) as [_ [Hrun _]].
  destruct (Hrun 2%nat run_init (stream_of [x01; x02; xc5; x7f; x09; x0a])
              [x01; x02] (mkRun 0 x02) [x01; x02] x7f [x09; x0a])
    as [H1 H2]; try reflexivity; try lia.
  split; [exact H1|]. exact (eq_trans H2 eq_refl).
Defined.

(** The same on a whole image of 4 by 2 pixels. *)
Example run_across_rows_image :
  option_map (fun res => option_map pixels (ret res))
    (IMG_LoadPCX_IO sdl_usual
       (Some (stream_of (header_bytes 1 8 0 0 3 1 1 4 []
                         ++ [x01; x02; xc5; x7f; x09] ++ [x0c] ++ repeat x07 768)))
       empty_heap)
  = Some (Some [[x01; x02; x7f; x7f]; [x7f; x7f; x7f; x09]]).
Proof. vm_compute. reflexivity. Qed.

(* ================================================================== *)
(** ** Which errors a stage can raise *)

Section Errors.
Variable P : string -> Prop.

Lemma step_bind_err {A B : Type} (m : step A) (k : A -> step B) (e : string) :
  (forall e', m = Err e' -> P e') ->
  (forall x e', k x = Err e' -> P e') ->
  step_bind m k = Err e -> P e.
Proof.
  intros Hm Hk. destruct m as [x|e'|]; cbn; intros H.
  - eapply Hk, H.
  - inversion H; subst. now apply Hm.
  - discriminate.
Qed.

Lemma for_up_err {S : Type} (n : nat) (body : Z -> S -> step S) :
  (forall i s e, body i s = Err e -> P e) ->
  forall i s e, for_up n i body s = Err e -> P e.
Proof.
  intros Hb. induction n as [|n IH]; intros i s e; cbn; [discriminate|].
  destruct (body i s) as [s'|e'|] eqn:E; intros H.
  - eapply IH, H.
  - inversion H; subst. eapply Hb, E.
  - discriminate.
Qed.

Lemma for_down_err {S : Type} (n : nat) (body : Z -> S -> step S) :
  (forall i s e, body i s = Err e -> P e) ->
  forall s e, for_down n body s = Err e -> P e.
Proof.
  intros Hb. induction n as [|n IH]; intros s e; cbn; [discriminate|].
  destruct (body (Z.of_nat n) s) as [s'|e'|] eqn:E; intros H.
  - eapply IH, H.
  - inversion H; subst. eapply Hb, E.
  - discriminate.
Qed.

Lemma io_bind_err {A B : Type} (m : IO A) (k : A -> IO B) :
  io_err P m -> (forall x, io_err P (k x)) -> io_err P (io_bind m k).
Proof.
  intros Hm Hk s e. unfold io_bind.
  specialize (Hm s). destruct (m s) as [[x|e'|] s1]; cbn in *.
  - apply Hk.
  - intros H. inversion H; subst. now apply Hm.
  - discriminate.
Qed.

Lemma io_ret_err {A : Type} (x : A) : io_err P (io_ret x).
Proof. intros s e. cbn. discriminate. Qed.

Lemma io_lift_err {A : Type} (m : step A) :
  (forall e, m = Err e -> P e) -> io_err P (io_lift m).
Proof. intros H s e. cbn. apply H. Qed.
End Errors.

Lemma load_no_err {A : Type} (m : list A) (i : Z) (e : string) : load m i <> Err e.
Proof.
  unfold load. destruct (in_bounds m i); [|discriminate].
  destruct (nth_error m (Z.to_nat i)); discriminate.
Qed.

Lemma store_no_err {A : Type} (m : list A) (i : Z) (v : A) (e : string) :
  store m i v <> Err e.
Proof. unfold store. destruct (in_bounds m i); discriminate. Qed.

Lemma read_byte_err : io_err is_truncated read_byte.
Proof.
  intros [before [|c [|c' rest]]] e; cbn; intros H; inversion H; reflexivity.
Qed.

Lemma rle_byte_err (st : RunState) : io_err is_truncated (rle_byte st).
Proof.
  unfold rle_byte, rle_refill.
  apply io_bind_err; [|intros; apply io_ret_err].
  destruct (count st =? 0); [|apply io_ret_err].
  apply io_bind_err; [apply read_byte_err|]. intros c.
  destruct (u8 c <? 0xc0); [apply io_ret_err|].
  apply io_bind_err; [apply read_byte_err|]. intros; apply io_ret_err.
Qed.

Lemma rle_line_err (n : nat) : forall st, io_err is_truncated (rle_line n st).
Proof.
  induction n as [|n IH]; intros st; cbn [rle_line]; [apply io_ret_err|].
  apply io_bind_err; [apply rle_byte_err|]. intros [c st1].
  apply io_bind_err; [apply IH|]. intros [cs st2]. apply io_ret_err.
Qed.

Lemma raw_line_err (bpl : Z) : io_err is_truncated (raw_line bpl).
Proof.
  intros s e. unfold raw_line.
  destruct (SDL_ReadIO s bpl) as [got s1].
  destruct (len got =? bpl); cbn; intros H; inversion H; reflexivity.
Qed.

Lemma read_scanline_err (pcxh : PCXheader) (bpl : Z) (st : RunState) :
  io_err is_truncated (read_scanline pcxh bpl st).
Proof.
  unfold read_scanline. destruct (Encoding pcxh =? 0).
  - apply io_bind_err; [apply raw_line_err|]. intros; apply io_ret_err.
  - apply rle_line_err.
Qed.

Ltac no_err P :=
  repeat (cbv beta; match goal with
  | |- forall _, _ => intro
  | H : load _ _ = Err _ |- _ => exfalso; exact (load_no_err _ _ _ H)
  | H : store _ _ _ = Err _ |- _ => exfalso; exact (store_no_err _ _ _ _ H)
  | H : Ok _ = Err _ |- _ => discriminate H
  | H : Fault = Err _ |- _ => discriminate H
  | H : step_bind _ _ = Err _ |- _ => revert H; apply (step_bind_err P)
  | H : for_up _ _ _ _ = Err _ |- _ => revert H; apply (for_up_err P)
  | H : for_down _ _ _ = Err _ |- _ => revert H; apply (for_down_err P)
  | H : (let '(_, _) := ?p in _) = Err _ |- _ => destruct p
  | H : (if ?c then _ else _) = Err _ |- _ => destruct c
  end).

Lemma expand_planes_no_err (pcxh : PCXheader) (width : Z) (buf row : list byte) (e : string) :
  expand_planes pcxh width buf row = Err e -> False.
Proof. unfold expand_planes, expand_byte. intros H. no_err (fun _ : string => False). Qed.

Lemma copy_row_no_err (width bpl : Z) (buf row : list byte) (e : string) :
  copy_row width bpl buf row = Err e -> False.
Proof. unfold copy_row. intros H. no_err (fun _ : string => False). Qed.

Lemma deinterlace_err (pcxh : PCXheader) (width pitch_ bpl : Z) (buf row : list byte) (e : string) :
  deinterlace pcxh width pitch_ bpl buf row = Err e -> e = CorruptData.
Proof.
  unfold deinterlace, deinterlace_plane, deinterlace_turn. intros H.
  no_err (fun e : string => e = CorruptData).
  inversion H. reflexivity.
Qed.

Lemma reconstruct_err (pcxh : PCXheader) (width pitch_ bpl src_bits : Z)
  (buf row : list byte) (e : string) :
  reconstruct pcxh width pitch_ bpl src_bits buf row = Err e -> e = CorruptData.
Proof.
  unfold reconstruct.
  destruct (src_bits <=? 4); [intros H; now apply expand_planes_no_err in H|].
  destruct (src_bits =? 8); [intros H; now apply copy_row_no_err in H|].
  destruct (src_bits =? 24); [apply deinterlace_err|discriminate].
Qed.

Lemma io_err_weaken {A : Type} (P Q : string -> Prop) (m : IO A) :
  (forall e, P e -> Q e) -> io_err P m -> io_err Q m.
Proof. intros H Hm s e He. eapply H, Hm, He. Qed.

Lemma decode_rows_err (pcxh : PCXheader) (width pitch_ bpl src_bits : Z)
  (rows : list (list byte)) :
  forall st, io_err is_row_error (decode_rows pcxh width pitch_ bpl src_bits rows st).
Proof.
  induction rows as [|row rest IH]; intros st; cbn [decode_rows]; [apply io_ret_err|].
  apply io_bind_err.
  { eapply io_err_weaken; [|apply read_scanline_err]. intros e He; now left. }
  intros [buf st1]. apply io_bind_err.
  { apply io_lift_err. intros e He. right. eapply reconstruct_err, He. }
  intros row'. apply io_bind_err; [apply IH|]. intros [rest' st2]. apply io_ret_err.
Qed.

Lemma set_colors_no_err (n : Z) (cmap : list byte) (cols : list SDL_Color) (e : string) :
  set_colors n cmap cols = Err e -> False.
Proof. unfold set_colors, set_color. intros H. no_err (fun _ : string => False). Qed.

Lemma read_colormap_err : io_err is_truncated read_colormap.
Proof.
  intros s e. unfold read_colormap.
  destruct (SDL_ReadIO _ 768) as [colormap s2].
  destruct (len colormap =? 768); cbn; intros H; inversion H; reflexivity.
Qed.

Lemma fill_palette_err (pcxh : PCXheader) (src_bits : Z) (cols : list SDL_Color) :
  io_err is_truncated (fill_palette pcxh src_bits cols).
Proof.
  unfold fill_palette. destruct (src_bits =? 8).
  - apply io_bind_err; [apply read_colormap_err|]. intros cm.
    apply io_bind_err; [|intros; apply io_ret_err].
    apply io_lift_err. intros e He. now apply set_colors_no_err in He.
  - apply io_bind_err; [|intros; apply io_ret_err].
    apply io_lift_err. intros e He. now apply set_colors_no_err in He.
Qed.

(* ================================================================== *)
(** ** Unsupported formats *)

Lemma pcx_format_legal (pcxh : PCXheader) :
  pcx_format pcxh = None <-> ~ legal_pair (BitsPerPixel pcxh) (NPlanes pcxh).
Proof.
  unfold pcx_format, legal_pair.
  destruct (BitsPerPixel pcxh =? 1) eqn:E1, (BitsPerPixel pcxh =? 8) eqn:E8,
    (NPlanes pcxh >=? 1) eqn:G1, (NPlanes pcxh <=? 4) eqn:L4,
    (NPlanes pcxh =? 1) eqn:P1, (NPlanes pcxh =? 3) eqn:P3; cbn;
    (split; [intros H; try discriminate H; lia | intros H; try reflexivity; exfalso; apply H; lia]).
Qed.

Lemma seek_back_read (s : SDL_IOStream) (size : Z) (got : list byte) (s1 : SDL_IOStream) :
  SDL_ReadIO s size = (got, s1) ->
  SDL_SeekIO s1 (SDL_TellIO s) SDL_IO_SEEK_SET = s.
Proof.
  intros R. apply seek_back. change s1 with (snd (got, s1)).
  rewrite <- R. apply SDL_ReadIO_bytes.
Qed.

Lemma not_unsupported_row_error (e : string) : is_row_error e -> e <> UnsupportedFormat.
Proof. intros [H|H]; subst; discriminate. Qed.

Lemma not_unsupported_truncated (e : string) : is_truncated e -> e <> UnsupportedFormat.
Proof. intros H; rewrite H; discriminate. Qed.

(** Past the header, [error] is "unsupported PCX format" exactly when the
    choice of [format] fell into its [else] branch. *)
Lemma load_after_header_unsupported (sdl : SDL) (pcxh : PCXheader) (s1 : SDL_IOStream)
  (heap : Heap) (d : AtDone) :
  load_after_header sdl pcxh s1 heap = Some d ->
  d_error d = Some UnsupportedFormat ->
  pcx_format pcxh = None.
Proof.
  unfold load_after_header.
  destruct (pcx_format pcxh) as [[bits fmt]|]; [|reflexivity].
  intros H He. exfalso. revert H He.
  destruct (SDL_CreateSurface sdl _ _ fmt) as [pitch_|];
    [|intros H; inversion H; subst; discriminate].
  destruct (negb (SDL_calloc sdl _));
    [intros H; inversion H; subst; discriminate|].
  match goal with |- context [decode_rows ?a ?b ?c ?d ?e ?f ?g ?h] =>
    pose proof (decode_rows_err a b c d e f g h) as Hrows;
    destruct (decode_rows a b c d e f g h) as [[[rows st]|e1|] s2] end;
    cbn [fst] in Hrows.
  - destruct (bits =? 8); [|intros H; inversion H; subst; discriminate].
    destruct (SDL_CreateSurfacePalette sdl) as [cols|];
      [|intros H; inversion H; subst; discriminate].
    match goal with |- context [fill_palette ?a ?b ?c ?d] =>
      pose proof (fill_palette_err a b c d) as Hpal;
      destruct (fill_palette a b c d) as [[pal|e2|] s3] end;
      cbn [fst] in Hpal; intros H; inversion H; subst; cbn [d_error]; try discriminate.
    intros He; inversion He.
    eapply not_unsupported_truncated; [apply Hpal; reflexivity|assumption].
  - intros H; inversion H; subst; cbn [d_error]. intros He; inversion He.
    eapply not_unsupported_row_error; [apply Hrows; reflexivity|assumption].
  - discriminate.
Qed.

(** C6: once the 128 header bytes have been read, the loader ends with the
    error "unsupported PCX format" if and only if (BitsPerPixel, NPlanes)
    is none of (1, 1..4), (8, 1), (8, 3).  When it does, it returns NULL
    with the stream back where it was and nothing allocated.  The pair
    (2, 1) is such a case. *)
Theorem unsupported_iff_illegal_pair (sdl : SDL) (s : SDL_IOStream) (heap : Heap)
  (got : list byte) (s1 : SDL_IOStream) :
  SDL_ReadIO s sizeof_PCXheader = (got, s1) ->
  len got = sizeof_PCXheader ->
  ((exists res, IMG_LoadPCX_IO sdl (Some s) heap = Some res /\
                error_set res = Some UnsupportedFormat)
   <-> ~ legal_pair (BitsPerPixel (header_of_bytes got)) (NPlanes (header_of_bytes got))) /\
  (~ legal_pair (BitsPerPixel (header_of_bytes got)) (NPlanes (header_of_bytes got)) ->
   IMG_LoadPCX_IO sdl (Some s) heap
   = Some (mkResult None (Some s) heap (Some UnsupportedFormat))) /\
  (BitsPerPixel (header_of_bytes got) = 2 -> NPlanes (header_of_bytes got) = 1 ->
   IMG_LoadPCX_IO sdl (Some s) heap
   = Some (mkResult None (Some s) heap (Some UnsupportedFormat))).
Proof.
  intros R L.
  assert (Hbad : ~ legal_pair (BitsPerPixel (header_of_bytes got)) (NPlanes (header_of_bytes got)) ->
                 IMG_LoadPCX_IO sdl (Some s) heap
                 = Some (mkResult None (Some s) heap (Some UnsupportedFormat))).
  { intros Hl. apply pcx_format_legal in Hl.
    unfold IMG_LoadPCX_IO, load_body. rewrite R.
    apply Z.eqb_eq in L. rewrite L. cbn [negb].
    unfold load_after_header. rewrite Hl. unfold done.
    cbn [d_error d_buf d_heap d_src d_surface SDL_free].
    now rewrite (seek_back_read _ _ _ _ R). }
  split; [split|split].
  - intros [res [Hres Herr]]. apply pcx_format_legal.
    unfold IMG_LoadPCX_IO, load_body in Hres. rewrite R in Hres.
    apply Z.eqb_eq in L. rewrite L in Hres. cbn [negb] in Hres.
    destruct (load_after_header sdl (header_of_bytes got) s1 heap) as [d|] eqn:Ed;
      [|discriminate].
    inversion Hres; subst res. apply (load_after_header_unsupported _ _ _ _ _ Ed).
    unfold done in Herr. destruct (d_error d) as [e|]; cbn in Herr; congruence.
  - intros Hl. eexists. split; [apply Hbad, Hl|reflexivity].
  - exact Hbad.
  - intros Hb Hp. apply Hbad. unfold legal_pair. rewrite Hb, Hp. lia.
Qed.

Lemma unsupported_iff_illegal_pair_witness :
  let s := stream_of (header_bytes 1 2 0 0 3 0 1 4 [] ++ [x01; x02]) in
  IMG_LoadPCX_IO sdl_usual (Some s) empty_heap
  = Some (mkResult None (Some s) empty_heap (Some UnsupportedFormat)).
Proof.
  intros s.
  refine (proj2 (proj2 (unsupported_iff_illegal_pair sdl_usual s empty_heap
                  (header_bytes 1 2 0 0 3 0 1 4 [])
                  (mkIO (header_bytes 1 2 0 0 3 0 1 4 []) [x01; x02]) _ _)) _ _);
    vm_compute; reflexivity.
Defined.

(* ================================================================== *)
(** ** The [Encoding] field *)

Lemma read_scanline_raw (pcxh : PCXheader) (bpl : Z) (st : RunState) (s : SDL_IOStream) :
  Encoding pcxh = 0 ->
  read_scanline pcxh bpl st s
  = (if len (fst (SDL_ReadIO s bpl)) =? bpl
     then (Ok (fst (SDL_ReadIO s bpl), st), snd (SDL_ReadIO s bpl))
     else (Err Truncated, snd (SDL_ReadIO s bpl))).
Proof.
  intros H. unfold read_scanline, raw_line, io_bind, io_ret. rewrite H.
  cbn [Z.eqb]. destruct (SDL_ReadIO s bpl) as [got s1]. cbn [fst snd].
  destruct (len got =? bpl); reflexivity.
Qed.



(** An image stored with [Encoding] 2, and one with 255, decode to the
    pixels of the same image stored with [Encoding] 1. *)
Example encoding_2_and_255_decode_as_1 :
  let pix e := option_map (fun res => (option_map pixels (ret res), error_set res))
                 (IMG_LoadPCX_IO sdl_usual (Some (stream_of (encoded_image e))) empty_heap) in
  pix 1 = Some (Some [[x01; x02; x7f; x7f]; [x7f; x7f; x7f; x09]], None) /\
  pix 2 = pix 1 /\ pix 255 = pix 1.
Proof. vm_compute. repeat split. Qed.

(* ================================================================== *)
(** ** What the loader leaves behind when it fails *)

Lemma io_bind_keeps {A B : Type} (m : IO A) (k : A -> IO B) :
  io_keeps m -> (forall x, io_keeps (k x)) -> io_keeps (io_bind m k).
Proof.
  intros Hm Hk s. unfold io_bind. specialize (Hm s).
  destruct (m s) as [[x|e|] s1]; cbn [snd] in *; try assumption.
  now rewrite Hk.
Qed.

Lemma io_ret_keeps {A : Type} (x : A) : io_keeps (io_ret x).
Proof. intros s. reflexivity. Qed.

Lemma io_lift_keeps {A : Type} (m : step A) : io_keeps (io_lift m).
Proof. intros s. reflexivity. Qed.

Lemma io_at_bytes (bytes : list byte) (pos : Z) : io_bytes (io_at bytes pos) = bytes.
Proof. unfold io_at, io_bytes. cbn. apply firstn_skipn. Qed.

Lemma SDL_SeekIO_bytes (s : SDL_IOStream) (offset : Z) (whence : SDL_IOWhence) :
  io_bytes (SDL_SeekIO s offset whence) = io_bytes s.
Proof. destruct whence; cbn [SDL_SeekIO]; apply io_at_bytes. Qed.

Lemma read_byte_keeps : io_keeps read_byte.
Proof.
  intros s. unfold read_byte.
  pose proof (SDL_ReadIO_bytes s 1) as H.
  destruct (SDL_ReadIO s 1) as [[|c [|c' got]] s1]; exact H.
Qed.

Lemma rle_byte_keeps (st : RunState) : io_keeps (rle_byte st).
Proof.
  unfold rle_byte, rle_refill.
  apply io_bind_keeps; [|intros; apply io_ret_keeps].
  destruct (count st =? 0); [|apply io_ret_keeps].
  apply io_bind_keeps; [apply read_byte_keeps|]. intros c.
  destruct (u8 c <? 0xc0); [apply io_ret_keeps|].
  apply io_bind_keeps; [apply read_byte_keeps|]. intros; apply io_ret_keeps.
Qed.

Lemma rle_line_keeps (n : nat) : forall st, io_keeps (rle_line n st).
Proof.
  induction n as [|n IH]; intros st; cbn [rle_line]; [apply io_ret_keeps|].
  apply io_bind_keeps; [apply rle_byte_keeps|]. intros [c st1].
  apply io_bind_keeps; [apply IH|]. intros [cs st2]. apply io_ret_keeps.
Qed.

Lemma raw_line_keeps (bpl : Z) : io_keeps (raw_line bpl).
Proof.
  intros s. unfold raw_line.
  pose proof (SDL_ReadIO_bytes s bpl) as H.
  destruct (SDL_ReadIO s bpl) as [got s1].
  destruct (len got =? bpl); exact H.
Qed.

Lemma read_scanline_keeps (pcxh : PCXheader) (bpl : Z) (st : RunState) :
  io_keeps (read_scanline pcxh bpl st).
Proof.
  unfold read_scanline. destruct (Encoding pcxh =? 0).
  - apply io_bind_keeps; [apply raw_line_keeps|]. intros; apply io_ret_keeps.
  - apply rle_line_keeps.
Qed.

Lemma decode_rows_keeps (pcxh : PCXheader) (width pitch_ bpl src_bits : Z)
  (rows : list (list byte)) :
  forall st, io_keeps (decode_rows pcxh width pitch_ bpl src_bits rows st).
Proof.
  induction rows as [|row rest IH]; intros st; cbn [decode_rows]; [apply io_ret_keeps|].
  apply io_bind_keeps; [apply read_scanline_keeps|]. intros [buf st1].
  apply io_bind_keeps; [apply io_lift_keeps|]. intros row'.
  apply io_bind_keeps; [apply IH|]. intros [rest' st2]. apply io_ret_keeps.
Qed.

Lemma look_for_palette_bytes (after : list byte) :
  forall before, io_bytes (look_for_palette before after) = before ++ after.
Proof.
  induction after as [|pch rest IH]; intros before; cbn [look_for_palette].
  - now rewrite SDL_SeekIO_bytes.
  - destruct (u8 pch =? 12).
    + unfold io_bytes. cbn. now rewrite <- app_assoc.
    + rewrite IH. now rewrite <- app_assoc.
Qed.

Lemma read_colormap_keeps : io_keeps read_colormap.
Proof.
  intros s. unfold read_colormap.
  pose proof (SDL_ReadIO_bytes (look_for_palette (io_before s) (io_after s)) 768) as H.
  rewrite look_for_palette_bytes in H.
  destruct (SDL_ReadIO _ 768) as [colormap s2].
  destruct (len colormap =? 768); exact H.
Qed.

Lemma fill_palette_keeps (pcxh : PCXheader) (src_bits : Z) (cols : list SDL_Color) :
  io_keeps (fill_palette pcxh src_bits cols).
Proof.
  unfold fill_palette. destruct (src_bits =? 8).
  - apply io_bind_keeps; [apply read_colormap_keeps|]. intros cm.
    apply io_bind_keeps; [apply io_lift_keeps|]. intros; apply io_ret_keeps.
  - apply io_bind_keeps; [apply io_lift_keeps|]. intros; apply io_ret_keeps.
Qed.

(** At [done] the stream still holds the bytes it held after the header was
    read; and when [error] is set, the surface and the buffer, if any, are
    the only allocations made. *)
Lemma load_after_header_at_done (sdl : SDL) (pcxh : PCXheader) (s1 : SDL_IOStream)
  (heap : Heap) (d : AtDone) :
  load_after_header sdl pcxh s1 heap = Some d ->
  io_bytes (d_src d) = io_bytes s1 /\
  (d_error d <> None ->
   SDL_free (d_buf d) (d_heap d)
   = match d_surface d with
     | Some _ => mkHeap (S (live_surfaces heap)) (live_buffers heap)
     | None => heap
     end).
Proof.
  unfold load_after_header.
  destruct (pcx_format pcxh) as [[bits fmt]|];
    [|intros H; inversion H; subst; cbn; auto].
  destruct (SDL_CreateSurface sdl _ _ fmt) as [pitch_|];
    [|intros H; inversion H; subst; cbn; auto].
  destruct (negb (SDL_calloc sdl _));
    [intros H; inversion H; subst; cbn; auto|].
  match goal with |- context [decode_rows ?a ?b ?c ?d ?e ?f ?g ?h] =>
    pose proof (decode_rows_keeps a b c d e f g h) as Hrows;
    destruct (decode_rows a b c d e f g h) as [[[rows st]|e1|] s2] end;
    cbn [snd] in Hrows; [| intros H; inversion H; subst; cbn; auto | discriminate].
  destruct (bits =? 8);
    [|intros H; inversion H; subst; cbn; split; [assumption|congruence]].
  destruct (SDL_CreateSurfacePalette sdl) as [cols|];
    [|intros H; inversion H; subst; cbn; auto].
  match goal with |- context [fill_palette ?a ?b ?c ?d] =>
    pose proof (fill_palette_keeps a b c d) as Hpal;
    destruct (fill_palette a b c d) as [[pal|e2|] s3] end;
    cbn [snd] in Hpal; intros H; inversion H; subst; cbn;
    (split; [congruence|auto; congruence]).
Qed.

(** Every path that sets [error] gives the caller NULL, the stream as it
    was before the call, and a heap with nothing of the call left in it. *)
Lemma error_paths_clean_up (sdl : SDL) (s : SDL_IOStream) (heap : Heap) (res : Result) :
  IMG_LoadPCX_IO sdl (Some s) heap = Some res ->
  error_set res <> None ->
  ret res = None /\ src_after res = Some s /\ heap_after res = heap.
Proof.
  unfold IMG_LoadPCX_IO, load_body.
  destruct (SDL_ReadIO s sizeof_PCXheader) as [got s1] eqn:R.
  assert (Hs1 : io_bytes s1 = io_bytes s).
  { change s1 with (snd (got, s1)). rewrite <- R. apply SDL_ReadIO_bytes. }
  destruct (negb (len got =? sizeof_PCXheader)).
  - intros H _. inversion H; subst res. unfold done. cbn.
    repeat split. f_equal. now apply seek_back.
  - destruct (load_after_header sdl (header_of_bytes got) s1 heap) as [d|] eqn:Ed;
      [|discriminate].
    intros H. inversion H; subst res. clear H.
    destruct (load_after_header_at_done _ _ _ _ _ Ed) as [Hb Hh].
    unfold done. destruct (d_error d) as [e|]; cbn [error_set]; [|congruence].
    intros _. cbn [ret src_after heap_after]. repeat split.
    + f_equal. apply seek_back. congruence.
    + rewrite Hh by discriminate.
      destruct (d_surface d); [|reflexivity]. destruct heap; reflexivity.
Qed.

(** The one path to [done] that leaves [error] unset although the call
    fails: [SDL_CreateSurface] returned NULL.  The caller gets NULL and the
    stream stays behind the header. *)
Lemma no_surface_leaves_cursor (sdl : SDL) (s : SDL_IOStream) (heap : Heap)
  (got : list byte) (s1 : SDL_IOStream) (bits : Z) (fmt : SDL_PixelFormat) :
  SDL_ReadIO s sizeof_PCXheader = (got, s1) ->
  len got = sizeof_PCXheader ->
  pcx_format (header_of_bytes got) = Some (bits, fmt) ->
  SDL_CreateSurface sdl
    (Xmax (header_of_bytes got) - Xmin (header_of_bytes got) + 1)
    (Ymax (header_of_bytes got) - Ymin (header_of_bytes got) + 1) fmt = None ->
  IMG_LoadPCX_IO sdl (Some s) heap = Some (mkResult None (Some s1) heap None) /\
  SDL_TellIO s1 = SDL_TellIO s + sizeof_PCXheader.
Proof.
  intros R L Hf Hs. split.
  - unfold IMG_LoadPCX_IO, load_body. rewrite R.
    apply Z.eqb_eq in L. rewrite L. cbn [negb].
    unfold load_after_header. rewrite Hf, Hs. reflexivity.
  - unfold SDL_ReadIO in R. inversion R; subst. unfold SDL_TellIO. cbn.
    rewrite length_app. unfold len in L. lia.
Qed.

(** C3, at the inputs where a failing call does not put the cursor back:
    when [SDL_CreateSurface] returns NULL (here for a negative width, and
    for a good image when no memory is left for surfaces) the loader goes
    to [done] with [error] unset, so the seek back to [start] is skipped:
    it returns NULL with the cursor 128 bytes past where the call began.
    The next failure in the source, [SDL_calloc] returning NULL, does set
    [error] and leaves the cursor at [start]. *)
Theorem surface_failure_leaves_cursor_moved :
  IMG_LoadPCX_IO sdl_usual (Some (stream_of negative_width_image)) empty_heap
  = Some (mkResult None
            (Some (mkIO (header_bytes 1 8 2 0 0 0 1 2 []) [x01; x02; x03; x04]))
            empty_heap None) /\
  IMG_LoadPCX_IO sdl_no_surface (Some (stream_of small_image)) empty_heap
  = Some (mkResult None
            (Some (mkIO (header_bytes 1 8 0 0 1 0 1 2 [])
                        ([x01; x02] ++ [x0c] ++ repeat x07 768)))
            empty_heap None) /\
  SDL_TellIO (stream_of small_image) = 0 /\
  SDL_TellIO (mkIO (header_bytes 1 8 0 0 1 0 1 2 []) ([x01; x02] ++ [x0c] ++ repeat x07 768))
  = 128 /\
  IMG_LoadPCX_IO (mkSDL (SDL_CreateSurface sdl_usual) (fun _ => false) None)
    (Some (stream_of small_image)) empty_heap
  = Some (mkResult None (Some (stream_of small_image)) empty_heap (Some OutOfMemory)).
Proof. repeat split; vm_compute; reflexivity. Qed.

(* ================================================================== *)
(** ** Bounds of the de-interlace step *)

Lemma load_ok {A : Type} (m : list A) (i : Z) :
  0 <= i < len m -> exists v, load m i = Ok v.
Proof.
  intros H. unfold load, in_bounds.
  replace (0 <=? i) with true by (symmetry; apply Z.leb_le; lia).
  replace (i <? len m) with true by (symmetry; apply Z.ltb_lt; lia).
  cbn [andb]. destruct (nth_error m (Z.to_nat i)) as [v|] eqn:E; [now exists v|].
  apply nth_error_None in E. unfold len in H. lia.
Qed.

Lemma store_ok {A : Type} (m : list A) (i : Z) (v : A) :
  0 <= i < len m -> exists m', store m i v = Ok m' /\ len m' = len m.
Proof.
  intros H. unfold store, in_bounds.
  replace (0 <=? i) with true by (symmetry; apply Z.leb_le; lia).
  replace (i <? len m) with true by (symmetry; apply Z.ltb_lt; lia).
  cbn [andb]. eexists. split; [reflexivity|].
  unfold len in *. rewrite length_app. cbn [length].
  rewrite length_firstn, length_skipn. lia.
Qed.

Section DeinterlacePlane.
Variables (pcxh : PCXheader) (width pitch_ bpl : Z) (buf : list byte) (innerSrc : Z).
Hypothesis planes_pos : 0 <= NPlanes pcxh.
Hypothesis buf_size : bpl <= len buf.

(** [n] turns from [x = i] all pass their tests when the last one does;
    they then stay inside [buf] and the row.  Otherwise the loop stops
    at the first test that fails, before the access it guards. *)
Lemma deinterlace_turns (n : nat) :
  forall i row dst,
    0 <= innerSrc + i -> 0 <= dst -> pitch_ <= len row ->
    (n = 0%nat \/
     (innerSrc + i + Z.of_nat n <= bpl /\
      dst + NPlanes pcxh * (Z.of_nat n - 1) < pitch_) ->
     exists row', for_up n i (deinterlace_turn pcxh pitch_ bpl buf innerSrc) (row, dst)
                  = Ok (row', dst + NPlanes pcxh * Z.of_nat n) /\
                  len row' = len row) /\
    (~ (n = 0%nat \/
        (innerSrc + i + Z.of_nat n <= bpl /\
         dst + NPlanes pcxh * (Z.of_nat n - 1) < pitch_)) ->
     for_up n i (deinterlace_turn pcxh pitch_ bpl buf innerSrc) (row, dst) = Err CorruptData).
Proof.
  induction n as [|n IH]; intros i row dst Hi Hd Hr.
  - split.
    + intros _. exists row. cbn [for_up]. split; [|reflexivity].
      do 2 f_equal. lia.
    + intros H. exfalso. apply H. now left.
  - cbn [for_up]. unfold deinterlace_turn at 1 3. cbv zeta.
    destruct ((innerSrc + i >=? bpl) || (dst >=? pitch_)) eqn:T.
    + split; [|reflexivity].
      intros [H|[H1 H2]]; [discriminate|]. exfalso.
      apply orb_true_iff in T. destruct T as [T|T]; apply Z.geb_le in T; nia.
    + apply orb_false_iff in T. destruct T as [T1 T2].
      rewrite Z.geb_leb in T1, T2. apply Z.leb_gt in T1, T2.
      destruct (load_ok buf (innerSrc + i)) as [v Hv]; [lia|].
      destruct (store_ok row dst v) as [row1 [Hs Hl]]; [lia|].
      rewrite Hv. cbn [step_bind]. rewrite Hs. cbn [step_bind].
      destruct (IH (i + 1) row1 (dst + NPlanes pcxh)) as [Hok Hbad]; try lia.
      split.
      * intros [H|[H1 H2]]; [discriminate|].
        destruct Hok as [row' [Hrow' Hlen]].
        { destruct n as [|n]; [now left|right]. split; [lia|nia]. }
        exists row'. split; [|congruence].
        rewrite Hrow'. do 2 f_equal. nia.
      * intros H. apply Hbad. intros [H1|[H1 H2]]; apply H; right.
        -- subst n. cbn. split; lia.
        -- split; [lia|nia].
Qed.

Lemma deinterlace_plane_turns (plane : Z) (row : list byte) :
  deinterlace_plane pcxh width pitch_ bpl buf innerSrc plane row
  = for_up (Z.to_nat width) 0 (deinterlace_turn pcxh pitch_ bpl buf innerSrc) (row, plane).
Proof. reflexivity. Qed.
End DeinterlacePlane.

(** One plane either completes inside its buffers, leaving the row with
    its length, or stops with the error; which of the two is decided by
    the tests of its last turn. *)
Lemma deinterlace_plane_cases (pcxh : PCXheader) (width pitch_ bpl : Z) (buf : list byte)
  (innerSrc plane : Z) (row : list byte) :
  0 <= NPlanes pcxh -> bpl <= len buf -> 0 <= innerSrc -> 0 <= plane -> pitch_ <= len row ->
  ((width <= 0 \/ (innerSrc + width <= bpl /\ plane + NPlanes pcxh * (width - 1) < pitch_)) /\
   exists row' dst, deinterlace_plane pcxh width pitch_ bpl buf innerSrc plane row
                    = Ok (row', dst) /\ len row' = len row) \/
  (~ (width <= 0 \/ (innerSrc + width <= bpl /\ plane + NPlanes pcxh * (width - 1) < pitch_)) /\
   deinterlace_plane pcxh width pitch_ bpl buf innerSrc plane row = Err CorruptData).
Proof.
  intros Hn Hb Hi Hp Hr.
  destruct (deinterlace_turns pcxh pitch_ bpl buf innerSrc Hn Hb (Z.to_nat width) 0 row plane)
    as [Hok Hbad]; try lia.
  rewrite (deinterlace_plane_turns pcxh width pitch_ bpl buf innerSrc plane row).
  destruct (Z_le_dec width 0) as [W|W].
  { left. split; [now left|].
    destruct Hok as [row' [E L]]; [left; lia|].
    exists row'. eexists. split; [exact E|exact L]. }
  destruct (Z_le_dec (innerSrc + width) bpl) as [C1|C1],
           (Z_lt_dec (plane + NPlanes pcxh * (width - 1)) pitch_) as [C2|C2].
  1: { left. split; [right; split; assumption|].
       destruct Hok as [row' [E L]].
       { right. rewrite Z2Nat.id by lia. split; lia. }
       exists row'. eexists. split; [exact E|exact L]. }
  all: right; split; [intros [?|[? ?]]; lia|];
       apply Hbad; rewrite Z2Nat.id by lia; intros [?|[? ?]]; lia.
Qed.

(** The de-interlace step of a three-plane row whose scratch buffer holds
    [3 * BytesPerLine] bytes and whose pixel row holds at least [pitch]
    bytes: it never leaves the two buffers; it completes when the row is
    empty or [width <= BytesPerLine] and [3 * width <= pitch], and it stops
    with the error in every other case. *)
Lemma deinterlace_bounds (pcxh : PCXheader) (width pitch_ : Z) (buf row : list byte) :
  NPlanes pcxh = 3 ->
  len buf = 3 * BytesPerLine pcxh ->
  pitch_ <= len row ->
  (width <= 0 \/ (width <= BytesPerLine pcxh /\ 3 * width <= pitch_) ->
   exists row', deinterlace pcxh width pitch_ (len buf) buf row = Ok row' /\
                len row' = len row) /\
  (~ (width <= 0 \/ (width <= BytesPerLine pcxh /\ 3 * width <= pitch_)) ->
   deinterlace pcxh width pitch_ (len buf) buf row = Err CorruptData).
Proof.
  intros Hn Hb Hr.
  assert (Hbpl : 0 <= BytesPerLine pcxh) by (unfold len in Hb; lia).
  assert (Hn0 : 0 <= NPlanes pcxh) by lia.
  assert (Hbb : len buf <= len buf) by lia.
  unfold deinterlace. rewrite Hn. change (Z.to_nat 3) with 3%nat.
  cbn [for_up].
  destruct (deinterlace_plane_cases pcxh width pitch_ (len buf) buf 0 0 row)
    as [[C0 [r0 [d0 [E0 L0]]]]|[C0 E0]]; try lia; rewrite E0; cbn [step_bind].
  2: { split; [intros H; exfalso; apply C0; lia|reflexivity]. }
  destruct (deinterlace_plane_cases pcxh width pitch_ (len buf) buf
              (0 + BytesPerLine pcxh) (0 + 1) r0)
    as [[C1 [r1 [d1 [E1 L1]]]]|[C1 E1]]; try lia; rewrite E1; cbn [step_bind].
  2: { split; [intros H; exfalso; apply C1; lia|reflexivity]. }
  destruct (deinterlace_plane_cases pcxh width pitch_ (len buf) buf
              (0 + BytesPerLine pcxh + BytesPerLine pcxh) (0 + 1 + 1) r1)
    as [[C2 [r2 [d2 [E2 L2]]]]|[C2 E2]]; try lia; rewrite E2; cbn [step_bind].
  2: { split; [intros H; exfalso; apply C2; lia|reflexivity]. }
  split; [|intros H; exfalso; apply H; lia].
  intros _. exists r2. split; [reflexivity|congruence].
Qed.

(* ================================================================== *)
(** ** No access outside the buffers in the three-plane layout *)

Lemma io_bind_post {A B : Type} (m : IO A) (k : A -> IO B) (Q : A -> Prop) (R : B -> Prop) :
  io_post m Q -> (forall x, Q x -> io_post (k x) R) -> io_post (io_bind m k) R.
Proof.
  intros Hm Hk s. unfold io_bind. specialize (Hm s).
  destruct (m s) as [[x|e|] s1]; cbn [fst] in *; [|exact I|contradiction].
  now apply Hk.
Qed.

Lemma io_ret_post {A : Type} (x : A) (Q : A -> Prop) : Q x -> io_post (io_ret x) Q.
Proof. intros H s. exact H. Qed.

Lemma io_post_weaken {A : Type} (m : IO A) (Q R : A -> Prop) :
  (forall x, Q x -> R x) -> io_post m Q -> io_post m R.
Proof.
  intros H Hm s. specialize (Hm s). destruct (fst (m s)); auto.
Qed.

Lemma read_byte_post : io_post read_byte (fun _ => True).
Proof. intros [before [|c [|c' rest]]]; exact I. Qed.

Lemma rle_byte_post (st : RunState) : io_post (rle_byte st) (fun _ => True).
Proof.
  unfold rle_byte, rle_refill.
  eapply io_bind_post with (Q := fun _ => True); [|intros; now apply io_ret_post].
  destruct (count st =? 0); [|now apply io_ret_post].
  eapply io_bind_post; [apply read_byte_post|]. intros c _.
  destruct (u8 c <? 0xc0); [now apply io_ret_post|].
  eapply io_bind_post; [apply read_byte_post|]. intros; now apply io_ret_post.
Qed.

Lemma rle_line_post (n : nat) :
  forall st, io_post (rle_line n st) (fun r => length (fst r) = n).
Proof.
  induction n as [|n IH]; intros st; cbn [rle_line]; [now apply io_ret_post|].
  eapply io_bind_post; [apply rle_byte_post|]. intros [c st1] _.
  eapply io_bind_post; [apply IH|]. intros [cs st2] H.
  apply io_ret_post. cbn in *. now rewrite H.
Qed.

Lemma raw_line_post (bpl : Z) : io_post (raw_line bpl) (fun buf => len buf = bpl).
Proof.
  intros s. unfold raw_line. destruct (SDL_ReadIO s bpl) as [got s1].
  destruct (len got =? bpl) eqn:E; cbn; [now apply Z.eqb_eq|exact I].
Qed.

(** A scan line that is read holds [bpl] bytes. *)
Lemma read_scanline_post (pcxh : PCXheader) (bpl : Z) (st : RunState) :
  0 <= bpl -> io_post (read_scanline pcxh bpl st) (fun r => len (fst r) = bpl).
Proof.
  intros Hb. unfold read_scanline. destruct (Encoding pcxh =? 0).
  - eapply io_bind_post; [apply raw_line_post|]. intros buf H. now apply io_ret_post.
  - eapply io_post_weaken; [|apply rle_line_post].
    intros [cs st1] H. cbn in *. unfold len. rewrite H. lia.
Qed.

Lemma deinterlace_no_fault (pcxh : PCXheader) (width pitch_ : Z) (buf row : list byte) :
  NPlanes pcxh = 3 -> len buf = 3 * BytesPerLine pcxh -> pitch_ <= len row ->
  deinterlace pcxh width pitch_ (len buf) buf row <> Fault.
Proof.
  intros Hn Hb Hr.
  destruct (deinterlace_bounds pcxh width pitch_ buf row Hn Hb Hr) as [Hok Hbad].
  destruct (Z_le_dec width 0) as [W|W].
  { destruct Hok as [row' [E _]]; [now left|]. rewrite E. discriminate. }
  destruct (Z_le_dec width (BytesPerLine pcxh)) as [C1|C1],
           (Z_le_dec (3 * width) pitch_) as [C2|C2].
  1: { destruct Hok as [row' [E _]]; [right; split; assumption|]. rewrite E. discriminate. }
  all: rewrite Hbad by (intros [?|[? ?]]; lia); discriminate.
Qed.

Lemma decode_rows_rgb24_post (pcxh : PCXheader) (width pitch_ : Z) (rows : list (list byte)) :
  NPlanes pcxh = 3 -> 0 <= BytesPerLine pcxh ->
  Forall (fun row => pitch_ <= len row) rows ->
  forall st,
    io_post (decode_rows pcxh width pitch_ (3 * BytesPerLine pcxh) 24 rows st) (fun _ => True).
Proof.
  intros Hn Hb Hrows. induction Hrows as [|row rest Hrow Hrest IH]; intros st;
    cbn [decode_rows]; [now apply io_ret_post|].
  eapply io_bind_post; [apply read_scanline_post; lia|]. intros [buf st1] Hbuf.
  cbn [fst] in Hbuf.
  eapply io_bind_post with (Q := fun _ => True).
  { intros s. unfold io_lift, reconstruct. cbn [fst Z.leb Z.eqb Z.compare Pos.compare
      Pos.compare_cont Pos.eqb].
    rewrite <- Hbuf.
    pose proof (deinterlace_no_fault pcxh width pitch_ buf row Hn Hbuf Hrow) as NF.
    destruct (deinterlace pcxh width pitch_ (len buf) buf row); [exact I|exact I|congruence]. }
  intros row' _. eapply io_bind_post; [apply IH|].
  intros [rest' st2] _. now apply io_ret_post.
Qed.

Lemma u8_range (c : byte) : 0 <= u8 c <= 255.
Proof.
  unfold u8. pose proof (Byte.to_N_bounded c) as H. lia.
Qed.

Lemma s16le_at_range (bs : list byte) (off : nat) : -32768 <= s16le_at bs off <= 32767.
Proof.
  unfold s16le_at, sint16, byte_at.
  pose proof (u8_range (nth off bs x00)). pose proof (u8_range (nth (S off) bs x00)).
  destruct (_ <? 32768) eqn:E; [apply Z.ltb_lt in E|apply Z.ltb_ge in E]; lia.
Qed.

Lemma to_size_t_small (v : Z) : 0 <= v < 2 ^ 64 -> to_size_t v = v.
Proof. intros H. unfold to_size_t. now apply Z.mod_small. Qed.

Lemma to_size_t_negative (v : Z) : - 2 ^ 63 <= v < 0 -> 2 ^ 63 <= to_size_t v.
Proof.
  intros H. unfold to_size_t.
  replace v with (v + 2 ^ 64 + (-1) * 2 ^ 64) by lia.
  rewrite Z.mod_add by lia. rewrite Z.mod_small; lia.
Qed.

Lemma pcx_format_rgb24 (pcxh : PCXheader) :
  BitsPerPixel pcxh = 8 -> NPlanes pcxh = 3 ->
  pcx_format pcxh = Some (24, SDL_PIXELFORMAT_RGB24).
Proof. intros Hb Hn. unfold pcx_format. rewrite Hb, Hn. reflexivity. Qed.

Lemma new_surface_rows (fmt : SDL_PixelFormat) (width height pitch_ : Z) :
  Forall (fun row => pitch_ <= len row) (pixels (new_surface fmt width height pitch_)).
Proof.
  cbn [new_surface pixels]. apply Forall_forall. intros row Hin.
  apply repeat_spec in Hin. subst row. unfold len. rewrite repeat_length. lia.
Qed.

Lemma load_after_header_rgb24 (sdl : SDL) (pcxh : PCXheader) (s1 : SDL_IOStream) (heap : Heap) :
  BitsPerPixel pcxh = 8 -> NPlanes pcxh = 3 ->
  load_after_header sdl pcxh s1 heap
  = match SDL_CreateSurface sdl (Xmax pcxh - Xmin pcxh + 1) (Ymax pcxh - Ymin pcxh + 1)
            SDL_PIXELFORMAT_RGB24 with
    | None => Some (mkAtDone None false None s1 heap)
    | Some pitch_ =>
        let width := Xmax pcxh - Xmin pcxh + 1 in
        let height := Ymax pcxh - Ymin pcxh + 1 in
        let surface := new_surface SDL_PIXELFORMAT_RGB24 width height pitch_ in
        let heap1 := mkHeap (S (live_surfaces heap)) (live_buffers heap) in
        let bpl := to_size_t (3 * BytesPerLine pcxh) in
        if negb (SDL_calloc sdl bpl) then
          Some (mkAtDone (Some surface) false (Some OutOfMemory) s1 heap1)
        else
          let heap2 := mkHeap (live_surfaces heap1) (S (live_buffers heap1)) in
          match decode_rows pcxh width pitch_ bpl 24 (pixels surface) run_init s1 with
          | (Fault, _) => None
          | (Err e, s2) => Some (mkAtDone (Some surface) true (Some e) s2 heap2)
          | (Ok (rows, _), s2) =>
              Some (mkAtDone (Some (mkSurface SDL_PIXELFORMAT_RGB24 width height pitch_ rows None))
                      true None s2 heap2)
          end
    end.
Proof.
  intros Hb Hn. unfold load_after_header.
  rewrite (pcx_format_rgb24 pcxh Hb Hn), Hb, Hn.
  change (8 * 3) with 24. change (24 =? 8) with false. cbv iota.
  reflexivity.
Qed.

(** With a three-plane header the whole call stays inside the buffers it
    owns, provided [SDL_calloc] refuses requests of 2^63 bytes and more
    (which is what a negative [BytesPerLine] turns into). *)
Lemma rgb24_load_never_faults (sdl : SDL) (pcxh : PCXheader) (s1 : SDL_IOStream) (heap : Heap) :
  BitsPerPixel pcxh = 8 -> NPlanes pcxh = 3 ->
  -32768 <= BytesPerLine pcxh <= 32767 ->
  (forall n, SDL_calloc sdl n = true -> n < 2 ^ 63) ->
  load_after_header sdl pcxh s1 heap <> None.
Proof.
  intros Hb Hn Hr Hc. rewrite load_after_header_rgb24 by assumption.
  destruct (SDL_CreateSurface sdl _ _ _) as [pitch_|]; [|discriminate].
  cbv zeta.
  destruct (SDL_calloc sdl (to_size_t (3 * BytesPerLine pcxh))) eqn:C; cbn [negb];
    [|discriminate].
  apply Hc in C.
  assert (Hpos : 0 <= BytesPerLine pcxh).
  { destruct (Z_le_dec 0 (BytesPerLine pcxh)) as [?|N]; [assumption|].
    pose proof (to_size_t_negative (3 * BytesPerLine pcxh)). lia. }
  rewrite to_size_t_small by lia.
  pose proof (decode_rows_rgb24_post pcxh (Xmax pcxh - Xmin pcxh + 1) pitch_ _ Hn Hpos
                (new_surface_rows SDL_PIXELFORMAT_RGB24 (Xmax pcxh - Xmin pcxh + 1)
                   (Ymax pcxh - Ymin pcxh + 1) pitch_) run_init s1) as Hpost.
  destruct (decode_rows _ _ _ _ _ _ _ _) as [[[rows st]|e|] s2]; cbn [fst] in Hpost;
    [discriminate|discriminate|contradiction].
Qed.

(** When the first row of a three-plane image has been read and
    [BytesPerLine < width] or [pitch < 3 * width], the loader ends with the
    error of the bounds test. *)
Lemma rgb24_load_corrupt (sdl : SDL) (pcxh : PCXheader) (s1 : SDL_IOStream) (heap : Heap)
  (pitch_ : Z) (buf : list byte) (st1 : RunState) (s2 : SDL_IOStream) :
  BitsPerPixel pcxh = 8 -> NPlanes pcxh = 3 ->
  0 <= BytesPerLine pcxh <= 32767 ->
  SDL_CreateSurface sdl (Xmax pcxh - Xmin pcxh + 1) (Ymax pcxh - Ymin pcxh + 1)
    SDL_PIXELFORMAT_RGB24 = Some pitch_ ->
  SDL_calloc sdl (3 * BytesPerLine pcxh) = true ->
  1 <= Ymax pcxh - Ymin pcxh + 1 ->
  1 <= Xmax pcxh - Xmin pcxh + 1 ->
  (BytesPerLine pcxh < Xmax pcxh - Xmin pcxh + 1 \/ pitch_ < 3 * (Xmax pcxh - Xmin pcxh + 1)) ->
  read_scanline pcxh (3 * BytesPerLine pcxh) run_init s1 = (Ok (buf, st1), s2) ->
  exists d, load_after_header sdl pcxh s1 heap = Some d /\ d_error d = Some CorruptData.
Proof.
  intros Hb Hn Hr Hs Hc Hh Hw Hbad Hline.
  rewrite load_after_header_rgb24 by assumption. rewrite Hs. cbv zeta.
  rewrite to_size_t_small by lia. rewrite Hc. cbn [negb].
  cbn [new_surface pixels].
  destruct (Z.to_nat (Ymax pcxh - Ymin pcxh + 1)) as [|hn] eqn:Eh; [lia|].
  cbn [repeat decode_rows]. unfold io_bind at 1. rewrite Hline.
  pose proof (read_scanline_post pcxh (3 * BytesPerLine pcxh) run_init ltac:(lia) s1) as Hlen.
  rewrite Hline in Hlen. cbn [fst] in Hlen.
  unfold io_bind at 1. unfold io_lift at 1. unfold reconstruct.
  change (24 <=? 4) with false. change (24 =? 8) with false. change (24 =? 24) with true.
  cbv iota. rewrite <- Hlen.
  destruct (deinterlace_bounds pcxh (Xmax pcxh - Xmin pcxh + 1) pitch_ buf
              (repeat x00 (Z.to_nat pitch_)) Hn Hlen) as [_ Herr].
  { unfold len. rewrite repeat_length. lia. }
  rewrite Herr by (intros [?|[? ?]]; lia).
  eexists. split; reflexivity.
Qed.

Lemma load_result_with_error (sdl : SDL) (s : SDL_IOStream) (heap : Heap)
  (got : list byte) (s1 : SDL_IOStream) (d : AtDone) (e : string) :
  SDL_ReadIO s sizeof_PCXheader = (got, s1) ->
  len got = sizeof_PCXheader ->
  load_after_header sdl (header_of_bytes got) s1 heap = Some d ->
  d_error d = Some e ->
  IMG_LoadPCX_IO sdl (Some s) heap = Some (mkResult None (Some s) heap (Some e)).
Proof.
  intros R L Hd He.
  assert (Hres : IMG_LoadPCX_IO sdl (Some s) heap = Some (done (SDL_TellIO s) d)).
  { unfold IMG_LoadPCX_IO, load_body. rewrite R. apply Z.eqb_eq in L. rewrite L.
    cbn [negb]. now rewrite Hd. }
  assert (Herr : error_set (done (SDL_TellIO s) d) = Some e).
  { unfold done. rewrite He. reflexivity. }
  destruct (error_paths_clean_up sdl s heap _ Hres) as [H1 [H2 H3]]; [congruence|].
  rewrite Hres. destruct (done (SDL_TellIO s) d) as [r0 s0 h0 e0].
  cbn in *. congruence.
Qed.

(** C4: for a header of the three-plane layout (8 bits per pixel, 3
    planes), with [SDL_calloc] refusing sizes of 2^63 and more:
    - the de-interlace step of a row, given the [3 * BytesPerLine] bytes of
      the scan line and a pixel row of at least [pitch] bytes, never reads
      outside the former nor writes outside the latter; it completes when
      [width <= 0], or [width <= BytesPerLine] and [3 * width <= pitch],
      and otherwise stops with "decoding out of bounds (corrupt?)";
    - the whole call never makes an access outside its buffers;
    - if the first scan line can be read and [BytesPerLine < width] or
      [pitch < 3 * width], the call fails with that error, returns NULL, and
      leaves the stream and the heap as they were. *)
Theorem deinterlace_is_bounds_checked (sdl : SDL) (s : SDL_IOStream) (heap : Heap)
  (got : list byte) (s1 : SDL_IOStream) :
  SDL_ReadIO s sizeof_PCXheader = (got, s1) ->
  len got = sizeof_PCXheader ->
  BitsPerPixel (header_of_bytes got) = 8 ->
  NPlanes (header_of_bytes got) = 3 ->
  (forall n, SDL_calloc sdl n = true -> n < 2 ^ 63) ->
  let pcxh := header_of_bytes got in
  let width := Xmax pcxh - Xmin pcxh + 1 in
  let height := Ymax pcxh - Ymin pcxh + 1 in
  (forall pitch_ buf row,
     len buf = 3 * BytesPerLine pcxh -> pitch_ <= len row ->
     deinterlace pcxh width pitch_ (len buf) buf row <> Fault /\
     (width <= 0 \/ (width <= BytesPerLine pcxh /\ 3 * width <= pitch_) ->
      exists row', deinterlace pcxh width pitch_ (len buf) buf row = Ok row' /\
                   len row' = len row) /\
     (~ (width <= 0 \/ (width <= BytesPerLine pcxh /\ 3 * width <= pitch_)) ->
      deinterlace pcxh width pitch_ (len buf) buf row = Err CorruptData)) /\
  IMG_LoadPCX_IO sdl (Some s) heap <> None /\
  (forall pitch_ buf st1 s2,
     SDL_CreateSurface sdl width height SDL_PIXELFORMAT_RGB24 = Some pitch_ ->
     0 <= BytesPerLine pcxh ->
     SDL_calloc sdl (3 * BytesPerLine pcxh) = true ->
     1 <= height -> 1 <= width ->
     BytesPerLine pcxh < width \/ pitch_ < 3 * width ->
     read_scanline pcxh (3 * BytesPerLine pcxh) run_init s1 = (Ok (buf, st1), s2) ->
     IMG_LoadPCX_IO sdl (Some s) heap
     = Some (mkResult None (Some s) heap (Some CorruptData))).
Proof.
  intros R L Hb Hn Hc pcxh width height.
  assert (Hr : -32768 <= BytesPerLine pcxh <= 32767) by apply s16le_at_range.
  split; [|split].
  - intros pitch_ buf row Hbuf Hrow. split.
    + now apply deinterlace_no_fault.
    + now apply deinterlace_bounds.
  - unfold IMG_LoadPCX_IO, load_body. rewrite R.
    apply Z.eqb_eq in L. rewrite L. cbn [negb].
    pose proof (rgb24_load_never_faults sdl pcxh s1 heap Hb Hn Hr Hc) as NF.
    fold pcxh. destruct (load_after_header sdl pcxh s1 heap); [discriminate|contradiction].
  - intros pitch_ buf st1 s2 Hs Hpos Hcal Hh Hw Hbad Hline.
    destruct (rgb24_load_corrupt sdl pcxh s1 heap pitch_ buf st1 s2) as [d [Hd He]];
      try assumption; [lia|].
    eapply load_result_with_error; eassumption.
Qed.

Lemma deinterlace_is_bounds_checked_witness :
  IMG_LoadPCX_IO sdl_usual (Some (stream_of short_planes_image)) empty_heap
  = Some (mkResult None (Some (stream_of short_planes_image)) empty_heap (Some CorruptData)).
Proof.
  assert (Hc : forall n, SDL_calloc sdl_usual n = true -> n < 2 ^ 63).
  { intros n H. cbn in H. apply Z.ltb_lt in H. lia. }
  refine (proj2 (proj2 (deinterlace_is_bounds_checked sdl_usual
            (stream_of short_planes_image) empty_heap
            (header_bytes 0 8 0 0 1 0 3 1 [])
            (mkIO (header_bytes 0 8 0 0 1 0 3 1 []) [x01; x02; x03; x04])
            _ _ _ _ Hc))
          8 [x01; x02; x03] run_init
          (mkIO (header_bytes 0 8 0 0 1 0 3 1 [] ++ [x01; x02; x03]) [x04])
          _ _ _ _ _ _ _);
    try (vm_compute; reflexivity); try (vm_compute; discriminate).
  left. vm_compute. reflexivity.
Defined.

(** A three-plane image of 2 by 1 pixels with two bytes per plane line is
    de-interlaced into R G B triples. *)
Example rgb24_image :
  option_map (fun res => (option_map pixels (ret res), error_set res))
    (IMG_LoadPCX_IO sdl_usual
       (Some (stream_of (header_bytes 0 8 0 0 1 0 3 2 [] ++ [x01; x02; x03; x04; x05; x06])))
       empty_heap)
  = Some (Some [[x01; x03; x05; x02; x04; x06; x00; x00]], None).
Proof. vm_compute. reflexivity. Qed.

(* ================================================================== *)
(** ** Bit planes *)

(** What the loop makes of one plane byte for every width from 1 to 8:
    the pixels are the [width] rightmost bits of the byte (bits
    [width - 1] down to 0), where the columns of the row are its [width]
    leftmost bits (bits 7 down to [8 - width]). *)
Lemma expand_one_byte (c : byte) (width : nat) :
  (1 <= width <= 8)%nat ->
  expand_planes one_plane_header (Z.of_nat width) [c] (repeat x00 8)
  = Ok (map (fun col => bit_of c (width - 1 - col)) (seq 0 width) ++ repeat x00 (8 - width)).
Proof.
  intros H.
  do 9 (destruct width as [|width]; [try lia; destruct c; vm_compute; reflexivity|]).
  lia.
Qed.

(** C5, at the inputs where the expansion departs from the column rule.
    The test that is to skip the padding bits compares [j * 8 + k] with
    [width], where [k] is the number of the bit inside its byte (7 for the
    leftmost), not the column [j * 8 + (7 - k)] the bit stands for.  In the byte that holds
    the last columns of a row whose width is no multiple of 8, the loop
    therefore drops the leftmost bits and stores the rightmost ones.
    - Two planes, plane bytes 0x80 and 0x80, width 1: pixel 0 is to be 3;
      the loop stores bit 0 of each byte, and pixel 0 is 0.
    - One plane byte 0xA0 (columns 1 0 1 0 0 0 0 0), width 3: the pixels
      are to be 1 0 1; they are 0 0 0.  The byte 0x05 gives 1 0 1.
    - With width 8 no bit is padding and pixel 0 is 3. *)
Theorem padding_test_takes_bit_number_for_column :
  expand_planes (header_of_bytes (two_plane_header 0)) 1 [x80; x80] [x00; x00; x00; x00]
  = Ok [x00; x00; x00; x00] /\
  option_map (fun res => (option_map pixels (ret res), error_set res))
    (IMG_LoadPCX_IO sdl_usual (Some (stream_of (two_plane_image 0))) empty_heap)
  = Some (Some [[x00; x00; x00; x00]], None) /\
  expand_planes (header_of_bytes (header_bytes 0 1 0 0 2 0 1 1 [])) 3 [xa0] [x00; x00; x00; x00]
  = Ok [x00; x00; x00; x00] /\
  expand_planes (header_of_bytes (header_bytes 0 1 0 0 2 0 1 1 [])) 3 [x05] [x00; x00; x00; x00]
  = Ok [x01; x00; x01; x00] /\
  option_map (fun res => (option_map pixels (ret res), error_set res))
    (IMG_LoadPCX_IO sdl_usual (Some (stream_of (two_plane_image 7))) empty_heap)
  = Some (Some [[x03; x00; x00; x00; x00; x00; x00; x00]], None).
Proof. repeat split; vm_compute; reflexivity. Qed.

(* ================================================================== *)
(** ** The 256-colour palette *)

Lemma u8_is_12 (c : byte) : (u8 c =? 12) = true <-> c = x0c.
Proof.
  split.
  - destruct c; vm_compute; intros H; (reflexivity || discriminate H).
  - intros ->. reflexivity.
Qed.

Lemma u8_not_12 (c : byte) : c <> x0c -> (u8 c =? 12) = false.
Proof.
  intros H. destruct (u8 c =? 12) eqn:E; [|reflexivity].
  apply u8_is_12 in E. contradiction.
Qed.

(** The marker is found: the loop stops right behind its first occurrence. *)
Lemma look_for_palette_found (pre : list byte) :
  forall before post,
    ~ In x0c pre ->
    look_for_palette before (pre ++ x0c :: post) = mkIO (before ++ pre ++ [x0c]) post.
Proof.
  induction pre as [|c pre IH]; intros before post Hpre; cbn [app look_for_palette].
  - reflexivity.
  - rewrite u8_not_12 by (intros ->; apply Hpre; now left).
    rewrite IH by (intros H; apply Hpre; now right).
    now rewrite <- app_assoc.
Qed.

(** No marker in what is left: the stream is sought to 768 bytes before its
    end. *)
Lemma look_for_palette_missing (after : list byte) :
  forall before,
    ~ In x0c after ->
    look_for_palette before after
    = SDL_SeekIO (mkIO (before ++ after) []) (-768) SDL_IO_SEEK_END.
Proof.
  induction after as [|c after IH]; intros before Hn; cbn [look_for_palette].
  - now rewrite app_nil_r.
  - rewrite u8_not_12 by (intros ->; apply Hn; now left).
    rewrite IH by (intros H; apply Hn; now right).
    now rewrite <- app_assoc.
Qed.

Lemma read_colormap_found (s : SDL_IOStream) (pre post : list byte) :
  io_after s = pre ++ x0c :: post -> ~ In x0c pre ->
  (768 <= len post ->
   read_colormap s
   = (Ok (firstn 768 post),
      mkIO (io_before s ++ pre ++ [x0c] ++ firstn 768 post) (skipn 768 post))) /\
  (len post < 768 -> fst (read_colormap s) = Err Truncated).
Proof.
  intros Ha Hpre. unfold read_colormap. rewrite Ha, look_for_palette_found by assumption.
  unfold SDL_ReadIO. cbn [io_after io_before]. change (Z.to_nat 768) with 768%nat.
  unfold len. rewrite length_firstn. split; intros H.
  - replace (Z.of_nat (Nat.min 768 (length post)) =? 768) with true
      by (symmetry; apply Z.eqb_eq; lia).
    now rewrite <- !app_assoc.
  - replace (Z.of_nat (Nat.min 768 (length post)) =? 768) with false
      by (symmetry; apply Z.eqb_neq; lia).
    reflexivity.
Qed.

Lemma read_colormap_missing (s : SDL_IOStream) :
  ~ In x0c (io_after s) ->
  (768 <= io_size s ->
   read_colormap s
   = (Ok (skipn (Z.to_nat (io_size s - 768)) (io_bytes s)), mkIO (io_bytes s) [])) /\
  (io_size s < 768 -> fst (read_colormap s) = Err Truncated).
Proof.
  intros Hn. unfold read_colormap. rewrite look_for_palette_missing by assumption.
  fold (io_bytes s). unfold SDL_SeekIO, io_size.
  replace (io_bytes (mkIO (io_bytes s) [])) with (io_bytes s)
    by (unfold io_bytes at 2; cbn; now rewrite app_nil_r).
  unfold io_at, SDL_ReadIO. cbn [io_after io_before].
  change (Z.to_nat 768) with 768%nat.
  set (bytes := io_bytes s). set (k := Z.to_nat (Z.of_nat (length bytes) + -768)).
  unfold len. rewrite length_firstn, length_skipn. split; intros H.
  - replace (Z.to_nat (Z.of_nat (length bytes) - 768)) with k by lia.
    replace (Z.of_nat (Nat.min 768 (length bytes - k)) =? 768) with true
      by (symmetry; apply Z.eqb_eq; lia).
    rewrite firstn_all2 by (rewrite length_skipn; lia).
    rewrite (skipn_all2 (n := 768) (skipn k bytes)) by (rewrite length_skipn; lia).
    now rewrite firstn_skipn.
  - replace (Z.of_nat (Nat.min 768 (length bytes - k)) =? 768) with false
      by (symmetry; apply Z.eqb_neq; lia).
    reflexivity.
Qed.

Lemma load_nth {A : Type} (m : list A) (i : Z) (d : A) :
  0 <= i < len m -> load m i = Ok (nth (Z.to_nat i) m d).
Proof.
  intros H. unfold load, in_bounds.
  replace (0 <=? i) with true by (symmetry; apply Z.leb_le; lia).
  replace (i <? len m) with true by (symmetry; apply Z.ltb_lt; lia).
  cbn [andb]. unfold len in H.
  rewrite (nth_error_nth' m d) by lia. reflexivity.
Qed.

Lemma store_nth {A : Type} (m : list A) (i : Z) (v d : A) :
  0 <= i < len m ->
  exists m', store m i v = Ok m' /\ len m' = len m /\
             nth (Z.to_nat i) m' d = v /\
             (forall j, j <> Z.to_nat i -> nth j m' d = nth j m d).
Proof.
  intros H. unfold store, in_bounds.
  replace (0 <=? i) with true by (symmetry; apply Z.leb_le; lia).
  replace (i <? len m) with true by (symmetry; apply Z.ltb_lt; lia).
  cbn [andb]. eexists. split; [reflexivity|].
  unfold len in *. set (k := Z.to_nat i). assert (Hk : (k < length m)%nat) by lia.
  assert (Lf : length (firstn k m) = k) by (rewrite length_firstn; lia).
  split; [|split].
  - rewrite length_app. cbn [length]. rewrite Lf, length_skipn. lia.
  - rewrite app_nth2 by lia. rewrite Lf, Nat.sub_diag. reflexivity.
  - intros j Hj. destruct (Nat.lt_ge_cases j k) as [Hlt|Hge].
    + rewrite app_nth1 by lia. now rewrite nth_firstn, (proj2 (Nat.ltb_lt j k) Hlt).
    + rewrite app_nth2 by lia. rewrite Lf.
      destruct (j - k)%nat as [|q] eqn:Eq; [lia|]. cbn [nth].
      rewrite nth_skipn. f_equal. lia.
Qed.

Section SetColors.
Variable cmap : list byte.

Lemma set_colors_turns (n : nat) :
  forall i cols,
    0 <= i -> i + Z.of_nat n <= len cols -> 3 * (i + Z.of_nat n) <= len cmap ->
    exists cols',
      for_up n i (set_color cmap) cols = Ok cols' /\ len cols' = len cols /\
      forall j,
        (i <= Z.of_nat j < i + Z.of_nat n ->
         nth j cols' white = triple_at cmap j (nth j cols white)) /\
        (~ (i <= Z.of_nat j < i + Z.of_nat n) -> nth j cols' white = nth j cols white).
Proof.
  induction n as [|n IH]; intros i cols Hi Hc Hm.
  - exists cols. split; [reflexivity|]. split; [reflexivity|].
    intros j. split; [lia|reflexivity].
  - cbn [for_up]. unfold set_color at 1.
    rewrite (load_nth cols i white) by lia. cbn [step_bind].
    rewrite (load_nth cmap (i * 3 + 0) x00) by lia. cbn [step_bind].
    rewrite (load_nth cmap (i * 3 + 1) x00) by lia. cbn [step_bind].
    rewrite (load_nth cmap (i * 3 + 2) x00) by lia. cbn [step_bind].
    destruct (store_nth cols i
                (mkColor (nth (Z.to_nat (i * 3 + 0)) cmap x00)
                         (nth (Z.to_nat (i * 3 + 1)) cmap x00)
                         (nth (Z.to_nat (i * 3 + 2)) cmap x00)
                         (a (nth (Z.to_nat i) cols white))) white)
      as [cols1 [Hs [Hl [Hat Hother]]]]; [lia|].
    rewrite Hs.
    destruct (IH (i + 1) cols1) as [cols' [Hrun [Hlen Hnth]]]; try lia.
    exists cols'. split; [exact Hrun|]. split; [congruence|].
    intros j. destruct (Hnth j) as [Hin Hout]. split; intros Hj.
    + destruct (Nat.eq_dec j (Z.to_nat i)) as [->|Hne].
      * rewrite Hout by lia. rewrite Hat. unfold triple_at.
        replace (Z.to_nat (i * 3 + 0)) with (Z.to_nat i * 3 + 0)%nat by lia.
        replace (Z.to_nat (i * 3 + 1)) with (Z.to_nat i * 3 + 1)%nat by lia.
        replace (Z.to_nat (i * 3 + 2)) with (Z.to_nat i * 3 + 2)%nat by lia.
        reflexivity.
      * rewrite Hin by lia. now rewrite Hother.
    + rewrite Hout by lia. apply Hother. lia.
Qed.

(** 768 bytes fill the 256 entries of a palette, three bytes an entry,
    in order. *)
Lemma set_colors_256 (cols : list SDL_Color) :
  len cmap = 768 -> 256 <= len cols ->
  exists cols',
    set_colors 256 cmap cols = Ok cols' /\ len cols' = len cols /\
    forall j, (j < 256)%nat -> nth j cols' white = triple_at cmap j (nth j cols white).
Proof.
  intros Hm Hc.
  destruct (set_colors_turns 256 0 cols) as [cols' [Hrun [Hlen Hnth]]]; try lia.
  exists cols'. split; [exact Hrun|]. split; [exact Hlen|].
  intros j Hj. apply (Hnth j). lia.
Qed.
End SetColors.

Lemma read_colormap_length (s s3 : SDL_IOStream) (cm : list byte) :
  read_colormap s = (Ok cm, s3) -> len cm = 768.
Proof.
  unfold read_colormap. destruct (SDL_ReadIO _ 768) as [colormap s2].
  destruct (len colormap =? 768) eqn:E; intros H; inversion H; subst.
  now apply Z.eqb_eq.
Qed.

Lemma pcx_format_indexed8 (pcxh : PCXheader) :
  BitsPerPixel pcxh = 8 -> NPlanes pcxh = 1 ->
  pcx_format pcxh = Some (8, SDL_PIXELFORMAT_INDEX8).
Proof. intros Hb Hn. unfold pcx_format. rewrite Hb, Hn. reflexivity. Qed.

(** The loader on an 8-bit single-plane header, from the point where all
    rows have been decoded. *)
Lemma load_after_header_indexed8 (sdl : SDL) (pcxh : PCXheader) (s1 : SDL_IOStream)
  (heap : Heap) (pitch_ : Z) (rows : list (list byte)) (st : RunState) (s2 : SDL_IOStream)
  (cols : list SDL_Color) :
  BitsPerPixel pcxh = 8 -> NPlanes pcxh = 1 ->
  SDL_CreateSurface sdl (Xmax pcxh - Xmin pcxh + 1) (Ymax pcxh - Ymin pcxh + 1)
    SDL_PIXELFORMAT_INDEX8 = Some pitch_ ->
  SDL_calloc sdl (to_size_t (1 * BytesPerLine pcxh)) = true ->
  decode_rows pcxh (Xmax pcxh - Xmin pcxh + 1) pitch_ (to_size_t (1 * BytesPerLine pcxh)) 8
    (pixels (new_surface SDL_PIXELFORMAT_INDEX8 (Xmax pcxh - Xmin pcxh + 1)
               (Ymax pcxh - Ymin pcxh + 1) pitch_)) run_init s1
  = (Ok (rows, st), s2) ->
  SDL_CreateSurfacePalette sdl = Some cols ->
  len cols = 256 ->
  load_after_header sdl pcxh s1 heap
  = let width := Xmax pcxh - Xmin pcxh + 1 in
    let height := Ymax pcxh - Ymin pcxh + 1 in
    let heap2 := mkHeap (S (live_surfaces heap)) (S (live_buffers heap)) in
    match read_colormap s2 with
    | (Ok colormap, s3) =>
        match set_colors 256 colormap cols with
        | Ok cols' =>
            Some (mkAtDone
                    (Some (mkSurface SDL_PIXELFORMAT_INDEX8 width height pitch_ rows
                             (Some (mkPalette 256 cols'))))
                    true None s3 heap2)
        | Err e =>
            Some (mkAtDone
                    (Some (mkSurface SDL_PIXELFORMAT_INDEX8 width height pitch_ rows None))
                    true (Some e) s3 heap2)
        | Fault => None
        end
    | (Err e, s3) =>
        Some (mkAtDone
                (Some (mkSurface SDL_PIXELFORMAT_INDEX8 width height pitch_ rows None))
                true (Some e) s3 heap2)
    | (Fault, _) => None
    end.
Proof.
  intros Hb Hn Hs Hc Hrows Hp Hl. unfold load_after_header.
  rewrite (pcx_format_indexed8 pcxh Hb Hn), Hb, Hn, Hs, Hc.
  change (8 * 1) with 8. cbn [negb]. rewrite Hrows.
  change (8 =? 8) with true. cbv iota. rewrite Hp.
  unfold fill_palette. change (8 =? 8) with true. cbv iota.
  rewrite Hl. change (Z.shiftl 1 8 >? 256) with false. cbv iota.
  change (Z.shiftl 1 8) with 256.
  unfold io_bind, io_lift, io_ret. cbv zeta.
  destruct (read_colormap s2) as [[cm|e|] s3]; try reflexivity.
  destruct (set_colors 256 cm cols); reflexivity.
Qed.

(** C7: an 8-bit single-plane image whose rows have all been decoded,
    leaving the stream at [s2], with a palette of 256 entries at hand.
    - If the marker byte 12 occurs in what is left of the stream, the 768
      bytes behind its first occurrence are read; fewer than 768 bytes
      there is the error "file truncated".
    - If it does not occur, the 768 bytes read are the last 768 bytes of
      the stream; a stream shorter than that is the error "file truncated".
    - When the read fails the call returns NULL with that error and the
      stream as it was before the call.
    - When it succeeds the call returns the surface, and entry [j] of its
      palette, for each [j] below 256, holds bytes [3 j], [3 j + 1] and
      [3 j + 2] of the 768 as its red, green and blue. *)
Theorem palette_of_256_colours (sdl : SDL) (s : SDL_IOStream) (heap : Heap)
  (got : list byte) (s1 : SDL_IOStream) (pitch_ : Z) (rows : list (list byte))
  (st : RunState) (s2 : SDL_IOStream) (cols : list SDL_Color) :
  let pcxh := header_of_bytes got in
  let width := Xmax pcxh - Xmin pcxh + 1 in
  let height := Ymax pcxh - Ymin pcxh + 1 in
  let bpl := to_size_t (1 * BytesPerLine pcxh) in
  SDL_ReadIO s sizeof_PCXheader = (got, s1) ->
  len got = sizeof_PCXheader ->
  BitsPerPixel pcxh = 8 -> NPlanes pcxh = 1 ->
  SDL_CreateSurface sdl width height SDL_PIXELFORMAT_INDEX8 = Some pitch_ ->
  SDL_calloc sdl bpl = true ->
  decode_rows pcxh width pitch_ bpl 8
    (pixels (new_surface SDL_PIXELFORMAT_INDEX8 width height pitch_)) run_init s1
  = (Ok (rows, st), s2) ->
  SDL_CreateSurfacePalette sdl = Some cols ->
  len cols = 256 ->
  (forall pre post,
     io_after s2 = pre ++ x0c :: post -> ~ In x0c pre ->
     (768 <= len post ->
      read_colormap s2
      = (Ok (firstn 768 post),
         mkIO (io_before s2 ++ pre ++ [x0c] ++ firstn 768 post) (skipn 768 post))) /\
     (len post < 768 -> fst (read_colormap s2) = Err Truncated)) /\
  (~ In x0c (io_after s2) ->
   (768 <= io_size s2 ->
    read_colormap s2
    = (Ok (skipn (Z.to_nat (io_size s2 - 768)) (io_bytes s2)), mkIO (io_bytes s2) [])) /\
   (io_size s2 < 768 -> fst (read_colormap s2) = Err Truncated)) /\
  (fst (read_colormap s2) = Err Truncated ->
   IMG_LoadPCX_IO sdl (Some s) heap = Some (mkResult None (Some s) heap (Some Truncated))) /\
  (forall colormap s3,
     read_colormap s2 = (Ok colormap, s3) ->
     exists cols',
       IMG_LoadPCX_IO sdl (Some s) heap
       = Some (mkResult
                 (Some (mkSurface SDL_PIXELFORMAT_INDEX8 width height pitch_ rows
                          (Some (mkPalette 256 cols'))))
                 (Some s3)
                 (mkHeap (S (live_surfaces heap)) (live_buffers heap))
                 None) /\
       len cols' = 256 /\
       forall j, (j < 256)%nat ->
                 nth j cols' white = triple_at colormap j (nth j cols white)).
Proof.
  intros pcxh width height bpl R L Hb Hn Hs Hc Hrows Hp Hl.
  pose proof (load_after_header_indexed8 sdl pcxh s1 heap pitch_ rows st s2 cols
                Hb Hn Hs Hc Hrows Hp Hl) as Hload.
  cbv zeta in Hload. fold width height in Hload.
  split; [|split; [|split]].
  - intros pre post. apply read_colormap_found.
  - apply read_colormap_missing.
  - intros Hfail.
    destruct (read_colormap s2) as [[cm|e|] s3]; cbn [fst] in Hfail; try discriminate.
    inversion Hfail; subst e.
    eapply load_result_with_error; [exact R|exact L|exact Hload|reflexivity].
  - intros cm s3 Hread. rewrite Hread in Hload.
    destruct (set_colors_256 cm cols) as [cols' [Hset [Hlen Hnth]]];
      [eapply read_colormap_length, Hread|lia|].
    rewrite Hset in Hload. exists cols'. split; [|split; [congruence|exact Hnth]].
    unfold IMG_LoadPCX_IO, load_body. rewrite R.
    apply Z.eqb_eq in L. rewrite L. cbn [negb]. fold pcxh. rewrite Hload.
    reflexivity.
Qed.

Lemma palette_of_256_colours_witness :
  exists cols',
    IMG_LoadPCX_IO sdl_usual (Some (stream_of small_image)) empty_heap
    = Some (mkResult
              (Some (mkSurface SDL_PIXELFORMAT_INDEX8 2 1 4 [[x01; x02; x00; x00]]
                       (Some (mkPalette 256 cols'))))
              (Some (mkIO small_image []))
              (mkHeap 1 0)
              None) /\
    len cols' = 256 /\
    forall j, (j < 256)%nat ->
              nth j cols' white = triple_at (repeat x07 768) j (nth j (repeat white 256) white).
Proof.
  refine (proj2 (proj2 (proj2
            (palette_of_256_colours sdl_usual (stream_of small_image) empty_heap
               (header_bytes 1 8 0 0 1 0 1 2 [])
               (mkIO (header_bytes 1 8 0 0 1 0 1 2 []) ([x01; x02] ++ [x0c] ++ repeat x07 768))
               4 [[x01; x02; x00; x00]] (mkRun 0 x02)
               (mkIO (header_bytes 1 8 0 0 1 0 1 2 [] ++ [x01; x02]) ([x0c] ++ repeat x07 768))
               (repeat white 256) _ _ _ _ _ _ _ _ _)))
            (repeat x07 768) (mkIO small_image []) _);
    vm_compute; reflexivity.
Defined.

(** The palette behind the marker; the palette at the end of a stream
    without marker (the row bytes 01 02 come first, then 768 palette
    bytes); and a palette cut short. *)
Example palette_examples :
  let run bytes :=
    option_map (fun res => (option_map (fun sf => option_map (fun p => firstn 2 (colors p))
                                                    (palette sf)) (ret res),
                            error_set res,
                            option_map SDL_TellIO (src_after res)))
      (IMG_LoadPCX_IO sdl_usual (Some (stream_of bytes)) empty_heap) in
  run (header_bytes 1 8 0 0 1 0 1 2 [] ++ [x01; x02] ++ [x0c] ++ [x0a; x0b; x0d; x0e; x0f; x10]
       ++ repeat x07 762)
  = Some (Some (Some [mkColor x0a x0b x0d xff; mkColor x0e x0f x10 xff]), None, Some 899) /\
  run (header_bytes 1 8 0 0 1 0 1 2 [] ++ [x01; x02] ++ [x0a; x0b; x0d; x0e; x0f; x10]
       ++ repeat x07 762)
  = Some (Some (Some [mkColor x0a x0b x0d xff; mkColor x0e x0f x10 xff]), None, Some 898) /\
  run (header_bytes 1 8 0 0 1 0 1 2 [] ++ [x01; x02] ++ [x0c] ++ repeat x07 767)
  = Some (None, Some Truncated, Some 0).
Proof. vm_compute. repeat split. Qed.

(* ================================================================== *)
(** * Further properties of the loader *)

(** ** The probe and the header read *)

(** X1: the probe answers [true] exactly when at least 128 bytes are left
    in the stream and the first three of them are 10 (ZSoft), 5
    (PC Paintbrush 3.0) and 0 or 1 (the encoding); nothing else in the
    header is looked at. *)
Theorem IMG_isPCX_true_iff (s : SDL_IOStream) :
  fst (IMG_isPCX (Some s)) = true <->
  sizeof_PCXheader <= len (io_after s) /\
  u8 (nth 0 (io_after s) x00) = ZSoft_Manufacturer /\
  u8 (nth 1 (io_after s) x00) = PC_Paintbrush_Version /\
  (u8 (nth 2 (io_after s) x00) = PCX_RunLength_Encoding \/
   u8 (nth 2 (io_after s) x00) = PCX_Uncompressed_Encoding).
Proof.
  unfold IMG_isPCX.
  pose proof (SDL_ReadIO_length s sizeof_PCXheader) as L.
  unfold SDL_ReadIO in *. cbn [fst snd] in *.
  set (got := firstn (Z.to_nat sizeof_PCXheader) (io_after s)) in *.
  assert (N : forall i, (i < 3)%nat -> byte_at got i = u8 (nth i (io_after s) x00)).
  { intros i Hi. unfold byte_at, got. rewrite nth_firstn.
    change (Z.to_nat sizeof_PCXheader) with 128%nat.
    replace (i <? 128)%nat with true by (symmetry; apply Nat.ltb_lt; lia).
    reflexivity. }
  unfold sizeof_PCXheader in *.
  destruct (len got =? 128) eqn:E.
  - apply Z.eqb_eq in E. unfold isPCX_header. cbn [header_of_bytes Manufacturer Version Encoding].
    rewrite !N by lia. rewrite !andb_true_iff, orb_true_iff, !Z.eqb_eq.
    split; [intros [[H1 H2] H3]; repeat split; (assumption || lia)|].
    intros [_ [H1 [H2 H3]]]. auto.
  - apply Z.eqb_neq in E. split; [discriminate|]. intros [H _]. lia.
Qed.

(** X2: when fewer than 128 bytes are left in the stream, the loader fails
    with "file truncated": it returns NULL, has allocated nothing, and
    leaves the stream where it was. *)
Theorem short_header_is_truncated (sdl : SDL) (s : SDL_IOStream) (heap : Heap) :
  len (io_after s) < sizeof_PCXheader ->
  IMG_LoadPCX_IO sdl (Some s) heap = Some (mkResult None (Some s) heap (Some Truncated)).
Proof.
  intros Hshort. unfold IMG_LoadPCX_IO, load_body.
  pose proof (SDL_ReadIO_length s sizeof_PCXheader) as L.
  destruct (SDL_ReadIO s sizeof_PCXheader) as [got s1] eqn:R. cbn [fst] in L.
  replace (len got =? sizeof_PCXheader) with false
    by (symmetry; apply Z.eqb_neq; unfold sizeof_PCXheader in *; lia).
  cbn [negb]. unfold done. cbn [d_error d_buf d_heap d_src d_surface SDL_free].
  now rewrite (seek_back_read _ _ _ _ R).
Qed.

Lemma short_header_is_truncated_witness :
  IMG_LoadPCX_IO sdl_usual (Some (mkIO [x01] [x0a; x05; x01; x08])) empty_heap
  = Some (mkResult None (Some (mkIO [x01] [x0a; x05; x01; x08])) empty_heap (Some Truncated)).
Proof.
  apply (short_header_is_truncated sdl_usual (mkIO [x01] [x0a; x05; x01; x08]) empty_heap).
  vm_compute. reflexivity.
Defined.

(* ================================================================== *)
(** ** Errors, and what is left behind on return *)

Lemma pcx_format_cases (pcxh : PCXheader) (bits : Z) (fmt : SDL_PixelFormat) :
  pcx_format pcxh = Some (bits, fmt) ->
  (bits = 8 /\ fmt = SDL_PIXELFORMAT_INDEX8 /\
   ((BitsPerPixel pcxh = 1 /\ 1 <= NPlanes pcxh <= 4) \/
    (BitsPerPixel pcxh = 8 /\ NPlanes pcxh = 1))) \/
  (bits = 24 /\ fmt = SDL_PIXELFORMAT_RGB24 /\ BitsPerPixel pcxh = 8 /\ NPlanes pcxh = 3).
Proof.
  unfold pcx_format.
  destruct (BitsPerPixel pcxh =? 1) eqn:E1, (BitsPerPixel pcxh =? 8) eqn:E8,
    (NPlanes pcxh >=? 1) eqn:G1, (NPlanes pcxh <=? 4) eqn:L4,
    (NPlanes pcxh =? 1) eqn:P1, (NPlanes pcxh =? 3) eqn:P3; cbn;
    intros H; inversion H; subst;
    rewrite ?Z.eqb_eq, ?Z.eqb_neq, ?Z.geb_leb, ?Z.leb_le, ?Z.leb_gt in *;
    try lia;
    solve [ left; repeat split; try reflexivity; (left; lia) || (right; lia)
          | right; repeat split; (reflexivity || lia) ].
Qed.

Lemma reconstruct_no_err_below_24 (pcxh : PCXheader) (width pitch_ bpl src_bits : Z)
  (buf row : list byte) (e : string) :
  src_bits <> 24 -> reconstruct pcxh width pitch_ bpl src_bits buf row <> Err e.
Proof.
  intros H. unfold reconstruct.
  destruct (src_bits <=? 4); [intros E; now apply expand_planes_no_err in E|].
  destruct (src_bits =? 8); [intros E; now apply copy_row_no_err in E|].
  destruct (src_bits =? 24) eqn:E24; [apply Z.eqb_eq in E24; contradiction|discriminate].
Qed.

Lemma decode_rows_err_below_24 (pcxh : PCXheader) (width pitch_ bpl src_bits : Z)
  (rows : list (list byte)) :
  src_bits <> 24 ->
  forall st, io_err is_truncated (decode_rows pcxh width pitch_ bpl src_bits rows st).
Proof.
  intros H. induction rows as [|row rest IH]; intros st; cbn [decode_rows];
    [apply io_ret_err|].
  apply io_bind_err; [apply read_scanline_err|]. intros [buf st1].
  apply io_bind_err.
  { apply io_lift_err. intros e He. now apply reconstruct_no_err_below_24 in He. }
  intros row'. apply io_bind_err; [apply IH|]. intros [rest' st2]. apply io_ret_err.
Qed.

(** The message [error] holds at [done], with the place it was set. *)
Lemma load_after_header_error_cause (sdl : SDL) (pcxh : PCXheader) (s1 : SDL_IOStream)
  (heap : Heap) (d : AtDone) (e : string) :
  load_after_header sdl pcxh s1 heap = Some d ->
  d_error d = Some e ->
  (e = UnsupportedFormat /\ ~ legal_pair (BitsPerPixel pcxh) (NPlanes pcxh)) \/
  (e = OutOfMemory /\
   SDL_calloc sdl (to_size_t (NPlanes pcxh * BytesPerLine pcxh)) = false) \/
  (e = NoPalette /\ SDL_CreateSurfacePalette sdl = None) \/
  e = Truncated \/
  (e = CorruptData /\ BitsPerPixel pcxh = 8 /\ NPlanes pcxh = 3).
Proof.
  unfold load_after_header.
  destruct (pcx_format pcxh) as [[bits fmt]|] eqn:F.
  2: { intros H He. inversion H; subst. cbn in He. inversion He.
       left. split; [reflexivity|]. now apply pcx_format_legal. }
  apply pcx_format_cases in F.
  destruct (SDL_CreateSurface sdl _ _ fmt) as [pitch_|];
    [|intros H He; inversion H; subst; discriminate].
  destruct (SDL_calloc sdl _) eqn:C; cbn [negb].
  2: { intros H He. inversion H; subst. cbn in He. inversion He. right; left. now split. }
  match goal with |- context [decode_rows ?a ?b ?c ?d ?e ?f ?g ?h] =>
    pose proof (decode_rows_err a b c d e f g h) as Hrows;
    pose proof (fun N => decode_rows_err_below_24 a b c d e f N g h) as Hlow;
    destruct (decode_rows a b c d e f g h) as [[[rows st]|e1|] s2] end;
    cbn [fst] in Hrows, Hlow; [| |discriminate].
  - destruct (bits =? 8); [|intros H He; inversion H; subst; discriminate].
    destruct (SDL_CreateSurfacePalette sdl) as [cols|] eqn:Pl.
    2: { intros H He. inversion H; subst. cbn in He. inversion He.
         right; right; left. now split. }
    match goal with |- context [fill_palette ?a ?b ?c ?d] =>
      pose proof (fill_palette_err a b c d) as Hpal;
      destruct (fill_palette a b c d) as [[pal|e2|] s3] end;
      cbn [fst] in Hpal; intros H He; inversion H; subst; cbn in He; try discriminate.
    inversion He; subst. right; right; right; left. now apply Hpal.
  - intros H He. inversion H; subst. cbn in He. inversion He; subst.
    destruct F as [[Hb [_ Hp]]|[_ [_ [Hb Hp]]]].
    + right; right; right; left. apply Hlow; [|reflexivity]. lia.
    + destruct (Hrows e eq_refl) as [Ht|Hc]; [now right; right; right; left|].
      right; right; right; right. auto.
Qed.

(** X3: whenever the loader leaves with a message given to [SDL_SetError],
    it has returned NULL, put the stream back where it was when the call
    began, and released everything it had allocated; and the message is
    one of five, each with its cause: "unsupported PCX format" for a pair
    (BitsPerPixel, NPlanes) that is not accepted, "Out of memory" when
    [SDL_calloc] refused the scan-line buffer, "Couldn't create palette"
    when the palette could not be made, "decoding out of bounds
    (corrupt?)" only for a header of 8 bits and 3 planes, and "file
    truncated". *)
Theorem errors_and_their_causes (sdl : SDL) (s : SDL_IOStream) (heap : Heap)
  (res : Result) (e : string) :
  IMG_LoadPCX_IO sdl (Some s) heap = Some res ->
  error_set res = Some e ->
  ret res = None /\ src_after res = Some s /\ heap_after res = heap /\
  (e = Truncated \/
   exists got s1,
     SDL_ReadIO s sizeof_PCXheader = (got, s1) /\ len got = sizeof_PCXheader /\
     let pcxh := header_of_bytes got in
     (e = UnsupportedFormat /\ ~ legal_pair (BitsPerPixel pcxh) (NPlanes pcxh)) \/
     (e = OutOfMemory /\
      SDL_calloc sdl (to_size_t (NPlanes pcxh * BytesPerLine pcxh)) = false) \/
     (e = NoPalette /\ SDL_CreateSurfacePalette sdl = None) \/
     (e = CorruptData /\ BitsPerPixel pcxh = 8 /\ NPlanes pcxh = 3)).
Proof.
  intros Hres He.
  destruct (error_paths_clean_up sdl s heap res Hres) as [H1 [H2 H3]]; [congruence|].
  repeat (split; [assumption|]).
  unfold IMG_LoadPCX_IO, load_body in Hres.
  destruct (SDL_ReadIO s sizeof_PCXheader) as [got s1] eqn:R.
  destruct (len got =? sizeof_PCXheader) eqn:L; cbn [negb] in Hres.
  - apply Z.eqb_eq in L.
    destruct (load_after_header sdl (header_of_bytes got) s1 heap) as [d|] eqn:Ed;
      [|discriminate].
    inversion Hres; subst res. unfold done in He.
    destruct (d_error d) as [e'|] eqn:Ee; cbn in He; [|discriminate].
    inversion He; subst e'.
    destruct (load_after_header_error_cause _ _ _ _ _ _ Ed Ee)
      as [H|[H|[H|[H|H]]]]; [right|right|right|now left|right];
      exists got, s1; (split; [reflexivity|split; [assumption|]]); cbv zeta; tauto.
  - inversion Hres; subst res. cbn in He. inversion He. now left.
Qed.

Lemma errors_and_their_causes_witness :
  let res := mkResult None (Some (stream_of short_planes_image)) empty_heap (Some CorruptData) in
  ret res = None /\ src_after res = Some (stream_of short_planes_image) /\
  heap_after res = empty_heap.
Proof.
  intros res.
  destruct (errors_and_their_causes sdl_usual (stream_of short_planes_image) empty_heap
              res CorruptData) as [H1 [H2 [H3 _]]];
    [vm_compute; reflexivity|vm_compute; reflexivity|].
  repeat split; assumption.
Defined.

Lemma step_bind_ok {A B : Type} (m : step A) (k : A -> step B) (y : B) :
  step_bind m k = Ok y -> exists x, m = Ok x /\ k x = Ok y.
Proof. destruct m as [x|e|]; cbn; intros H; [now exists x|discriminate..]. Qed.

Section LoopInvariant.
Context {S : Type} (Q : S -> Prop).

Lemma for_up_inv (n : nat) (body : Z -> S -> step S) :
  (forall i s s', Q s -> body i s = Ok s' -> Q s') ->
  forall i s s', Q s -> for_up n i body s = Ok s' -> Q s'.
Proof.
  intros Hb. induction n as [|n IH]; intros i s s' Hs; cbn.
  - intros H. inversion H; subst. exact Hs.
  - destruct (body i s) as [s1|e|] eqn:E; try discriminate.
    apply IH. eapply Hb; eassumption.
Qed.

Lemma for_down_inv (n : nat) (body : Z -> S -> step S) :
  (forall i s s', Q s -> body i s = Ok s' -> Q s') ->
  forall s s', Q s -> for_down n body s = Ok s' -> Q s'.
Proof.
  intros Hb. induction n as [|n IH]; intros s s' Hs; cbn.
  - intros H. inversion H; subst. exact Hs.
  - destruct (body (Z.of_nat n) s) as [s1|e|] eqn:E; try discriminate.
    apply IH. eapply Hb; eassumption.
Qed.
End LoopInvariant.

Lemma store_length {A : Type} (m : list A) (i : Z) (v : A) (m' : list A) :
  store m i v = Ok m' -> length m' = length m.
Proof.
  unfold store, in_bounds. destruct ((0 <=? i) && (i <? len m)) eqn:E; [|discriminate].
  apply andb_true_iff in E. destruct E as [E1 E2].
  apply Z.leb_le in E1. apply Z.ltb_lt in E2.
  destruct (store_ok m i v (conj E1 E2)) as [m1 [E L]].
  unfold store, in_bounds in E.
  replace ((0 <=? i) && (i <? len m)) with true in E
    by (symmetry; apply andb_true_iff; split; [apply Z.leb_le|apply Z.ltb_lt]; assumption).
  intros H. rewrite E in H. inversion H; subst. unfold len in L. lia.
Qed.

Lemma expand_byte_length (width plane j byte_ : Z) (row row' : list byte) (x x' : Z) :
  expand_byte width plane j byte_ (row, x) = Ok (row', x') -> length row' = length row.
Proof.
  unfold expand_byte. intros H.
  apply (for_down_inv (fun st => length (fst st) = length row)) in H; [exact H| |reflexivity].
  intros k [r y] [r' y'] Hr. cbn [fst] in *.
  destruct (j * 8 + k >=? width); [intros E; inversion E; subst; exact Hr|].
  intros E. apply step_bind_ok in E. destruct E as [old [_ E]].
  apply step_bind_ok in E. destruct E as [r1 [E1 E2]].
  inversion E2; subst. apply store_length in E1. congruence.
Qed.

Lemma expand_planes_length (pcxh : PCXheader) (width : Z) (buf row row' : list byte) :
  expand_planes pcxh width buf row = Ok row' -> length row' = length row.
Proof.
  unfold expand_planes. intros H.
  apply step_bind_ok in H. destruct H as [[r1 i1] [H E]]. inversion E; subst r1.
  apply (for_up_inv (fun st => length (fst st) = length row)) in H; [exact H| |reflexivity].
  intros plane [r i] [r' i'] Hr E1. cbn [fst] in *.
  apply step_bind_ok in E1. destruct E1 as [[[r2 x2] i2] [E1 E2]]. inversion E2; subst.
  apply (for_up_inv (fun st => length (fst (fst st)) = length row)) in E1;
    [exact E1| |exact Hr].
  intros j [[r3 x3] i3] [[r4 x4] i4] Hr3 E3. cbn [fst] in *.
  apply step_bind_ok in E3. destruct E3 as [c [_ E3]].
  apply step_bind_ok in E3. destruct E3 as [[r5 x5] [E3 E4]]. inversion E4; subst.
  apply expand_byte_length in E3. congruence.
Qed.

Lemma copy_row_length (width bpl : Z) (buf row row' : list byte) :
  copy_row width bpl buf row = Ok row' -> length row' = length row.
Proof.
  unfold copy_row.
  destruct ((Z.min (to_size_t width) bpl <=? len buf) &&
            (Z.min (to_size_t width) bpl <=? len row)) eqn:E; [|discriminate].
  apply andb_true_iff in E. destruct E as [E1 E2].
  apply Z.leb_le in E1, E2. unfold len in *.
  intros H. inversion H; subst. rewrite length_app, length_firstn, length_skipn. lia.
Qed.

Lemma deinterlace_length (pcxh : PCXheader) (width pitch_ bpl : Z) (buf row row' : list byte) :
  deinterlace pcxh width pitch_ bpl buf row = Ok row' -> length row' = length row.
Proof.
  unfold deinterlace. intros H.
  apply step_bind_ok in H. destruct H as [[r1 i1] [H E]]. inversion E; subst r1.
  apply (for_up_inv (fun st => length (fst st) = length row)) in H; [exact H| |reflexivity].
  intros plane [r i] [r' i'] Hr E1. cbn [fst] in *.
  apply step_bind_ok in E1. destruct E1 as [[r2 d2] [E1 E2]]. inversion E2; subst.
  unfold deinterlace_plane in E1.
  apply (for_up_inv (fun st => length (fst st) = length row)) in E1; [exact E1| |exact Hr].
  intros x [r3 d3] [r4 d4] Hr3 E3. cbn [fst] in *. unfold deinterlace_turn in E3.
  cbv zeta in E3. destruct (_ || _); [discriminate|].
  apply step_bind_ok in E3. destruct E3 as [v [_ E3]].
  apply step_bind_ok in E3. destruct E3 as [r5 [E3 E4]]. inversion E4; subst.
  apply store_length in E3. congruence.
Qed.

Lemma reconstruct_length (pcxh : PCXheader) (width pitch_ bpl src_bits : Z)
  (buf row row' : list byte) :
  reconstruct pcxh width pitch_ bpl src_bits buf row = Ok row' -> length row' = length row.
Proof.
  unfold reconstruct.
  destruct (src_bits <=? 4); [apply expand_planes_length|].
  destruct (src_bits =? 8); [apply copy_row_length|].
  destruct (src_bits =? 24); [apply deinterlace_length|].
  intros H. now inversion H.
Qed.

(** The row loop returns as many rows as it was given, each with the
    length it had. *)
Lemma decode_rows_shape (pcxh : PCXheader) (width pitch_ bpl src_bits : Z) (n : nat)
  (rows : list (list byte)) :
  Forall (fun row => length row = n) rows ->
  forall st s rows' st' s',
    decode_rows pcxh width pitch_ bpl src_bits rows st s = (Ok (rows', st'), s') ->
    length rows' = length rows /\ Forall (fun row => length row = n) rows'.
Proof.
  induction 1 as [|row rest Hrow Hrest IH]; intros st s rows' st' s'; cbn [decode_rows].
  - intros H. inversion H; subst. split; [reflexivity|constructor].
  - unfold io_bind, io_lift, io_ret.
    destruct (read_scanline pcxh bpl st s) as [[[buf st1]|e|] s1]; try discriminate.
    destruct (reconstruct pcxh width pitch_ bpl src_bits buf row) as [row1|e|] eqn:E;
      try discriminate.
    destruct (decode_rows pcxh width pitch_ bpl src_bits rest st1 s1)
      as [[[rest1 st2]|e|] s2] eqn:D; try discriminate.
    intros H. inversion H; subst. destruct (IH _ _ _ _ _ D) as [L F].
    apply reconstruct_length in E. split; [cbn; congruence|].
    constructor; [congruence|exact F].
Qed.

(** At [done], on every path: the stream holds the bytes it held, and once
    [buf] is freed the heap holds one surface more than before if
    [surface] is set, and is unchanged otherwise. *)
Lemma load_after_header_accounts (sdl : SDL) (pcxh : PCXheader) (s1 : SDL_IOStream)
  (heap : Heap) (d : AtDone) :
  load_after_header sdl pcxh s1 heap = Some d ->
  io_bytes (d_src d) = io_bytes s1 /\
  SDL_free (d_buf d) (d_heap d)
  = match d_surface d with
    | Some _ => mkHeap (S (live_surfaces heap)) (live_buffers heap)
    | None => heap
    end.
Proof.
  unfold load_after_header.
  destruct (pcx_format pcxh) as [[bits fmt]|];
    [|intros H; inversion H; subst; cbn; auto].
  destruct (SDL_CreateSurface sdl _ _ fmt) as [pitch_|];
    [|intros H; inversion H; subst; cbn; auto].
  destruct (negb (SDL_calloc sdl _));
    [intros H; inversion H; subst; cbn; auto|].
  match goal with |- context [decode_rows ?a ?b ?c ?d ?e ?f ?g ?h] =>
    pose proof (decode_rows_keeps a b c d e f g h) as Hrows;
    destruct (decode_rows a b c d e f g h) as [[[rows st]|e1|] s2] end;
    cbn [snd] in Hrows; [| intros H; inversion H; subst; cbn; auto | discriminate].
  destruct (bits =? 8); [|intros H; inversion H; subst; cbn; auto].
  destruct (SDL_CreateSurfacePalette sdl) as [cols|];
    [|intros H; inversion H; subst; cbn; auto].
  match goal with |- context [fill_palette ?a ?b ?c ?d] =>
    pose proof (fill_palette_keeps a b c d) as Hpal;
    destruct (fill_palette a b c d) as [[pal|e2|] s3] end;
    cbn [snd] in Hpal; intros H; inversion H; subst; cbn; split; congruence.
Qed.

(** X4: however the call ends, the stream holds the same bytes as before
    (only the cursor may have moved), the scan-line buffer has been
    freed, and the number of live surfaces has grown by one exactly when
    a surface is returned; and a surface is never returned together with
    an error message. *)
Theorem returns_leave_no_buffer (sdl : SDL) (s : SDL_IOStream) (heap : Heap) (res : Result) :
  IMG_LoadPCX_IO sdl (Some s) heap = Some res ->
  (exists s', src_after res = Some s' /\ io_bytes s' = io_bytes s) /\
  live_buffers (heap_after res) = live_buffers heap /\
  live_surfaces (heap_after res)
  = (live_surfaces heap + match ret res with Some _ => 1 | None => 0 end)%nat /\
  (ret res <> None -> error_set res = None).
Proof.
  unfold IMG_LoadPCX_IO, load_body.
  destruct (SDL_ReadIO s sizeof_PCXheader) as [got s1] eqn:R.
  assert (Hs1 : io_bytes s1 = io_bytes s).
  { change s1 with (snd (got, s1)). rewrite <- R. apply SDL_ReadIO_bytes. }
  destruct (negb (len got =? sizeof_PCXheader)).
  - intros H. inversion H; subst res. unfold done. cbn.
    split; [eexists; split; [reflexivity|]|].
    + rewrite io_at_bytes. exact Hs1.
    + repeat split; (lia || congruence).
  - destruct (load_after_header sdl (header_of_bytes got) s1 heap) as [d|] eqn:Ed;
      [|discriminate].
    intros H. inversion H; subst res. clear H.
    destruct (load_after_header_accounts _ _ _ _ _ Ed) as [Hb Hh].
    unfold done. rewrite Hh.
    destruct (d_error d) as [e|]; cbn [ret src_after heap_after error_set].
    + split; [eexists; split; [reflexivity|]|].
      * rewrite SDL_SeekIO_bytes. congruence.
      * destruct (d_surface d); cbn; repeat split; (lia || congruence).
    + split; [eexists; split; [reflexivity|congruence]|].
      destruct (d_surface d); cbn; repeat split; (lia || congruence).
Qed.

Lemma returns_leave_no_buffer_witness :
  exists res,
    IMG_LoadPCX_IO sdl_usual (Some (stream_of small_image)) (mkHeap 3 3) = Some res /\
    live_buffers (heap_after res) = live_buffers (mkHeap 3 3) /\
    live_surfaces (heap_after res) = (live_surfaces (mkHeap 3 3) + 1)%nat.
Proof.
  exists (mkResult
            (Some (mkSurface SDL_PIXELFORMAT_INDEX8 2 1 4 [[x01; x02; x00; x00]]
                     (Some (mkPalette 256 (repeat (mkColor x07 x07 x07 xff) 256)))))
            (Some (mkIO small_image []))
            (mkHeap 4 3) None).
  assert (E : IMG_LoadPCX_IO sdl_usual (Some (stream_of small_image)) (mkHeap 3 3)
              = Some (mkResult
                        (Some (mkSurface SDL_PIXELFORMAT_INDEX8 2 1 4 [[x01; x02; x00; x00]]
                                 (Some (mkPalette 256 (repeat (mkColor x07 x07 x07 xff) 256)))))
                        (Some (mkIO small_image []))
                        (mkHeap 4 3) None))
    by (vm_compute; reflexivity).
  split; [exact E|].
  destruct (returns_leave_no_buffer sdl_usual (stream_of small_image) (mkHeap 3 3) _ E)
    as [_ [H1 [H2 _]]].
  split; [exact H1|exact H2].
Defined.

(** X5: a surface that the loader returns has the width and height
    computed from the header, the format chosen from (BitsPerPixel,
    NPlanes), the pitch [SDL_CreateSurface] gave, as many rows as its
    height, each as long as its pitch, and a palette exactly when its
    format is the indexed one. *)
Theorem returned_surface_shape (sdl : SDL) (s : SDL_IOStream) (heap : Heap)
  (res : Result) (sf : SDL_Surface) :
  IMG_LoadPCX_IO sdl (Some s) heap = Some res ->
  ret res = Some sf ->
  exists got s1 bits,
    SDL_ReadIO s sizeof_PCXheader = (got, s1) /\ len got = sizeof_PCXheader /\
    let pcxh := header_of_bytes got in
    pcx_format pcxh = Some (bits, format sf) /\
    w sf = Xmax pcxh - Xmin pcxh + 1 /\
    h sf = Ymax pcxh - Ymin pcxh + 1 /\
    SDL_CreateSurface sdl (w sf) (h sf) (format sf) = Some (pitch sf) /\
    length (pixels sf) = Z.to_nat (h sf) /\
    Forall (fun row => length row = Z.to_nat (pitch sf)) (pixels sf) /\
    (palette sf <> None <-> format sf = SDL_PIXELFORMAT_INDEX8).
Proof.
  unfold IMG_LoadPCX_IO, load_body.
  destruct (SDL_ReadIO s sizeof_PCXheader) as [got s1] eqn:R.
  destruct (len got =? sizeof_PCXheader) eqn:L; cbn [negb];
    [|intros H; inversion H; subst; discriminate].
  apply Z.eqb_eq in L.
  destruct (load_after_header sdl (header_of_bytes got) s1 heap) as [d|] eqn:Ed;
    [|discriminate].
  intros H Hret. inversion H; subst res. clear H.
  unfold done in Hret. destruct (d_error d) as [e|] eqn:Ee; [discriminate|].
  cbn [ret] in Hret. revert Ed. unfold load_after_header.
  destruct (pcx_format (header_of_bytes got)) as [[bits fmt]|] eqn:F;
    [|intros H; inversion H; subst; discriminate].
  destruct (pcx_format_cases _ _ _ F) as [[Hb [Hf _]]|[Hb [Hf _]]];
    destruct (SDL_CreateSurface sdl _ _ fmt) as [pitch_|] eqn:Cs;
    try (intros H; inversion H; subst; discriminate);
    (destruct (negb (SDL_calloc sdl _)); [intros H; inversion H; subst; discriminate|]);
    match goal with |- context [decode_rows ?a ?b ?c ?d ?e ?f ?g ?h] =>
      pose proof (fun n Hn => decode_rows_shape a b c d e n f Hn g h) as Hshape;
      destruct (decode_rows a b c d e f g h) as [[[rows st]|e1|] s2] end;
    try (intros H; inversion H; subst; discriminate);
    (destruct (Hshape (Z.to_nat pitch_)
                (proj2 (Forall_forall _ _)
                   (fun row Hin => eq_trans (f_equal (@length byte) (repeat_spec _ _ _ Hin))
                                     (repeat_length _ _)))
                _ _ _ eq_refl) as [Hlen Hall]);
    cbn [new_surface pixels] in Hlen; rewrite repeat_length in Hlen;
    subst bits; cbn [Z.eqb Pos.eqb].
  - destruct (SDL_CreateSurfacePalette sdl) as [cols|];
      [|intros H; inversion H; subst; discriminate].
    destruct (fill_palette _ _ _ _) as [[pal|e2|] s3];
      intros H; inversion H; subst; try discriminate.
    cbn in Hret. inversion Hret; subst sf. cbn.
    exists got, s1, 8. repeat split; try assumption; try reflexivity; discriminate.
  - intros H; inversion H; subst. cbn in Hret. inversion Hret; subst sf. cbn.
    exists got, s1, 24. repeat split; try assumption; try reflexivity;
      intros; try contradiction; discriminate.
Qed.

Lemma returned_surface_shape_witness :
  exists got s1 bits,
    SDL_ReadIO (stream_of small_image) sizeof_PCXheader = (got, s1) /\
    len got = sizeof_PCXheader /\
    pcx_format (header_of_bytes got) = Some (bits, SDL_PIXELFORMAT_INDEX8).
Proof.
  destruct (returned_surface_shape sdl_usual (stream_of small_image) empty_heap
              (mkResult
                 (Some (mkSurface SDL_PIXELFORMAT_INDEX8 2 1 4 [[x01; x02; x00; x00]]
                          (Some (mkPalette 256 (repeat (mkColor x07 x07 x07 xff) 256)))))
                 (Some (mkIO small_image []))
                 (mkHeap 1 0) None)
              (mkSurface SDL_PIXELFORMAT_INDEX8 2 1 4 [[x01; x02; x00; x00]]
                 (Some (mkPalette 256 (repeat (mkColor x07 x07 x07 xff) 256)))))
    as [got [s1 [bits [R [L [F _]]]]]]; [vm_compute; reflexivity|reflexivity|].
  exists got, s1, bits. repeat split; assumption.
Defined.

(* ================================================================== *)
(** ** Reading the header back *)

Lemma u8_to_u8 (z : Z) : u8 (to_u8 z) = z mod 256.
Proof.
  unfold to_u8, u8.
  pose proof (Z.mod_pos_bound z 256 eq_refl) as B.
  destruct (Byte.of_N (Z.to_N (z mod 256))) as [c|] eqn:E.
  - apply Byte.to_of_N in E. rewrite E. lia.
  - apply Byte.of_N_None_iff in E. lia.
Qed.

Lemma s16le_at_bytes (bs : list byte) (off : nat) (v : Z) :
  -32768 <= v <= 32767 ->
  nth off bs x00 = to_u8 v -> nth (S off) bs x00 = to_u8 (v / 256) ->
  s16le_at bs off = v.
Proof.
  intros H H0 H1. unfold s16le_at, byte_at. rewrite H0, H1, !u8_to_u8. unfold sint16.
  destruct (_ <? 32768) eqn:E; [apply Z.ltb_lt in E|apply Z.ltb_ge in E];
    Z.to_euclidean_division_equations; lia.
Qed.

Lemma header_bytes_split (encoding bpp xmin ymin xmax ymax nplanes bytesperline : Z)
  (colormap : list byte) :
  header_bytes encoding bpp xmin ymin xmax ymax nplanes bytesperline colormap
  = ([to_u8 ZSoft_Manufacturer; to_u8 PC_Paintbrush_Version; to_u8 encoding; to_u8 bpp]
     ++ le16 xmin ++ le16 ymin ++ le16 xmax ++ le16 ymax ++ le16 72 ++ le16 72)
    ++ firstn 48 (colormap ++ repeat x00 48)
    ++ ([x00; to_u8 nplanes] ++ le16 bytesperline ++ le16 1 ++ le16 0 ++ le16 0
        ++ repeat x00 54).
Proof. reflexivity. Qed.

Lemma colormap_field_length (colormap : list byte) :
  length (firstn 48 (colormap ++ repeat x00 48)) = 48%nat.
Proof. rewrite length_firstn, length_app, repeat_length. lia. Qed.

(** The fields that [header_of_bytes] finds in the bytes laid out by
    [header_bytes]. *)
Lemma header_fields (encoding bpp xmin ymin xmax ymax nplanes bytesperline : Z)
  (colormap : list byte) :
  0 <= encoding <= 255 -> 0 <= bpp <= 255 -> 0 <= nplanes <= 255 ->
  -32768 <= xmin <= 32767 -> -32768 <= ymin <= 32767 ->
  -32768 <= xmax <= 32767 -> -32768 <= ymax <= 32767 ->
  -32768 <= bytesperline <= 32767 ->
  let bytes := header_bytes encoding bpp xmin ymin xmax ymax nplanes bytesperline colormap in
  let pcxh := header_of_bytes bytes in
  len bytes = sizeof_PCXheader /\
  Manufacturer pcxh = ZSoft_Manufacturer /\ Version pcxh = PC_Paintbrush_Version /\
  Encoding pcxh = encoding /\ BitsPerPixel pcxh = bpp /\
  Xmin pcxh = xmin /\ Ymin pcxh = ymin /\ Xmax pcxh = xmax /\ Ymax pcxh = ymax /\
  NPlanes pcxh = nplanes /\ BytesPerLine pcxh = bytesperline /\
  Colormap pcxh = firstn 48 (colormap ++ repeat x00 48).
Proof.
  intros He Hb Hn Hx0 Hy0 Hx1 Hy1 Hl bytes pcxh.
  pose proof (colormap_field_length colormap) as Lc.
  assert (Hu : forall z, 0 <= z <= 255 -> u8 (to_u8 z) = z).
  { intros z Hz. rewrite u8_to_u8. apply Z.mod_small. lia. }
  unfold pcxh. cbn [header_of_bytes Manufacturer Version Encoding BitsPerPixel Xmin Ymin
                    Xmax Ymax NPlanes BytesPerLine Colormap].
  split.
  { unfold bytes, len. rewrite header_bytes_split, !length_app, Lc. reflexivity. }
  split; [reflexivity|]. split; [reflexivity|].
  split; [unfold byte_at, bytes; cbn [header_bytes app nth]; now apply Hu|].
  split; [unfold byte_at, bytes; cbn [header_bytes app nth]; now apply Hu|].
  split; [apply s16le_at_bytes; [assumption|reflexivity..]|].
  split; [apply s16le_at_bytes; [assumption|reflexivity..]|].
  split; [apply s16le_at_bytes; [assumption|reflexivity..]|].
  split; [apply s16le_at_bytes; [assumption|reflexivity..]|].
  unfold bytes. rewrite header_bytes_split.
  set (pre := _ ++ le16 xmin ++ _). set (seg := firstn 48 _) in *.
  assert (Lp : length pre = 16%nat) by reflexivity.
  assert (Hpost : forall i post, nth (64 + i) (pre ++ seg ++ post) x00 = nth i post x00).
  { intros i post. rewrite app_nth2 by lia. rewrite app_nth2 by lia.
    rewrite Lp, Lc. f_equal. lia. }
  split; [|split].
  - unfold byte_at. rewrite (Hpost 1%nat). cbn [app nth]. now apply Hu.
  - apply s16le_at_bytes; [assumption| |].
    + rewrite (Hpost 2%nat). reflexivity.
    + rewrite (Hpost 3%nat). reflexivity.
  - change 16%nat with (length pre). rewrite skipn_app, skipn_all, Nat.sub_diag.
    cbn [app skipn]. rewrite firstn_app, Lc, Nat.sub_diag, firstn_O, app_nil_r.
    apply firstn_all2. lia.
Qed.

(** X6: the 128 bytes laid out as a header (byte fields at offsets 0 to 3
    and 65, 16-bit fields least significant byte first at offsets 4, 6, 8,
    10 and 66, the 48 colour map bytes at offset 16) are read back by the
    loader as the fields they were made from. *)
Theorem header_round_trip (encoding bpp xmin ymin xmax ymax nplanes bytesperline : Z)
  (colormap : list byte) :
  0 <= encoding <= 255 -> 0 <= bpp <= 255 -> 0 <= nplanes <= 255 ->
  -32768 <= xmin <= 32767 -> -32768 <= ymin <= 32767 ->
  -32768 <= xmax <= 32767 -> -32768 <= ymax <= 32767 ->
  -32768 <= bytesperline <= 32767 ->
  let bytes := header_bytes encoding bpp xmin ymin xmax ymax nplanes bytesperline colormap in
  let pcxh := header_of_bytes bytes in
  len bytes = sizeof_PCXheader /\
  Manufacturer pcxh = ZSoft_Manufacturer /\ Version pcxh = PC_Paintbrush_Version /\
  Encoding pcxh = encoding /\ BitsPerPixel pcxh = bpp /\
  Xmin pcxh = xmin /\ Ymin pcxh = ymin /\ Xmax pcxh = xmax /\ Ymax pcxh = ymax /\
  NPlanes pcxh = nplanes /\ BytesPerLine pcxh = bytesperline /\
  Colormap pcxh = firstn 48 (colormap ++ repeat x00 48).
Proof.
  intros He Hb Hn Hx0 Hy0 Hx1 Hy1 Hl. now apply header_fields.
Qed.

Lemma header_round_trip_witness :
  BytesPerLine (header_of_bytes (header_bytes 1 8 (-3) 0 636 479 1 640 [x01; x02; x03])) = 640 /\
  Xmin (header_of_bytes (header_bytes 1 8 (-3) 0 636 479 1 640 [x01; x02; x03])) = -3.
Proof.
  destruct (header_round_trip 1 8 (-3) 0 636 479 1 640 [x01; x02; x03])
    as [_ [_ [_ [_ [_ [Hx [_ [_ [_ [_ [Hl _]]]]]]]]]]]; [lia..|].
  split; [exact Hl|exact Hx].
Defined.

(* ================================================================== *)
(** ** Uncompressed images *)

Lemma raw_line_consumes (bpl : Z) (s s' : SDL_IOStream) (buf : list byte) :
  raw_line bpl s = (Ok buf, s') ->
  io_after s = buf ++ io_after s' /\ io_before s' = io_before s ++ buf /\ len buf = bpl.
Proof.
  unfold raw_line, SDL_ReadIO.
  destruct (len (firstn (Z.to_nat bpl) (io_after s)) =? bpl) eqn:E; [|discriminate].
  apply Z.eqb_eq in E. intros H. inversion H; subst. cbn [io_after io_before].
  split; [now rewrite firstn_skipn|]. split; [reflexivity|exact E].
Qed.

(** X7: with [Encoding] 0 the row loop takes exactly [bpl] bytes from the
    stream for each row, in order, and leaves [count] and [ch] alone; so
    it cannot complete on a stream that holds fewer than [bpl] bytes per
    row. *)
Theorem raw_rows_consume_bpl_each (pcxh : PCXheader) (width pitch_ bpl src_bits : Z)
  (rows : list (list byte)) :
  Encoding pcxh = 0 -> 0 <= bpl ->
  forall st s,
    (forall rows' st' s',
       decode_rows pcxh width pitch_ bpl src_bits rows st s = (Ok (rows', st'), s') ->
       exists data,
         io_after s = data ++ io_after s' /\ io_before s' = io_before s ++ data /\
         len data = bpl * len rows /\ st' = st) /\
    (len (io_after s) < bpl * len rows ->
     forall r, fst (decode_rows pcxh width pitch_ bpl src_bits rows st s) <> Ok r).
Proof.
  intros He Hb.
  assert (Hmain : forall st s rows' st' s',
            decode_rows pcxh width pitch_ bpl src_bits rows st s = (Ok (rows', st'), s') ->
            exists data,
              io_after s = data ++ io_after s' /\ io_before s' = io_before s ++ data /\
              len data = bpl * len rows /\ st' = st).
  { induction rows as [|row rest IH]; intros st s rows' st' s'; cbn [decode_rows].
    - intros H. inversion H; subst. exists []. cbn. rewrite app_nil_r. repeat split. lia.
    - unfold read_scanline. rewrite He. cbn [Z.eqb]. unfold io_bind, io_lift, io_ret.
      destruct (raw_line bpl s) as [[buf|e|] s1] eqn:R; try discriminate.
      apply raw_line_consumes in R. destruct R as [R1 [R2 R3]].
      destruct (reconstruct pcxh width pitch_ bpl src_bits buf row); try discriminate.
      destruct (decode_rows pcxh width pitch_ bpl src_bits rest st s1)
        as [[[rest1 st2]|e|] s2] eqn:D; try discriminate.
      intros H. inversion H; subst.
      destruct (IH _ _ _ _ _ D) as [data [D1 [D2 [D3 D4]]]].
      exists (buf ++ data). rewrite <- app_assoc, <- D1, R1, D2, R2, <- app_assoc.
      repeat split; [|assumption]. unfold len in *. rewrite length_app. cbn [length]. lia. }
  intros st s. split; [apply Hmain|].
  intros Hshort [rows' st'] Hok.
  destruct (decode_rows pcxh width pitch_ bpl src_bits rows st s) as [o s'] eqn:D.
  cbn [fst] in Hok. subst o.
  destruct (Hmain _ _ _ _ _ D) as [data [D1 [_ [D3 _]]]].
  rewrite D1 in Hshort. unfold len in *. rewrite length_app in Hshort. lia.
Qed.

Lemma raw_rows_consume_bpl_each_witness :
  ~ exists r,
      fst (decode_rows (header_of_bytes (header_bytes 0 8 0 0 2 1 1 3 [])) 3 4 3 8
             [[x00; x00; x00; x00]; [x00; x00; x00; x00]] run_init
             (stream_of [x01; x02; x03; x04; x05]))
      = Ok r.
Proof.
  intros [r H]. revert r H.
  refine (proj2 (raw_rows_consume_bpl_each (header_of_bytes (header_bytes 0 8 0 0 2 1 1 3 []))
                   3 4 3 8 [[x00; x00; x00; x00]; [x00; x00; x00; x00]] _ _
                   run_init (stream_of [x01; x02; x03; x04; x05])) _);
    [reflexivity|lia|vm_compute; reflexivity].
Defined.

Lemma copy_row_fits (width : Z) (buf row : list byte) :
  0 <= width < 2 ^ 64 -> len buf = width -> width <= len row ->
  copy_row width width buf row = Ok (buf ++ skipn (Z.to_nat width) row).
Proof.
  intros Hw Hb Hr. unfold copy_row.
  rewrite to_size_t_small by assumption. rewrite Z.min_id.
  replace (width <=? len buf) with true by (symmetry; apply Z.leb_le; lia).
  replace (width <=? len row) with true by (symmetry; apply Z.leb_le; lia).
  cbn [andb]. rewrite firstn_all2 by (unfold len in Hb; lia). reflexivity.
Qed.

Lemma decode_rows_cons (pcxh : PCXheader) (width pitch_ bpl src_bits : Z)
  (row : list byte) (rest : list (list byte)) (st : RunState) (s : SDL_IOStream) :
  decode_rows pcxh width pitch_ bpl src_bits (row :: rest) st s
  = match read_scanline pcxh bpl st s with
    | (Ok (buf, st1), s1) =>
        match reconstruct pcxh width pitch_ bpl src_bits buf row with
        | Ok row' =>
            match decode_rows pcxh width pitch_ bpl src_bits rest st1 s1 with
            | (Ok (rest', st2), s2) => (Ok (row' :: rest', st2), s2)
            | (Err e, s2) => (Err e, s2)
            | (Fault, s2) => (Fault, s2)
            end
        | Err e => (Err e, s1)
        | Fault => (Fault, s1)
        end
    | (Err e, s1) => (Err e, s1)
    | (Fault, s1) => (Fault, s1)
    end.
Proof.
  cbn [decode_rows]. unfold io_bind, io_lift, io_ret.
  destruct (read_scanline pcxh bpl st s) as [[[buf st1]|e|] s1]; try reflexivity.
  destruct (reconstruct pcxh width pitch_ bpl src_bits buf row); try reflexivity.
  destruct (decode_rows pcxh width pitch_ bpl src_bits rest st1 s1)
    as [[[rest' st2]|e|] s2]; reflexivity.
Qed.

(** An uncompressed scan line is the next [bpl] bytes of the stream. *)
Lemma read_scanline_raw_line (pcxh : PCXheader) (bpl : Z) (st : RunState)
  (before line rest : list byte) :
  Encoding pcxh = 0 -> len line = bpl ->
  read_scanline pcxh bpl st (mkIO before (line ++ rest))
  = (Ok (line, st), mkIO (before ++ line) rest).
Proof.
  intros He <-. rewrite read_scanline_raw by assumption.
  unfold SDL_ReadIO, len. cbn [fst snd io_after io_before]. rewrite Nat2Z.id.
  rewrite firstn_app, Nat.sub_diag, firstn_all, firstn_O, app_nil_r.
  rewrite skipn_app, skipn_all, Nat.sub_diag. cbn [app skipn].
  now rewrite Z.eqb_refl.
Qed.

(** The rows of an uncompressed single-plane 8-bit image whose lines hold
    [width] bytes: each pixel row receives its [width] bytes and keeps the
    rest of its [pitch] bytes. *)
Lemma decode_rows_raw8 (pcxh : PCXheader) (width pitch_ : Z) (data : list (list byte)) :
  Encoding pcxh = 0 -> 0 <= width < 2 ^ 64 ->
  Forall (fun line => len line = width) data ->
  forall (rows : list (list byte)) st before rest,
    length rows = length data ->
    Forall (fun row => width <= len row) rows ->
    decode_rows pcxh width pitch_ width 8 rows st (mkIO before (concat data ++ rest))
    = (Ok (map (fun p => fst p ++ skipn (Z.to_nat width) (snd p)) (combine data rows), st),
       mkIO (before ++ concat data) rest).
Proof.
  intros He Hw Hdata. induction Hdata as [|line data Hline Hdata IH];
    intros rows st before rest Hlen Hrows.
  - destruct rows; [|discriminate]. cbn. now rewrite app_nil_r.
  - destruct rows as [|row rows]; [discriminate|].
    apply Forall_cons_iff in Hrows. destruct Hrows as [Hrow Hrows].
    rewrite decode_rows_cons. cbn [concat combine map fst snd].
    rewrite <- app_assoc.
    rewrite read_scanline_raw_line by assumption.
    unfold reconstruct. change (8 <=? 4) with false. change (8 =? 8) with true. cbv iota.
    rewrite copy_row_fits by assumption.
    rewrite IH by (assumption || (cbn in Hlen; lia)).
    now rewrite <- app_assoc.
Qed.

Lemma SDL_ReadIO_prefix (before bytes rest : list byte) (size : Z) :
  len bytes = size ->
  SDL_ReadIO (mkIO before (bytes ++ rest)) size = (bytes, mkIO (before ++ bytes) rest).
Proof.
  intros <-. unfold SDL_ReadIO, len. cbn [io_after io_before]. rewrite Nat2Z.id.
  rewrite firstn_app, Nat.sub_diag, firstn_all, firstn_O, app_nil_r.
  now rewrite skipn_app, skipn_all, Nat.sub_diag.
Qed.

Lemma skipn_repeat_x00 (n m : nat) : skipn n (repeat x00 m) = repeat x00 (m - n).
Proof.
  revert m. induction n as [|n IH]; intros m.
  - now rewrite Nat.sub_0_r.
  - destruct m as [|m]; [reflexivity|]. cbn [repeat skipn Nat.sub]. apply IH.
Qed.

Lemma combine_with_repeat {A B : Type} (f : A * B -> A) (g : A -> A) (z : B) (l : list A) :
  (forall x, f (x, z) = g x) ->
  forall n, length l = n -> map f (combine l (repeat z n)) = map g l.
Proof.
  intros H. induction l as [|x l IH]; intros n Hn; [reflexivity|].
  destruct n as [|n]; [discriminate|]. cbn [repeat combine map].
  rewrite H, IH by (cbn in Hn; lia). reflexivity.
Qed.

(** X8: an uncompressed 8-bit single-plane image read back.  A header for
    [width] by [height] pixels with [width] bytes per line, then the
    lines, the marker 12 and 768 palette bytes (anything may follow):
    the loader returns a surface whose rows are the lines, each followed
    by the zero bytes that fill it up to the pitch, and whose palette
    holds the 768 bytes as 256 triples; the stream is left behind the
    palette. *)
Theorem raw_indexed8_round_trip (sdl : SDL) (heap : Heap) (before : list byte)
  (width height pitch_ : Z) (data : list (list byte)) (pal tail : list byte)
  (cols : list SDL_Color) :
  1 <= width <= 32767 -> 1 <= height <= 32768 ->
  length data = Z.to_nat height ->
  Forall (fun line => len line = width) data ->
  len pal = 768 ->
  SDL_CreateSurface sdl width height SDL_PIXELFORMAT_INDEX8 = Some pitch_ ->
  width <= pitch_ ->
  SDL_calloc sdl width = true ->
  SDL_CreateSurfacePalette sdl = Some cols ->
  len cols = 256 ->
  let hdr := header_bytes 0 8 0 0 (width - 1) (height - 1) 1 width [] in
  exists cols',
    IMG_LoadPCX_IO sdl
      (Some (mkIO before (hdr ++ concat data ++ [x0c] ++ pal ++ tail))) heap
    = Some (mkResult
              (Some (mkSurface SDL_PIXELFORMAT_INDEX8 width height pitch_
                       (map (fun line => line ++ repeat x00 (Z.to_nat pitch_ - Z.to_nat width))
                            data)
                       (Some (mkPalette 256 cols'))))
              (Some (mkIO (before ++ hdr ++ concat data ++ [x0c] ++ pal) tail))
              (mkHeap (S (live_surfaces heap)) (live_buffers heap))
              None) /\
    len cols' = 256 /\
    forall j, (j < 256)%nat -> nth j cols' white = triple_at pal j (nth j cols white).
Proof.
  intros Hw Hh Hlen Hdata Hpal Hs Hp Hc Hcp Hcl hdr.
  destruct (header_fields 0 8 0 0 (width - 1) (height - 1) 1 width [])
    as [L [_ [_ [He [Hb [Hx0 [Hy0 [Hx1 [Hy1 [Hn Hl]]]]]]]]]]; try lia.
  fold hdr in L, He, Hb, Hx0, Hy0, Hx1, Hy1, Hn, Hl. destruct Hl as [Hl _].
  set (pcxh := header_of_bytes hdr) in *.
  assert (Ewidth : Xmax pcxh - Xmin pcxh + 1 = width) by lia.
  assert (Eheight : Ymax pcxh - Ymin pcxh + 1 = height) by lia.
  assert (Ebpl : to_size_t (1 * BytesPerLine pcxh) = width).
  { rewrite Hl, Z.mul_1_l. apply to_size_t_small. lia. }
  set (s1 := mkIO (before ++ hdr) (concat data ++ [x0c] ++ pal ++ tail)).
  set (s2 := mkIO ((before ++ hdr) ++ concat data) ([x0c] ++ pal ++ tail)).
  set (rows := map (fun line => line ++ repeat x00 (Z.to_nat pitch_ - Z.to_nat width)) data).
  assert (R : SDL_ReadIO (mkIO before (hdr ++ concat data ++ [x0c] ++ pal ++ tail))
                sizeof_PCXheader = (hdr, s1)) by (now apply SDL_ReadIO_prefix).
  assert (Hrows : decode_rows pcxh width pitch_ width 8
                    (pixels (new_surface SDL_PIXELFORMAT_INDEX8 width height pitch_))
                    run_init s1 = (Ok (rows, run_init), s2)).
  { unfold s1, s2. cbn [new_surface pixels].
    rewrite (decode_rows_raw8 pcxh width pitch_ data He); try assumption; try lia.
    - f_equal. f_equal. f_equal. unfold rows.
      apply combine_with_repeat; [|lia].
      intros line. cbn [fst snd]. now rewrite skipn_repeat_x00.
    - now rewrite repeat_length.
    - apply Forall_forall. intros row Hin. apply repeat_spec in Hin. subst row.
      unfold len. rewrite repeat_length. lia. }
  pose proof (load_after_header_indexed8 sdl pcxh s1 heap pitch_ rows run_init s2 cols Hb Hn)
    as Hload.
  rewrite Ewidth, Eheight, Ebpl in Hload. specialize (Hload Hs Hc Hrows Hcp Hcl).
  cbv zeta in Hload.
  destruct (read_colormap_found s2 [] (pal ++ tail) eq_refl (fun F => F)) as [Hfound _].
  rewrite Hfound in Hload
    by (unfold len in *; rewrite length_app; lia).
  assert (Efirst : firstn 768 (pal ++ tail) = pal).
  { unfold len in Hpal. replace 768%nat with (length pal) by lia.
    now rewrite firstn_app, Nat.sub_diag, firstn_all, firstn_O, app_nil_r. }
  assert (Eskip : skipn 768 (pal ++ tail) = tail).
  { unfold len in Hpal. replace 768%nat with (length pal) by lia.
    now rewrite skipn_app, skipn_all, Nat.sub_diag. }
  rewrite Efirst, Eskip in Hload.
  destruct (set_colors_256 pal cols Hpal) as [cols' [Hset [Hlen' Hnth]]]; [lia|].
  rewrite Hset in Hload. exists cols'. split; [|split; [congruence|exact Hnth]].
  unfold IMG_LoadPCX_IO, load_body. rewrite R.
  apply Z.eqb_eq in L. rewrite L. cbn [negb]. fold pcxh. rewrite Hload.
  unfold done. cbn [d_error d_surface d_src d_buf d_heap SDL_free live_surfaces
                    live_buffers pred io_before].
  unfold s2. cbn [io_before]. now rewrite <- !app_assoc.
Qed.

Lemma raw_indexed8_round_trip_witness :
  exists cols',
    IMG_LoadPCX_IO sdl_usual
      (Some (mkIO [] (header_bytes 0 8 0 0 (3 - 1) (2 - 1) 1 3 []
                      ++ concat [[x01; x02; x03]; [x04; x05; x06]]
                      ++ [x0c] ++ repeat x09 768 ++ [x0a]))) empty_heap
    = Some (mkResult
              (Some (mkSurface SDL_PIXELFORMAT_INDEX8 3 2 4
                       (map (fun line => line ++ repeat x00 (Z.to_nat 4 - Z.to_nat 3))
                            [[x01; x02; x03]; [x04; x05; x06]])
                       (Some (mkPalette 256 cols'))))
              (Some (mkIO ([] ++ header_bytes 0 8 0 0 (3 - 1) (2 - 1) 1 3 []
                           ++ concat [[x01; x02; x03]; [x04; x05; x06]]
                           ++ [x0c] ++ repeat x09 768) [x0a]))
              (mkHeap 1 0)
              None) /\
    len cols' = 256.
Proof.
  destruct (raw_indexed8_round_trip sdl_usual empty_heap [] 3 2 4
              [[x01; x02; x03]; [x04; x05; x06]] (repeat x09 768) [x0a] (repeat white 256))
    as [cols' [H1 [H2 _]]];
    try lia; try reflexivity;
    try (repeat constructor).
  exists cols'. split; [exact H1|exact H2].
Defined.

(* ================================================================== *)
(** ** What the run-length loop reads *)

Lemma io_bind_reads {A B : Type} (k1 k2 : nat) (m : IO A) (f : A -> IO B) :
  io_reads k1 m -> (forall x, io_reads k2 (f x)) -> io_reads (k1 + k2) (io_bind m f).
Proof.
  intros Hm Hf s o s'. unfold io_bind.
  destruct (m s) as [o1 s1] eqn:E1. destruct (Hm _ _ _ E1) as [[t1 [A1 [B1 L1]]] [F1 N1]].
  destruct o1 as [x|e|]; [|intros H; inversion H; subst..].
  - intros E2. destruct (Hf x _ _ _ E2) as [[t2 [A2 [B2 L2]]] [F2 N2]].
    split; [|split; assumption].
    exists (t1 ++ t2). split; [|split].
    + now rewrite <- app_assoc, <- A2.
    + now rewrite B2, B1, <- app_assoc.
    + rewrite length_app. lia.
  - split; [|split; [intros e' He'; inversion He'; subst; now apply F1|discriminate]].
    exists t1. repeat split; try assumption. lia.
  - contradiction.
Qed.

Lemma io_ret_reads {A : Type} (k : nat) (x : A) : io_reads k (io_ret x).
Proof.
  intros s o s' H. inversion H; subst. split; [|split; discriminate].
  exists []. cbn. rewrite app_nil_r. repeat split. lia.
Qed.

Lemma read_byte_reads : io_reads 1 read_byte.
Proof.
  intros [before [|c rest]] o s'; cbn; intros H; inversion H; subst; cbn.
  - split; [|split; [intros e He; inversion He; now split|discriminate]].
    exists []. cbn. rewrite app_nil_r. repeat split. lia.
  - split; [|split; discriminate]. exists [c]. repeat split. cbn. lia.
Qed.

Lemma rle_byte_reads (st : RunState) : io_reads 2 (rle_byte st).
Proof.
  unfold rle_byte, rle_refill.
  apply (io_bind_reads 2 0); [|intros; apply io_ret_reads].
  destruct (count st =? 0); [|apply io_ret_reads].
  apply (io_bind_reads 1 1); [apply read_byte_reads|]. intros c.
  destruct (u8 c <? 0xc0); [apply io_ret_reads|].
  apply (io_bind_reads 1 0); [apply read_byte_reads|]. intros; apply io_ret_reads.
Qed.

Lemma rle_line_reads (n : nat) : forall st, io_reads (2 * n) (rle_line n st).
Proof.
  induction n as [|n IH]; intros st; cbn [rle_line]; [apply io_ret_reads|].
  replace (2 * S n)%nat with (2 + (2 * n + 0))%nat by lia.
  apply io_bind_reads; [apply rle_byte_reads|]. intros [c st1].
  apply io_bind_reads; [apply IH|]. intros [cs st2]. apply io_ret_reads.
Qed.

(** X9: decoding a run-length scan line of [n] bytes takes its input from
    the front of what is left of the stream, at most two bytes for each
    byte of the line; it fails only with "file truncated", and only after
    the stream has been read to its end. *)
Theorem rle_line_reads_at_most_twice (n : nat) (st : RunState) (s s' : SDL_IOStream)
  (o : step (list byte * RunState)) :
  rle_line n st s = (o, s') ->
  (exists taken,
     io_after s = taken ++ io_after s' /\ io_before s' = io_before s ++ taken /\
     (length taken <= 2 * n)%nat) /\
  (forall e, o = Err e -> e = Truncated /\ io_after s' = []) /\
  o <> Fault.
Proof. apply rle_line_reads. Qed.

Lemma rle_line_reads_at_most_twice_witness :
  exists taken,
    [xc3; x7f; x01; x02] = taken ++ [x02] /\ (length taken <= 2 * 4)%nat.
Proof.
  destruct (rle_line_reads_at_most_twice 4 run_init (stream_of [xc3; x7f; x01; x02])
              (mkIO [xc3; x7f; x01] [x02])
              (Ok ([x7f; x7f; x7f; x01], mkRun 0 x01)) eq_refl)
    as [[taken [H1 [_ H2]]] _].
  exists taken. split; [exact H1|exact H2].
Defined.

(** X10: on a stream in which no control byte is 0xC0, and from a state
    with nothing pending, the run-length loop produces the first [n] bytes
    of the expansion the format's grammar gives for the stream (a byte
    below 0xC0 stands for itself, a byte 0xC0 + k makes the next byte
    repeat k times), wherever the rows end. *)
Theorem rle_line_follows_grammar (n : nat) (v : byte) (before data : list byte) :
  no_zero_run data ->
  (n <= length (rle_expand_spec data))%nat ->
  exists st' s',
    rle_line n (mkRun 0 v) (mkIO before data)
    = (Ok (firstn n (rle_expand_spec data), st'), s').
Proof.
  intros Hwf Hn.
  destruct (rle_line_refines n (mkRun 0 v) (mkIO before data)) as [st' [s' H]];
    cbn [count ch io_after]; [lia|assumption|lia|].
  exists st', s'. exact H.
Qed.

Lemma rle_line_follows_grammar_witness :
  exists st' s',
    rle_line 5 (mkRun 0 x00) (mkIO [] [x01; xc3; x7f; xc1; xff; x02])
    = (Ok ([x01; x7f; x7f; x7f; xff], st'), s').
Proof.
  destruct (rle_line_follows_grammar 5 x00 [] [x01; xc3; x7f; xc1; xff; x02])
    as [st' [s' H]]; [vm_compute; repeat split; discriminate|vm_compute; lia|].
  exists st', s'. exact H.
Defined.

(* ================================================================== *)
(** ** What the de-interlace step writes *)

Section DeinterlaceContent.
Variables (pcxh : PCXheader) (pitch_ bpl : Z) (buf : list byte) (innerSrc : Z).
Hypothesis planes_pos : 1 <= NPlanes pcxh.
Hypothesis buf_size : bpl <= len buf.

(** [n] turns of the loop over [x] from [x = i] that pass their tests copy
    [buf[innerSrc + x]] to every [NPlanes]-th byte of the row from [dst]
    on, and leave the other bytes of the row alone. *)
Lemma deinterlace_turns_content (n : nat) :
  forall i row dst,
    0 <= innerSrc + i -> 0 <= dst -> pitch_ <= len row ->
    innerSrc + i + Z.of_nat n <= bpl ->
    (n = 0%nat \/ dst + NPlanes pcxh * (Z.of_nat n - 1) < pitch_) ->
    exists row',
      for_up n i (deinterlace_turn pcxh pitch_ bpl buf innerSrc) (row, dst)
      = Ok (row', dst + NPlanes pcxh * Z.of_nat n) /\
      len row' = len row /\
      (forall t, 0 <= t < Z.of_nat n ->
                 nth (Z.to_nat (dst + NPlanes pcxh * t)) row' x00
                 = nth (Z.to_nat (innerSrc + i + t)) buf x00) /\
      (forall q, (forall t, 0 <= t < Z.of_nat n -> q <> Z.to_nat (dst + NPlanes pcxh * t)) ->
                 nth q row' x00 = nth q row x00).
Proof.
  induction n as [|n IH]; intros i row dst Hi Hd Hr Hsrc Hdst.
  - exists row. cbn [for_up]. split; [do 2 f_equal; lia|]. split; [reflexivity|].
    split; [intros t Ht; lia|reflexivity].
  - destruct Hdst as [Hdst|Hdst]; [discriminate|].
    cbn [for_up]. unfold deinterlace_turn at 1. cbv zeta.
    replace ((innerSrc + i >=? bpl) || (dst >=? pitch_)) with false.
    2: { symmetry. apply orb_false_iff. rewrite !Z.geb_leb.
         split; apply Z.leb_gt; nia. }
    rewrite (load_nth buf (innerSrc + i) x00) by lia. cbn [step_bind].
    destruct (store_nth row dst (nth (Z.to_nat (innerSrc + i)) buf x00) x00)
      as [row1 [Hs [Hl [Hat Hother]]]]; [nia|].
    rewrite Hs. cbn [step_bind].
    destruct (IH (i + 1) row1 (dst + NPlanes pcxh)) as [row' [Hrun [Hlen [Hin Hout]]]];
      try lia.
    exists row'. split; [rewrite Hrun; do 2 f_equal; nia|]. split; [congruence|]. split.
    + intros t Ht. destruct (Z.eq_dec t 0) as [->|Hne].
      * rewrite Hout.
        -- rewrite Z.mul_0_r, !Z.add_0_r. exact Hat.
        -- intros t' Ht'. rewrite Z.mul_0_r, Z.add_0_r. nia.
      * specialize (Hin (t - 1) ltac:(lia)).
        replace (dst + NPlanes pcxh + NPlanes pcxh * (t - 1)) with (dst + NPlanes pcxh * t)
          in Hin by lia.
        rewrite Hin. f_equal. lia.
    + intros q Hq. rewrite Hout.
      * apply Hother. specialize (Hq 0 ltac:(lia)).
        now rewrite Z.mul_0_r, Z.add_0_r in Hq.
      * intros t Ht. specialize (Hq (t + 1) ltac:(lia)).
        replace (dst + NPlanes pcxh * (t + 1)) with (dst + NPlanes pcxh + NPlanes pcxh * t)
          in Hq by lia.
        exact Hq.
Qed.
End DeinterlaceContent.

(** X11: the de-interlace step of a three-plane row that fits
    ([width <= BytesPerLine], [3 * width <= pitch]): byte [x] of plane [p]
    of the scan line becomes byte [3 * x + p] of the pixel row, for every
    pixel [x] below [width]; the bytes of the row from [3 * width] on are
    left as they were. *)
Theorem deinterlace_writes_triples (pcxh : PCXheader) (width pitch_ : Z)
  (buf row : list byte) :
  NPlanes pcxh = 3 ->
  len buf = 3 * BytesPerLine pcxh ->
  pitch_ <= len row ->
  0 <= width <= BytesPerLine pcxh ->
  3 * width <= pitch_ ->
  exists row',
    deinterlace pcxh width pitch_ (len buf) buf row = Ok row' /\
    len row' = len row /\
    (forall x p, 0 <= x < width -> 0 <= p < 3 ->
                 nth (Z.to_nat (3 * x + p)) row' x00
                 = nth (Z.to_nat (p * BytesPerLine pcxh + x)) buf x00) /\
    (forall q, 3 * width <= Z.of_nat q -> nth q row' x00 = nth q row x00).
Proof.
  intros Hn Hb Hr Hw Hp.
  assert (Hn1 : 1 <= NPlanes pcxh) by lia.
  assert (Hbb : len buf <= len buf) by lia.
  assert (Hwn : Z.of_nat (Z.to_nat width) = width) by lia.
  unfold deinterlace. rewrite Hn. change (Z.to_nat 3) with 3%nat. cbn [for_up].
  unfold deinterlace_plane.
  destruct (deinterlace_turns_content pcxh pitch_ (len buf) buf 0 Hn1 Hbb
              (Z.to_nat width) 0 row 0)
    as [r0 [E0 [L0 [I0 O0]]]]; try lia.
  rewrite E0. cbn [step_bind].
  destruct (deinterlace_turns_content pcxh pitch_ (len buf) buf (0 + BytesPerLine pcxh)
              Hn1 Hbb (Z.to_nat width) 0 r0 (0 + 1))
    as [r1 [E1 [L1 [I1 O1]]]]; try lia.
  rewrite E1. cbn [step_bind].
  destruct (deinterlace_turns_content pcxh pitch_ (len buf) buf
              (0 + BytesPerLine pcxh + BytesPerLine pcxh)
              Hn1 Hbb (Z.to_nat width) 0 r1 (0 + 1 + 1))
    as [r2 [E2 [L2 [I2 O2]]]]; try lia.
  rewrite E2. cbn [step_bind].
  exists r2. split; [reflexivity|]. split; [congruence|].
  rewrite Hn, Hwn in *. split.
  - intros x p Hx Hpl.
    assert (Hcases : p = 0 \/ p = 1 \/ p = 2) by lia.
    destruct Hcases as [-> | [-> | ->]].
    + rewrite O2 by (intros t Ht; lia). rewrite O1 by (intros t Ht; lia).
      specialize (I0 x Hx). replace (0 + 3 * x) with (3 * x + 0) in I0 by lia.
      rewrite I0. f_equal; lia.
    + rewrite O2 by (intros t Ht; lia).
      specialize (I1 x Hx). replace (0 + 1 + 3 * x) with (3 * x + 1) in I1 by lia.
      rewrite I1. f_equal; lia.
    + specialize (I2 x Hx). replace (0 + 1 + 1 + 3 * x) with (3 * x + 2) in I2 by lia.
      rewrite I2. f_equal; lia.
  - intros q Hq. rewrite O2 by (intros t Ht; lia). rewrite O1 by (intros t Ht; lia).
    apply O0. intros t Ht. lia.
Qed.

Lemma deinterlace_writes_triples_witness :
  exists row',
    deinterlace (header_of_bytes (header_bytes 0 8 0 0 1 0 3 2 [])) 2 8
      (len [x01; x02; x03; x04; x05; x06]) [x01; x02; x03; x04; x05; x06] (repeat x00 8)
    = Ok row' /\
    nth (Z.to_nat (3 * 1 + 2)) row' x00 = x06.
Proof.
  destruct (deinterlace_writes_triples (header_of_bytes (header_bytes 0 8 0 0 1 0 3 2 [])) 2 8
              [x01; x02; x03; x04; x05; x06] (repeat x00 8))
    as [row' [H1 [_ [H2 _]]]];
    [reflexivity|reflexivity|vm_compute; discriminate|vm_compute; split; discriminate
    |vm_compute; discriminate|].
  exists row'. split; [exact H1|]. exact (H2 1 2 ltac:(lia) ltac:(lia)).
Defined.

(* ================================================================== *)
(** ** The palette of the images below 8 bits *)

Lemma Colormap_length (got : list byte) :
  len got = sizeof_PCXheader -> len (Colormap (header_of_bytes got)) = 48.
Proof.
  intros H. cbn [header_of_bytes Colormap]. unfold len, sizeof_PCXheader in *.
  rewrite length_firstn, length_skipn. lia.
Qed.

(** X12: for a header of one bit per pixel and 1 to 4 planes, the palette is
    filled without reading the stream: it is given [2 ^ NPlanes] colours,
    and entry [j] below that number is the triple at bytes [16 + 3 j] to
    [16 + 3 j + 2] of the header (its embedded colour map); the other
    entries of the colour array stay as they were. *)
Theorem small_palette_from_header (got : list byte) (cols : list SDL_Color)
  (s : SDL_IOStream) :
  len got = sizeof_PCXheader ->
  BitsPerPixel (header_of_bytes got) = 1 ->
  1 <= NPlanes (header_of_bytes got) <= 4 ->
  16 <= len cols ->
  let pcxh := header_of_bytes got in
  let nc := 2 ^ NPlanes pcxh in
  exists cols',
    fill_palette pcxh (BitsPerPixel pcxh * NPlanes pcxh) cols s
    = (Ok (mkPalette nc cols'), s) /\
    len cols' = len cols /\
    (forall j, Z.of_nat j < nc ->
               nth j cols' white
               = mkColor (nth (16 + j * 3 + 0) got x00) (nth (16 + j * 3 + 1) got x00)
                         (nth (16 + j * 3 + 2) got x00) (a (nth j cols white))) /\
    (forall j, nc <= Z.of_nat j -> nth j cols' white = nth j cols white).
Proof.
  intros L Hb Hn Hc pcxh nc.
  pose proof (Colormap_length got L) as Lc. fold pcxh in Lc, Hb, Hn.
  assert (Hnc : 2 <= nc <= 16).
  { unfold nc. assert (H : NPlanes pcxh = 1 \/ NPlanes pcxh = 2 \/ NPlanes pcxh = 3
                          \/ NPlanes pcxh = 4) by lia.
    destruct H as [-> | [-> | [-> | ->]]]; cbn; lia. }
  unfold fill_palette. rewrite Hb, Z.mul_1_l, Z.shiftl_1_l. fold nc.
  replace (NPlanes pcxh =? 8) with false by (symmetry; apply Z.eqb_neq; lia).
  replace (nc >? len cols) with false by (symmetry; rewrite Z.gtb_ltb; apply Z.ltb_ge; lia).
  unfold set_colors, io_bind, io_lift, io_ret.
  destruct (set_colors_turns (Colormap pcxh) (Z.to_nat nc) 0 cols)
    as [cols' [Hrun [Hlen Hnth]]]; try lia.
  rewrite Hrun. exists cols'. split; [reflexivity|]. split; [exact Hlen|]. split.
  - intros j Hj. rewrite (proj1 (Hnth j)) by lia. unfold triple_at.
    cbn [header_of_bytes Colormap pcxh].
    assert (Hk : forall k, (k < 48)%nat ->
                  nth k (firstn 48 (skipn 16 got)) x00 = nth (16 + k) got x00).
    { intros k Hk. rewrite nth_firstn.
      replace (k <? 48)%nat with true by (symmetry; apply Nat.ltb_lt; lia).
      now rewrite nth_skipn. }
    rewrite !Hk by lia. f_equal; f_equal; lia.
  - intros j Hj. apply (proj2 (Hnth j)). lia.
Qed.

Lemma small_palette_from_header_witness :
  exists cols',
    fill_palette (header_of_bytes (header_bytes 0 1 0 0 7 0 2 1 [x0a; x0b; x0c; x0d; x0e; x0f]))
      (1 * 2) (repeat white 256) (mkIO [] [x01])
    = (Ok (mkPalette (2 ^ 2) cols'), mkIO [] [x01]) /\
    nth 1 cols' white = mkColor x0d x0e x0f xff.
Proof.
  destruct (small_palette_from_header
              (header_bytes 0 1 0 0 7 0 2 1 [x0a; x0b; x0c; x0d; x0e; x0f])
              (repeat white 256) (mkIO [] [x01]))
    as [cols' [H1 [_ [H2 _]]]];
    [reflexivity|reflexivity|vm_compute; split; discriminate|vm_compute; discriminate|].
  exists cols'. split; [exact H1|]. exact (H2 1%nat ltac:(vm_compute; reflexivity)).
Defined.

(* ================================================================== *)
(** ** No access outside the buffers, whatever the stream holds *)

Section ExpandSafe.
Variables (width plane j byte_ : Z).
Hypothesis j_pos : 0 <= j.

(** The last [n] turns of the loop over [k]: [x] advances by one for each
    bit kept and stays below [width]. *)
Lemma expand_byte_turns (n : nat) :
  (n <= 8)%nat ->
  forall row,
    width <= len row ->
    exists row',
      for_down n (fun k '(row, x) =>
        let bit := Z.land (Z.shiftr byte_ k) 1 in
        if j * 8 + k >=? width then Ok (row, x)
        else
          step_bind (load row x) (fun old =>
          step_bind (store row x (to_u8 (Z.lor (u8 old) (Z.shiftl bit plane)))) (fun row' =>
          Ok (row', x + 1))))
        (row, column_at width j + bits_kept width j 8 - bits_kept width j (Z.of_nat n))
      = Ok (row', column_at width j + bits_kept width j 8) /\
      len row' = len row.
Proof.
  unfold column_at, bits_kept.
  induction n as [|n IH]; intros Hn row Hr.
  - exists row. cbn [for_down]. split; [do 2 f_equal; lia|reflexivity].
  - cbn [for_down]. cbv zeta.
    destruct (j * 8 + Z.of_nat n >=? width) eqn:T.
    + rewrite Z.geb_leb in T. apply Z.leb_le in T.
      destruct (IH ltac:(lia) row Hr) as [row' [E L]].
      exists row'. split; [|exact L]. rewrite <- E. do 2 f_equal. lia.
    + rewrite Z.geb_leb in T. apply Z.leb_gt in T.
      match goal with |- context [load row ?x] =>
        destruct (load_ok row x) as [old Hold]; [lia|];
        destruct (store_ok row x
                    (to_u8 (Z.lor (u8 old)
                              (Z.shiftl (Z.land (Z.shiftr byte_ (Z.of_nat n)) 1) plane))))
          as [row1 [Hs Hl]]; [lia|]
      end.
      rewrite Hold. cbn [step_bind]. rewrite Hs. cbn [step_bind].
      destruct (IH ltac:(lia) row1 ltac:(lia)) as [row' [E L]].
      exists row'. split; [|congruence]. rewrite <- E. do 2 f_equal. lia.
Qed.

Lemma expand_byte_safe (row : list byte) :
  width <= len row ->
  exists row',
    expand_byte width plane j byte_ (row, column_at width j)
    = Ok (row', column_at width (j + 1)) /\
    len row' = len row.
Proof.
  intros Hr. destruct (expand_byte_turns 8 ltac:(lia) row Hr) as [row' [E L]].
  exists row'. split; [|exact L]. unfold expand_byte.
  replace (column_at width j)
    with (column_at width j + bits_kept width j 8 - bits_kept width j (Z.of_nat 8))
    by (change (Z.of_nat 8) with 8; lia).
  cbv zeta in E. rewrite E. do 2 f_equal. unfold column_at, bits_kept. lia.
Qed.
End ExpandSafe.

Section ExpandPlanesSafe.
Variables (pcxh : PCXheader) (width : Z) (buf : list byte).

(** The loop over the bytes [j] of one plane line. *)
Lemma expand_line_safe (plane : Z) (n : nat) :
  forall j row x innerSrc,
    0 <= j -> x = column_at width j -> 0 <= innerSrc ->
    innerSrc + Z.of_nat n <= len buf -> width <= len row ->
    exists row',
      for_up n j (fun j '(row, x, innerSrc) =>
        step_bind (load buf innerSrc) (fun byte_ =>
        step_bind (expand_byte width plane j (u8 byte_) (row, x)) (fun '(row', x') =>
        Ok (row', x', innerSrc + 1))))
        (row, x, innerSrc)
      = Ok (row', column_at width (j + Z.of_nat n), innerSrc + Z.of_nat n) /\
      len row' = len row.
Proof.
  induction n as [|n IH]; intros j row x innerSrc Hj Hx Hi Hb Hr.
  - exists row. cbn [for_up]. subst x. split; [|reflexivity].
    now rewrite !Z.add_0_r.
  - cbn [for_up].
    destruct (load_ok buf innerSrc) as [c Hc]; [lia|]. rewrite Hc. cbn [step_bind].
    subst x. destruct (expand_byte_safe width plane j (u8 c) Hj row Hr) as [row1 [E1 L1]].
    rewrite E1. cbn [step_bind].
    destruct (IH (j + 1) row1 (column_at width (j + 1)) (innerSrc + 1))
      as [row' [E L]]; try lia.
    exists row'. split; [|congruence].
    replace (j + Z.of_nat (S n)) with (j + 1 + Z.of_nat n) by lia.
    replace (innerSrc + Z.of_nat (S n)) with (innerSrc + 1 + Z.of_nat n) by lia.
    exact E.
Qed.

(** The loop over the planes. *)
Lemma expand_planes_turns (n : nat) :
  forall plane row innerSrc,
    0 <= BytesPerLine pcxh -> 0 <= innerSrc ->
    innerSrc + Z.of_nat n * BytesPerLine pcxh <= len buf -> width <= len row ->
    exists row',
      for_up n plane (fun plane '(row, innerSrc) =>
        step_bind
          (for_up (Z.to_nat (BytesPerLine pcxh)) 0 (fun j '(row, x, innerSrc) =>
             step_bind (load buf innerSrc) (fun byte_ =>
             step_bind (expand_byte width plane j (u8 byte_) (row, x)) (fun '(row', x') =>
             Ok (row', x', innerSrc + 1))))
             (row, 0, innerSrc))
          (fun '(row', _, innerSrc') => Ok (row', innerSrc')))
        (row, innerSrc)
      = Ok (row', innerSrc + Z.of_nat n * BytesPerLine pcxh) /\
      len row' = len row.
Proof.
  induction n as [|n IH]; intros plane row innerSrc Hl Hi Hb Hr.
  - exists row. cbn [for_up]. split; [do 2 f_equal; lia|reflexivity].
  - cbn [for_up].
    destruct (expand_line_safe plane (Z.to_nat (BytesPerLine pcxh)) 0 row 0 innerSrc)
      as [row1 [E1 L1]]; try lia; [unfold column_at; lia|].
    rewrite E1. cbn [step_bind].
    destruct (IH (plane + 1) row1 (innerSrc + Z.of_nat (Z.to_nat (BytesPerLine pcxh))))
      as [row' [E L]]; try lia.
    exists row'. split; [|congruence]. rewrite E. do 2 f_equal. lia.
Qed.

(** The expansion of a scan line of [NPlanes * BytesPerLine] bytes into a
    row of at least [width] bytes completes, inside both. *)
Lemma expand_planes_safe (row : list byte) :
  0 <= NPlanes pcxh -> 0 <= BytesPerLine pcxh ->
  NPlanes pcxh * BytesPerLine pcxh <= len buf -> width <= len row ->
  exists row', expand_planes pcxh width buf row = Ok row' /\ len row' = len row.
Proof.
  intros Hn Hl Hb Hr. unfold expand_planes.
  destruct (expand_planes_turns (Z.to_nat (NPlanes pcxh)) 0 row 0) as [row' [E L]];
    try lia.
  rewrite E. cbn [step_bind]. exists row'. split; [reflexivity|exact L].
Qed.
End ExpandPlanesSafe.

Lemma copy_row_safe (width bpl : Z) (buf row : list byte) :
  0 <= width < 2 ^ 64 -> len buf = bpl -> width <= len row ->
  copy_row width bpl buf row <> Fault.
Proof.
  intros Hw Hb Hr. unfold copy_row. rewrite to_size_t_small by assumption.
  replace (Z.min width bpl <=? len buf) with true by (symmetry; apply Z.leb_le; lia).
  replace (Z.min width bpl <=? len row) with true by (symmetry; apply Z.leb_le; lia).
  discriminate.
Qed.

(** The row loop stays inside its buffers as soon as the step that follows
    each scan line does, for the scan lines of [bpl] bytes and the rows it
    is given. *)
Lemma decode_rows_safe (pcxh : PCXheader) (width pitch_ bpl src_bits : Z)
  (rows : list (list byte)) :
  0 <= bpl ->
  (forall buf row, len buf = bpl -> In row rows ->
                   reconstruct pcxh width pitch_ bpl src_bits buf row <> Fault) ->
  forall st, io_post (decode_rows pcxh width pitch_ bpl src_bits rows st) (fun _ => True).
Proof.
  intros Hb. induction rows as [|row rest IH]; intros Hsafe st; cbn [decode_rows];
    [now apply io_ret_post|].
  eapply io_bind_post; [apply read_scanline_post; assumption|]. intros [buf st1] Hbuf.
  cbn [fst] in Hbuf.
  eapply io_bind_post with (Q := fun _ => True).
  { intros s. unfold io_lift. cbn [fst].
    pose proof (Hsafe buf row Hbuf (or_introl eq_refl)) as NF.
    destruct (reconstruct pcxh width pitch_ bpl src_bits buf row); [exact I|exact I|congruence]. }
  intros row' _. eapply io_bind_post.
  { apply IH. intros b r Hl Hin. apply Hsafe; [assumption|now right]. }
  intros [rest' st2] _. now apply io_ret_post.
Qed.

Lemma read_colormap_post : io_post read_colormap (fun colormap => len colormap = 768).
Proof.
  intros s. unfold read_colormap. destruct (SDL_ReadIO _ 768) as [colormap s2].
  destruct (len colormap =? 768) eqn:E; cbn; [now apply Z.eqb_eq|exact I].
Qed.

Lemma fill_palette_post (pcxh : PCXheader) (src_bits : Z) (cols : list SDL_Color) :
  len (Colormap pcxh) = 48 -> 256 <= len cols ->
  src_bits = 8 \/ 1 <= src_bits <= 4 ->
  io_post (fill_palette pcxh src_bits cols) (fun _ => True).
Proof.
  intros Lc Hc Hs. unfold fill_palette.
  destruct (src_bits =? 8) eqn:E8.
  - eapply io_bind_post; [apply read_colormap_post|]. intros cm Hcm.
    destruct (set_colors_256 cm cols Hcm Hc) as [cols' [E _]].
    intros s. unfold io_bind, io_lift, io_ret. rewrite E. exact I.
  - apply Z.eqb_neq in E8. destruct Hs as [Hs|Hs]; [contradiction|].
    assert (Hnc : 2 <= Z.shiftl 1 src_bits <= 16).
    { assert (H : src_bits = 1 \/ src_bits = 2 \/ src_bits = 3 \/ src_bits = 4) by lia.
      destruct H as [-> | [-> | [-> | ->]]]; cbn; lia. }
    replace (Z.shiftl 1 src_bits >? len cols) with false
      by (symmetry; rewrite Z.gtb_ltb; apply Z.ltb_ge; lia).
    unfold set_colors.
    destruct (set_colors_turns (Colormap pcxh) (Z.to_nat (Z.shiftl 1 src_bits)) 0 cols)
      as [cols' [E _]]; try lia.
    intros s. unfold io_bind, io_lift, io_ret. rewrite E. exact I.
Qed.

(** What the loader relies on from SDL: a surface that has been created
    has a non-negative width and a pitch of at least [width] pixels; a
    request for 2^63 bytes or more is refused; a new palette has at least
    256 entries. *)
Lemma load_after_header_safe (sdl : SDL) (pcxh : PCXheader) (s1 : SDL_IOStream) (heap : Heap) :
  (forall width height fmt pitch_,
     SDL_CreateSurface sdl width height fmt = Some pitch_ ->
     0 <= width /\ width * bytes_per_pixel fmt <= pitch_) ->
  (forall n, SDL_calloc sdl n = true -> n < 2 ^ 63) ->
  (forall cols, SDL_CreateSurfacePalette sdl = Some cols -> 256 <= len cols) ->
  -32768 <= BytesPerLine pcxh <= 32767 ->
  Xmax pcxh - Xmin pcxh + 1 < 2 ^ 64 ->
  len (Colormap pcxh) = 48 ->
  load_after_header sdl pcxh s1 heap <> None.
Proof.
  intros Hsurf Hcal Hpal Hr Hwidth Lc.
  destruct (pcx_format pcxh) as [[bits fmt]|] eqn:F.
  2: { unfold load_after_header. rewrite F. discriminate. }
  destruct (pcx_format_cases _ _ _ F) as [[Hbits [Hfmt Hpair]]|[Hbits [Hfmt [Hb Hn]]]].
  2: { now apply rgb24_load_never_faults. }
  subst bits fmt. unfold load_after_header. rewrite F.
  destruct (SDL_CreateSurface sdl _ _ _) as [pitch_|] eqn:Cs; [|discriminate].
  apply Hsurf in Cs. cbn [bytes_per_pixel] in Cs. destruct Cs as [Hw0 Hp].
  destruct (SDL_calloc sdl _) eqn:C; cbn [negb]; [|discriminate].
  apply Hcal in C.
  assert (Hnp : 1 <= NPlanes pcxh <= 4) by lia.
  assert (Hpos : 0 <= BytesPerLine pcxh).
  { destruct (Z_le_dec 0 (BytesPerLine pcxh)) as [?|N]; [assumption|].
    pose proof (to_size_t_negative (NPlanes pcxh * BytesPerLine pcxh)). nia. }
  rewrite to_size_t_small in * by nia.
  set (width := Xmax pcxh - Xmin pcxh + 1) in *.
  set (bpl := NPlanes pcxh * BytesPerLine pcxh) in *.
  set (src_bits := BitsPerPixel pcxh * NPlanes pcxh).
  assert (Hsb : src_bits = 8 \/ 1 <= src_bits <= 4) by (unfold src_bits; lia).
  assert (Hrows : forall st,
            io_post (decode_rows pcxh width pitch_ bpl src_bits
                       (pixels (new_surface SDL_PIXELFORMAT_INDEX8 width
                                  (Ymax pcxh - Ymin pcxh + 1) pitch_)) st)
                    (fun _ => True)).
  { apply decode_rows_safe; [unfold bpl; nia|].
    intros buf row Hbuf Hin. cbn [new_surface pixels] in Hin.
    apply repeat_spec in Hin. subst row.
    assert (Hrow : width <= len (repeat x00 (Z.to_nat pitch_)))
      by (unfold len; rewrite repeat_length; lia).
    unfold reconstruct. destruct (src_bits <=? 4) eqn:E4.
    - destruct (expand_planes_safe pcxh width buf (repeat x00 (Z.to_nat pitch_)))
        as [row' [E _]]; try lia. rewrite E. discriminate.
    - apply Z.leb_gt in E4. replace (src_bits =? 8) with true
        by (symmetry; apply Z.eqb_eq; lia).
      apply copy_row_safe; [lia|assumption|assumption]. }
  specialize (Hrows run_init s1).
  destruct (decode_rows _ _ _ _ _ _ _ _) as [[[rows st]|e|] s2]; cbn [fst] in Hrows;
    [|discriminate|contradiction].
  change (8 =? 8) with true. cbv iota.
  destruct (SDL_CreateSurfacePalette sdl) as [cols|] eqn:Pl; [|discriminate].
  pose proof (fill_palette_post pcxh src_bits cols Lc (Hpal _ eq_refl) Hsb s2) as Hfill.
  fold src_bits.
  destruct (fill_palette pcxh src_bits cols s2) as [[pal|e|] s3]; cbn [fst] in Hfill;
    [discriminate|discriminate|contradiction].
Qed.

(** X13: with SDL behaving as documented (a created surface has a
    non-negative width and a pitch of at least [width] pixels;
    [SDL_calloc] refuses 2^63 bytes and more; a new palette has at least
    256 entries), the loader makes no access outside the scan-line buffer,
    the pixel rows and the palette, whatever bytes the stream holds: the
    call always returns. *)
Theorem loader_stays_inside_its_buffers (sdl : SDL) (s : SDL_IOStream) (heap : Heap) :
  (forall width height fmt pitch_,
     SDL_CreateSurface sdl width height fmt = Some pitch_ ->
     0 <= width /\ width * bytes_per_pixel fmt <= pitch_) ->
  (forall n, SDL_calloc sdl n = true -> n < 2 ^ 63) ->
  (forall cols, SDL_CreateSurfacePalette sdl = Some cols -> 256 <= len cols) ->
  exists res, IMG_LoadPCX_IO sdl (Some s) heap = Some res.
Proof.
  intros Hsurf Hcal Hpal. unfold IMG_LoadPCX_IO, load_body.
  destruct (SDL_ReadIO s sizeof_PCXheader) as [got s1] eqn:R.
  destruct (len got =? sizeof_PCXheader) eqn:L; cbn [negb]; [|eexists; reflexivity].
  apply Z.eqb_eq in L.
  pose proof (load_after_header_safe sdl (header_of_bytes got) s1 heap Hsurf Hcal Hpal) as NF.
  destruct (load_after_header sdl (header_of_bytes got) s1 heap) as [d|];
    [eexists; reflexivity|].
  exfalso. apply NF; [apply s16le_at_range| |now apply Colormap_length|reflexivity].
  pose proof (s16le_at_range got 8). pose proof (s16le_at_range got 4).
  cbn [header_of_bytes Xmax Xmin]. lia.
Qed.

Lemma sdl_usual_surfaces (width height : Z) (fmt : SDL_PixelFormat) (pitch_ : Z) :
  SDL_CreateSurface sdl_usual width height fmt = Some pitch_ ->
  0 <= width /\ width * bytes_per_pixel fmt <= pitch_.
Proof.
  cbn [sdl_usual SDL_CreateSurface].
  destruct ((width <? 0) || (height <? 0)) eqn:E; [discriminate|].
  apply orb_false_iff in E. destruct E as [E _]. apply Z.ltb_ge in E.
  intros H. inversion H; subst. split; [assumption|].
  Z.to_euclidean_division_equations. lia.
Qed.

Lemma loader_stays_inside_its_buffers_witness :
  exists res, IMG_LoadPCX_IO sdl_usual (Some (stream_of zero_run_image)) empty_heap = Some res.
Proof.
  apply (loader_stays_inside_its_buffers sdl_usual (stream_of zero_run_image) empty_heap).
  - exact sdl_usual_surfaces.
  - intros n H. cbn in H. apply Z.ltb_lt in H. lia.
  - intros cols H. cbn in H. inversion H. vm_compute. discriminate.
Defined.

(* ================================================================== *)
(** ** What the bit-plane expansion writes *)

Section ExpandByteContent.
Variables (width plane j byte_ : Z).
Hypothesis j_pos : 0 <= j.

(** The last [n] turns of the loop over [k]: each bit [k] that passes the
    test is or-ed into the row just before the place where the turns for
    the bits below it begin; the rest of the row is left alone. *)
Lemma expand_byte_turns_content (n : nat) :
  (n <= 8)%nat ->
  forall row,
    width <= len row ->
    exists row',
      for_down n (fun k '(row, x) =>
        let bit := Z.land (Z.shiftr byte_ k) 1 in
        if j * 8 + k >=? width then Ok (row, x)
        else
          step_bind (load row x) (fun old =>
          step_bind (store row x (to_u8 (Z.lor (u8 old) (Z.shiftl bit plane)))) (fun row' =>
          Ok (row', x + 1))))
        (row, column_at width j + bits_kept width j 8 - bits_kept width j (Z.of_nat n))
      = Ok (row', column_at width j + bits_kept width j 8) /\
      len row' = len row /\
      (forall k, 0 <= k < bits_kept width j (Z.of_nat n) ->
         nth (Z.to_nat (column_at width j + bits_kept width j 8 - 1 - k)) row' x00
         = to_u8 (Z.lor
                    (u8 (nth (Z.to_nat (column_at width j + bits_kept width j 8 - 1 - k))
                             row x00))
                    (Z.shiftl (Z.land (Z.shiftr byte_ k) 1) plane))) /\
      (forall q,
         Z.of_nat q < column_at width j + bits_kept width j 8 - bits_kept width j (Z.of_nat n)
         \/ column_at width j + bits_kept width j 8 <= Z.of_nat q ->
         nth q row' x00 = nth q row x00).
Proof.
  unfold column_at, bits_kept.
  induction n as [|n IH]; intros Hn row Hr.
  - exists row. cbn [for_down]. split; [do 2 f_equal; lia|]. split; [reflexivity|].
    split; [intros k Hk; lia|reflexivity].
  - cbn [for_down]. cbv zeta.
    destruct (j * 8 + Z.of_nat n >=? width) eqn:T.
    + rewrite Z.geb_leb in T. apply Z.leb_le in T.
      destruct (IH ltac:(lia) row Hr) as [row' [E [L [Hin Hout]]]].
      exists row'. split; [rewrite <- E; do 2 f_equal; lia|]. split; [exact L|]. split.
      * intros k Hk. apply Hin. lia.
      * intros q Hq. apply Hout. lia.
    + rewrite Z.geb_leb in T. apply Z.leb_gt in T.
      match goal with |- context [load row ?x] => set (x0 := x) end.
      assert (Hx0 : 0 <= x0 < len row) by (unfold x0; lia).
      rewrite (load_nth row x0 x00) by assumption. cbn [step_bind].
      destruct (store_nth row x0
                  (to_u8 (Z.lor (u8 (nth (Z.to_nat x0) row x00))
                            (Z.shiftl (Z.land (Z.shiftr byte_ (Z.of_nat n)) 1) plane))) x00)
        as [row1 [Hs [Hl [Hat Hother]]]]; [assumption|].
      rewrite Hs. cbn [step_bind].
      destruct (IH ltac:(lia) row1 ltac:(lia)) as [row' [E [L [Hin Hout]]]].
      exists row'. split; [rewrite <- E; do 2 f_equal; unfold x0; lia|].
      split; [congruence|]. split.
      * intros k Hk. destruct (Z.eq_dec k (Z.of_nat n)) as [->|Hne].
        -- rewrite Hout by (unfold x0 in *; lia).
           replace (Z.to_nat (Z.max 0 (Z.min (8 * j) width)
                              + Z.max 0 (Z.min 8 (width - 8 * j)) - 1 - Z.of_nat n))
             with (Z.to_nat x0) by (unfold x0; lia).
           exact Hat.
        -- rewrite Hin by lia. rewrite Hother by (unfold x0; lia). reflexivity.
      * intros q Hq. rewrite Hout by lia. apply Hother. unfold x0. lia.
Qed.
End ExpandByteContent.

Lemma expand_byte_content (width plane j byte_ : Z) (row : list byte) :
  0 <= j -> width <= len row ->
  exists row',
    expand_byte width plane j byte_ (row, column_at width j)
    = Ok (row', column_at width (j + 1)) /\
    len row' = len row /\
    (forall q : nat,
       column_at width j <= Z.of_nat q < column_at width (j + 1) ->
       nth q row' x00
       = to_u8 (Z.lor (u8 (nth q row x00))
                  (Z.shiftl
                     (Z.land (Z.shiftr byte_ (Z.min (8 * j + 8) width - 1 - Z.of_nat q)) 1)
                     plane))) /\
    (forall q : nat,
       Z.of_nat q < column_at width j \/ column_at width (j + 1) <= Z.of_nat q ->
       nth q row' x00 = nth q row x00).
Proof.
  intros Hj Hr.
  destruct (expand_byte_turns_content width plane j byte_ Hj 8 ltac:(lia) row Hr)
    as [row' [E [L [Hin Hout]]]].
  change (Z.of_nat 8) with 8 in *.
  exists row'. split; [|split; [exact L|split]].
  - unfold expand_byte.
    replace (column_at width j)
      with (column_at width j + bits_kept width j 8 - bits_kept width j 8) at 1 by lia.
    cbv zeta in E. rewrite E. do 2 f_equal. unfold column_at, bits_kept. lia.
  - intros q Hq.
    pose proof (Hin (Z.min (8 * j + 8) width - 1 - Z.of_nat q)) as H.
    replace (Z.to_nat (column_at width j + bits_kept width j 8 - 1
                       - (Z.min (8 * j + 8) width - 1 - Z.of_nat q)))
      with q in H by (unfold column_at, bits_kept in *; lia).
    apply H. unfold column_at, bits_kept in *. lia.
  - intros q Hq. apply Hout. unfold column_at, bits_kept in *. lia.
Qed.

Section ExpandPlanesContent.
Variables (pcxh : PCXheader) (width : Z) (buf : list byte).

(** The loop over the bytes of one plane line, from byte [j] on: column
    [q] takes its bit from byte [q / 8] of the line. *)
Lemma expand_line_content (plane : Z) (n : nat) :
  forall j row x innerSrc,
    0 <= j -> x = column_at width j -> 0 <= innerSrc ->
    innerSrc + Z.of_nat n <= len buf -> width <= len row ->
    exists row',
      for_up n j (fun j '(row, x, innerSrc) =>
        step_bind (load buf innerSrc) (fun byte_ =>
        step_bind (expand_byte width plane j (u8 byte_) (row, x)) (fun '(row', x') =>
        Ok (row', x', innerSrc + 1))))
        (row, x, innerSrc)
      = Ok (row', column_at width (j + Z.of_nat n), innerSrc + Z.of_nat n) /\
      len row' = len row /\
      (forall q : nat,
         column_at width j <= Z.of_nat q < column_at width (j + Z.of_nat n) ->
         nth q row' x00
         = to_u8 (Z.lor (u8 (nth q row x00))
                    (Z.shiftl
                       (Z.land
                          (Z.shiftr
                             (u8 (nth (Z.to_nat (innerSrc - j + Z.of_nat q / 8)) buf x00))
                             (Z.min (8 * (Z.of_nat q / 8) + 8) width - 1 - Z.of_nat q))
                          1)
                       plane))) /\
      (forall q : nat,
         Z.of_nat q < column_at width j \/ column_at width (j + Z.of_nat n) <= Z.of_nat q ->
         nth q row' x00 = nth q row x00).
Proof.
  induction n as [|n IH]; intros j row x innerSrc Hj Hx Hi Hb Hr.
  - exists row. cbn [for_up]. subst x. rewrite !Z.add_0_r.
    split; [reflexivity|]. split; [reflexivity|]. split; [intros q Hq; lia|reflexivity].
  - cbn [for_up].
    rewrite (load_nth buf innerSrc x00) by lia. cbn [step_bind].
    subst x.
    destruct (expand_byte_content width plane j
                (u8 (nth (Z.to_nat innerSrc) buf x00)) row Hj Hr)
      as [row1 [E1 [L1 [Hin1 Hout1]]]].
    rewrite E1. cbn [step_bind].
    destruct (IH (j + 1) row1 (column_at width (j + 1)) (innerSrc + 1))
      as [row' [E [L [Hin Hout]]]]; try lia.
    replace (j + 1 + Z.of_nat n) with (j + Z.of_nat (S n)) in * by lia.
    replace (innerSrc + 1 + Z.of_nat n) with (innerSrc + Z.of_nat (S n)) in * by lia.
    exists row'. split; [exact E|]. split; [congruence|]. split.
    + intros q Hq.
      destruct (Z_lt_ge_dec (Z.of_nat q) (column_at width (j + 1))) as [Hlt|Hge].
      * rewrite Hout by lia. rewrite Hin1 by lia.
        assert (Hdiv : Z.of_nat q / 8 = j).
        { unfold column_at in *. symmetry. apply Z.div_unique with (r := Z.of_nat q - 8 * j).
          - left. lia.
          - lia. }
        rewrite Hdiv.
        replace (Z.to_nat (innerSrc - j + j)) with (Z.to_nat innerSrc) by lia.
        reflexivity.
      * rewrite Hin by lia. rewrite Hout1 by lia.
        replace (innerSrc + 1 - (j + 1)) with (innerSrc - j) by lia.
        reflexivity.
    + intros q Hq. rewrite Hout.
      * apply Hout1. unfold column_at in *. lia.
      * unfold column_at in *. lia.
Qed.

(** The loop over the planes, from plane [plane] on. *)
Lemma expand_planes_turns_content (n : nat) :
  forall plane row,
    0 <= BytesPerLine pcxh -> 0 <= plane ->
    (plane + Z.of_nat n) * BytesPerLine pcxh <= len buf -> width <= len row ->
    exists row',
      for_up n plane (fun plane '(row, innerSrc) =>
        step_bind
          (for_up (Z.to_nat (BytesPerLine pcxh)) 0 (fun j '(row, x, innerSrc) =>
             step_bind (load buf innerSrc) (fun byte_ =>
             step_bind (expand_byte width plane j (u8 byte_) (row, x)) (fun '(row', x') =>
             Ok (row', x', innerSrc + 1))))
             (row, 0, innerSrc))
          (fun '(row', _, innerSrc') => Ok (row', innerSrc')))
        (row, plane * BytesPerLine pcxh)
      = Ok (row', (plane + Z.of_nat n) * BytesPerLine pcxh) /\
      len row' = len row /\
      (forall q : nat,
         nth q row' x00
         = if Z.of_nat q <? Z.min width (8 * BytesPerLine pcxh)
           then or_planes pcxh width buf n plane (Z.of_nat q) (nth q row x00)
           else nth q row x00).
Proof.
  induction n as [|n IH]; intros plane row Hl Hp Hb Hr.
  - exists row. cbn [for_up or_planes]. split; [do 2 f_equal; lia|].
    split; [reflexivity|]. intros q. now destruct (_ <? _).
  - cbn [for_up].
    destruct (expand_line_content plane (Z.to_nat (BytesPerLine pcxh)) 0 row 0
                (plane * BytesPerLine pcxh))
      as [row1 [E1 [L1 [Hin1 Hout1]]]]; try nia; [unfold column_at; lia|].
    rewrite E1. cbn [step_bind].
    destruct (IH (plane + 1) row1) as [row' [E [L Hc]]]; try nia.
    exists row'. split; [|split; [congruence|]].
    + replace (plane * BytesPerLine pcxh + Z.of_nat (Z.to_nat (BytesPerLine pcxh)))
        with ((plane + 1) * BytesPerLine pcxh) by lia.
      rewrite E. do 2 f_equal. lia.
    + intros q. rewrite Hc. cbn [or_planes].
      destruct (Z.of_nat q <? Z.min width (8 * BytesPerLine pcxh)) eqn:T.
      * apply Z.ltb_lt in T. f_equal. rewrite Hin1 by (unfold column_at; lia).
        unfold plane_bit. rewrite Z.sub_0_r. reflexivity.
      * apply Z.ltb_ge in T. apply Hout1. unfold column_at. lia.
Qed.
End ExpandPlanesContent.

(** X14.  The bit-plane expansion of IMG_LoadPCX_IO, on a scan line of at
    least NPlanes * BytesPerLine bytes and a row of at least width
    bytes, completes and changes the first min(width, 8 * BytesPerLine)
    pixels only: each of them has had or-ed into it, for every plane p in
    turn, the bit [plane_bit] of that plane shifted left by p (and has been
    cut to 8 bits each time); the other bytes of the row are unchanged. *)
Theorem expand_planes_content (pcxh : PCXheader) (width : Z) (buf row : list byte) :
  0 <= NPlanes pcxh -> 0 <= BytesPerLine pcxh ->
  NPlanes pcxh * BytesPerLine pcxh <= len buf -> width <= len row ->
  exists row',
    expand_planes pcxh width buf row = Ok row' /\
    len row' = len row /\
    (forall q : nat,
       nth q row' x00
       = if Z.of_nat q <? Z.min width (8 * BytesPerLine pcxh)
         then or_planes pcxh width buf (Z.to_nat (NPlanes pcxh)) 0 (Z.of_nat q) (nth q row x00)
         else nth q row x00).
Proof.
  intros Hn Hl Hb Hr. unfold expand_planes.
  destruct (expand_planes_turns_content pcxh width buf (Z.to_nat (NPlanes pcxh)) 0 row)
    as [row' [E [L Hc]]]; try lia.
  change (0 * BytesPerLine pcxh) with 0 in E.
  rewrite E. cbn [step_bind]. exists row'. split; [reflexivity|]. split; assumption.
Qed.

Lemma expand_planes_content_witness :
  exists row',
    expand_planes (header_of_bytes (two_plane_header 7)) 8 [x80; x80] (repeat x00 8)
    = Ok row' /\
    len row' = len (repeat x00 8) /\
    (forall q : nat,
       nth q row' x00
       = if Z.of_nat q
            <? Z.min 8 (8 * BytesPerLine (header_of_bytes (two_plane_header 7)))
         then or_planes (header_of_bytes (two_plane_header 7)) 8 [x80; x80]
                (Z.to_nat (NPlanes (header_of_bytes (two_plane_header 7)))) 0 (Z.of_nat q)
                (nth q (repeat x00 8) x00)
         else nth q (repeat x00 8) x00).
Proof.
  apply (expand_planes_content (header_of_bytes (two_plane_header 7)) 8 [x80; x80]
           (repeat x00 8));
    vm_compute; discriminate.
Defined.

Lemma land_1_cases (z : Z) : Z.land z 1 = 0 \/ Z.land z 1 = 1.
Proof.
  assert (H : Z.land z 1 = z mod 2) by (apply (Z.land_ones z 1); lia).
  rewrite H. pose proof (Z.mod_pos_bound z 2 eq_refl). lia.
Qed.

Lemma u8_testbit_high (b : byte) (p : Z) : 8 <= p -> Z.testbit (u8 b) p = false.
Proof.
  intros Hp. pose proof (u8_range b) as R.
  rewrite <- (Z.mod_small (u8 b) 256) by lia.
  change 256 with (2 ^ 8). apply Z.mod_pow2_bits_high. lia.
Qed.

(** Bit [p] of a pixel after the planes [plane .. plane + n - 1] have been
    or-ed in. *)
Lemma or_planes_testbit (pcxh : PCXheader) (width : Z) (buf : list byte) (n : nat) :
  forall plane c v p,
    0 <= plane -> plane + Z.of_nat n <= 8 -> 0 <= p ->
    Z.testbit (u8 (or_planes pcxh width buf n plane c v)) p
    = Z.testbit (u8 v) p
      || ((plane <=? p) && (p <? plane + Z.of_nat n)
          && (plane_bit pcxh width buf p c =? 1)).
Proof.
  induction n as [|n IH]; intros plane c v p Hpl Hn Hp.
  - cbn [or_planes].
    destruct (Z.leb_spec plane p), (Z.ltb_spec p (plane + Z.of_nat 0));
      cbn [andb orb]; try lia; now rewrite orb_false_r.
  - cbn [or_planes]. rewrite IH by lia.
    destruct (Z_lt_ge_dec p 8) as [Hlt|Hge].
    + rewrite u8_to_u8. change 256 with (2 ^ 8).
      rewrite Z.mod_pow2_bits_low by lia. rewrite Z.lor_spec.
      rewrite Z.shiftl_spec by lia.
      destruct (Z.eq_dec p plane) as [->|Hne].
      * rewrite Z.sub_diag.
        destruct (Z.leb_spec (plane + 1) plane), (Z.leb_spec plane plane),
          (Z.ltb_spec plane (plane + 1 + Z.of_nat n)),
          (Z.ltb_spec plane (plane + Z.of_nat (S n)));
          cbn [andb orb]; try lia.
        rewrite orb_false_r. f_equal.
        unfold plane_bit.
        destruct (land_1_cases
                    (Z.shiftr (u8 (nth (Z.to_nat (plane * BytesPerLine pcxh + c / 8)) buf x00))
                       (Z.min (8 * (c / 8) + 8) width - 1 - c))) as [->| ->]; reflexivity.
      * assert (Hb : Z.testbit (plane_bit pcxh width buf plane c) (p - plane) = false).
        { destruct (Z_lt_ge_dec p plane).
          - apply Z.testbit_neg_r. lia.
          - unfold plane_bit.
            destruct (land_1_cases
                        (Z.shiftr
                           (u8 (nth (Z.to_nat (plane * BytesPerLine pcxh + c / 8)) buf x00))
                           (Z.min (8 * (c / 8) + 8) width - 1 - c))) as [->| ->].
            + apply Z.bits_0.
            + change 1 with (2 ^ 0). rewrite Z.pow2_bits_eqb by lia.
              apply Z.eqb_neq. lia. }
        rewrite Hb, orb_false_r. f_equal.
        destruct (Z.leb_spec (plane + 1) p), (Z.leb_spec plane p),
          (Z.ltb_spec p (plane + 1 + Z.of_nat n)),
          (Z.ltb_spec p (plane + Z.of_nat (S n)));
          cbn [andb]; try lia; reflexivity.
    + rewrite !u8_testbit_high by lia.
      destruct (Z.leb_spec (plane + 1) p), (Z.leb_spec plane p),
        (Z.ltb_spec p (plane + 1 + Z.of_nat n)),
        (Z.ltb_spec p (plane + Z.of_nat (S n)));
        cbn [andb orb]; try lia; reflexivity.
Qed.

(** X15.  On a zeroed row and with at most 8 planes, the bit-plane
    expansion makes bit p of each of the first min(width, 8 * BytesPerLine)
    pixels the bit [plane_bit] of plane p, for p below NPlanes, and leaves
    the bits from NPlanes on clear. *)
Theorem expanded_pixel_bits (pcxh : PCXheader) (width : Z) (buf row : list byte) (q : nat) :
  0 <= NPlanes pcxh <= 8 -> 0 <= BytesPerLine pcxh ->
  NPlanes pcxh * BytesPerLine pcxh <= len buf -> width <= len row ->
  Z.of_nat q < Z.min width (8 * BytesPerLine pcxh) ->
  nth q row x00 = x00 ->
  exists row',
    expand_planes pcxh width buf row = Ok row' /\
    forall p, 0 <= p ->
      Z.testbit (u8 (nth q row' x00)) p
      = (p <? NPlanes pcxh) && (plane_bit pcxh width buf p (Z.of_nat q) =? 1).
Proof.
  intros Hn Hl Hb Hr Hq Hz. unfold expand_planes.
  destruct (expand_planes_turns_content pcxh width buf (Z.to_nat (NPlanes pcxh)) 0 row)
    as [row' [E [L Hc]]]; try lia.
  change (0 * BytesPerLine pcxh) with 0 in E.
  rewrite E. cbn [step_bind]. exists row'. split; [reflexivity|].
  intros p Hp. rewrite Hc.
  apply Z.ltb_lt in Hq. rewrite Hq.
  rewrite or_planes_testbit by lia.
  rewrite Hz. change (u8 x00) with 0. rewrite Z.bits_0. cbn [orb].
  rewrite Z2Nat.id by lia.
  destruct (Z.leb_spec 0 p); [|lia]. reflexivity.
Qed.

Lemma expanded_pixel_bits_witness :
  exists row',
    expand_planes (header_of_bytes (two_plane_header 7)) 8 [x80; x80] (repeat x00 8)
    = Ok row' /\
    forall p, 0 <= p ->
      Z.testbit (u8 (nth 0 row' x00)) p
      = (p <? NPlanes (header_of_bytes (two_plane_header 7)))
        && (plane_bit (header_of_bytes (two_plane_header 7)) 8 [x80; x80] p (Z.of_nat 0) =? 1).
Proof.
  apply (expanded_pixel_bits (header_of_bytes (two_plane_header 7)) 8 [x80; x80]
           (repeat x00 8) 0).
  - vm_compute. split; discriminate.
  - vm_compute. discriminate.
  - vm_compute. discriminate.
  - vm_compute. discriminate.
  - vm_compute. reflexivity.
  - reflexivity.
Defined.

(* ================================================================== *)
(** ** Run-length encoded rows *)

Lemma read_byte_end (before : list byte) :
  read_byte (mkIO before []) = (Err Truncated, mkIO before []).
Proof.
  unfold read_byte, SDL_ReadIO. cbn [io_after io_before firstn skipn Z.to_nat].
  rewrite firstn_nil, skipn_nil, app_nil_r. reflexivity.
Qed.

Lemma rle_byte_end (st : RunState) (before : list byte) :
  count st = 0 -> fst (rle_byte st (mkIO before [])) = Err Truncated.
Proof.
  intros H0. unfold rle_byte, rle_refill, io_bind, io_ret.
  rewrite H0. simpl (0 =? 0). cbv beta iota. now rewrite read_byte_end.
Qed.

Lemma rle_byte_run_end (st : RunState) (before : list byte) (c : byte) :
  count st = 0 -> 0xc0 <= u8 c -> fst (rle_byte st (mkIO before [c])) = Err Truncated.
Proof.
  intros H0 Hc. unfold rle_byte, rle_refill, io_bind, io_ret.
  rewrite H0. simpl (0 =? 0). cbv beta iota. rewrite read_byte_cons.
  destruct (u8 c <? 0xc0) eqn:E; [apply Z.ltb_lt in E; lia|].
  now rewrite read_byte_end.
Qed.

(** What the grammar still owes at a point of the decoding: the rest of
    the pending repeat, then the expansion of the rest of the stream.  A
    row of [n] bytes is the first [n] bytes of it, and leaves the rest
    owed. *)
Lemma rle_line_track (n : nat) :
  forall st s line st' s',
    0 <= count st ->
    no_zero_run (io_after s) ->
    rle_line n st s = (Ok (line, st'), s') ->
    length line = n /\ 0 <= count st' /\ no_zero_run (io_after s') /\
    repeat (ch st) (Z.to_nat (count st)) ++ rle_expand_spec (io_after s)
    = line ++ repeat (ch st') (Z.to_nat (count st')) ++ rle_expand_spec (io_after s').
Proof.
  induction n as [|n IH]; intros [cnt v] [before after] line st' s' Hc Hwf;
    cbn [count ch io_after] in *.
  - cbn. intros H. inversion H; subst. cbn [count ch io_after length app].
    repeat split; assumption.
  - cbn [rle_line]. unfold io_bind at 1.
    destruct (Z.eq_dec cnt 0) as [->|Hpos].
    + destruct after as [|c rest].
      { pose proof (rle_byte_end (mkRun 0 v) before eq_refl) as E.
        destruct (rle_byte (mkRun 0 v) (mkIO before [])) as [[[c1 st1]|e|] s1];
          cbn [fst] in E; discriminate. }
      cbn [no_zero_run rle_expand_spec] in Hwf |- *.
      destruct (u8 c <? 0xc0) eqn:E.
      * apply Z.ltb_lt in E. rewrite rle_byte_literal by (reflexivity || assumption).
        unfold io_bind at 1.
        destruct (rle_line n (mkRun 0 c) (mkIO (before ++ [c]) rest))
          as [[[cs st2]|e|] s2] eqn:R; try discriminate.
        unfold io_ret. intros H. inversion H; subst. clear H.
        destruct (IH (mkRun 0 c) (mkIO (before ++ [c]) rest) _ _ _ ltac:(cbn; lia) Hwf R) as [Hl [Hc' [Hwf' Heq]]].
        cbn [count ch io_after repeat Z.to_nat app] in Heq.
        cbn [length repeat Z.to_nat app]. rewrite Heq.
        repeat split; (assumption || lia || reflexivity).
      * apply Z.ltb_ge in E. destruct Hwf as [Hnz Hwf].
        destruct rest as [|w rest'].
        { pose proof (rle_byte_run_end (mkRun 0 v) before c eq_refl E) as E1.
          destruct (rle_byte (mkRun 0 v) (mkIO before [c])) as [[[c1 st1]|e|] s1];
            cbn [fst] in E1; discriminate. }
        rewrite rle_byte_run by (reflexivity || assumption).
        rewrite int_dec_pos by lia.
        rewrite <- (low_six_bits c E).
        unfold io_bind at 1.
        destruct (rle_line n (mkRun (u8 c - 0xc0 - 1) w) (mkIO (before ++ [c; w]) rest'))
          as [[[cs st2]|e|] s2] eqn:R; try discriminate.
        unfold io_ret. intros H. inversion H; subst. clear H.
        destruct (IH (mkRun (u8 c - 0xc0 - 1) w) (mkIO (before ++ [c; w]) rest') _ _ _
                    ltac:(cbn; lia) Hwf R) as [Hl [Hc' [Hwf' Heq]]].
        cbn [count ch io_after] in Heq.
        cbn [length repeat Z.to_nat app].
        destruct (Z.to_nat (u8 c - 0xc0)) as [|k] eqn:Ek; [lia|].
        replace (Z.to_nat (u8 c - 0xc0 - 1)) with k in Heq by lia.
        cbn [repeat app]. rewrite Heq.
        repeat split; (assumption || lia || reflexivity).
    + rewrite rle_byte_pending by (cbn [count]; assumption). cbn [count ch].
      rewrite int_dec_pos by lia.
      unfold io_bind at 1.
      destruct (rle_line n (mkRun (cnt - 1) v) (mkIO before after))
        as [[[cs st2]|e|] s2] eqn:R; try discriminate.
      unfold io_ret. intros H. inversion H; subst. clear H.
      destruct (IH (mkRun (cnt - 1) v) (mkIO before after) _ _ _ ltac:(cbn; lia) Hwf R) as [Hl [Hc' [Hwf' Heq]]].
      cbn [count ch io_after] in Heq.
      destruct (Z.to_nat cnt) as [|k] eqn:Ek; [lia|].
      replace (Z.to_nat (cnt - 1)) with k in Heq by lia.
      cbn [repeat app length]. rewrite Heq.
      repeat split; (assumption || lia || reflexivity).
Qed.

(** The rows of a run-length encoded 8-bit image: pixel row [y] receives,
    in its first [min(width, bpl)] bytes, the bytes from [y * bpl] on of
    what the grammar owes when the loop starts. *)
Lemma decode_rows_rle8 (pcxh : PCXheader) (width pitch_ bpl : Z) :
  Encoding pcxh <> 0 ->
  forall rows st s rows' st' s',
    0 <= count st ->
    no_zero_run (io_after s) ->
    decode_rows pcxh width pitch_ bpl 8 rows st s = (Ok (rows', st'), s') ->
    length rows' = length rows /\
    forall y, (y < length rows')%nat ->
      firstn (Z.to_nat (Z.min (to_size_t width) bpl)) (nth y rows' [])
      = firstn (Z.to_nat (Z.min (to_size_t width) bpl))
          (skipn (y * Z.to_nat bpl)
             (repeat (ch st) (Z.to_nat (count st)) ++ rle_expand_spec (io_after s))).
Proof.
  intros He. induction rows as [|row rows IH]; intros st s rows' st' s' Hc Hwf H.
  - cbn in H. inversion H; subst. split; [reflexivity|]. intros y Hy. cbn in Hy. lia.
  - rewrite decode_rows_cons, read_scanline_rle in H by assumption.
    destruct (rle_line (Z.to_nat bpl) st s) as [[[buf st1]|e|] s1] eqn:R; try discriminate.
    destruct (rle_line_track _ _ _ _ _ _ Hc Hwf R) as [Hl [Hc1 [Hwf1 Heq]]].
    destruct (reconstruct pcxh width pitch_ bpl 8 buf row) as [row'|e|] eqn:Rc;
      try discriminate.
    destruct (decode_rows pcxh width pitch_ bpl 8 rows st1 s1) as [[[rest' st2]|e|] s2] eqn:D;
      try discriminate.
    inversion H; subst rows' st' s'. clear H.
    destruct (IH _ _ _ _ _ Hc1 Hwf1 D) as [Hlen Hrows].
    split; [cbn [length]; now rewrite Hlen|].
    unfold reconstruct in Rc. change (8 <=? 4) with false in Rc.
    change (8 =? 8) with true in Rc. cbv iota in Rc. unfold copy_row in Rc.
    cbv zeta in Rc.
    set (m := Z.min (to_size_t width) bpl) in *.
    destruct ((m <=? len buf) && (m <=? len row)) eqn:T; [|discriminate].
    inversion Rc; subst row'. clear Rc.
    apply andb_prop in T. destruct T as [T1 T2]. apply Z.leb_le in T1, T2.
    unfold len in T1, T2.
    assert (Hm : (Z.to_nat m <= length buf)%nat) by lia.
    intros [|y] Hy.
    + cbn [nth Nat.mul skipn]. rewrite Heq.
      rewrite !firstn_app, firstn_firstn, Nat.min_id, length_firstn.
      replace (Z.to_nat m - Nat.min (Z.to_nat m) (length buf))%nat with 0%nat by lia.
      replace (Z.to_nat m - length buf)%nat with 0%nat by lia.
      now rewrite !firstn_O.
    + cbn [nth]. rewrite Hrows by (cbn [length] in Hy; lia). f_equal.
      rewrite Heq, (skipn_app (S y * Z.to_nat bpl) buf).
      rewrite (@skipn_all2 _ (S y * Z.to_nat bpl) buf) by (rewrite Hl; lia).
      cbn [app]. f_equal. rewrite Hl. lia.
Qed.

(** X16.  A run-length encoded 8-bit single-plane image whose stream holds
    no run of length zero: when the loader returns a surface, its row y
    holds, in its first min(width, bpl) bytes, the bytes from y * bpl
    on of the run-length expansion of the stream after the header; runs are
    carried over from one row to the next. *)
Theorem rle_indexed8_rows (sdl : SDL) (heap : Heap) (before hdr rest : list byte)
  (res : Result) (sf : SDL_Surface) (y : nat) :
  len hdr = sizeof_PCXheader ->
  Encoding (header_of_bytes hdr) <> 0 ->
  BitsPerPixel (header_of_bytes hdr) = 8 ->
  NPlanes (header_of_bytes hdr) = 1 ->
  no_zero_run rest ->
  IMG_LoadPCX_IO sdl (Some (mkIO before (hdr ++ rest))) heap = Some res ->
  ret res = Some sf ->
  (y < length (pixels sf))%nat ->
  let bpl := to_size_t (NPlanes (header_of_bytes hdr) * BytesPerLine (header_of_bytes hdr)) in
  firstn (Z.to_nat (Z.min (to_size_t (w sf)) bpl)) (nth y (pixels sf) [])
  = firstn (Z.to_nat (Z.min (to_size_t (w sf)) bpl))
      (skipn (y * Z.to_nat bpl) (rle_expand_spec rest)).
Proof.
  intros L He Hb Hn Hwf Hres Hret Hy bpl.
  unfold IMG_LoadPCX_IO, load_body in Hres.
  rewrite (SDL_ReadIO_prefix before hdr rest sizeof_PCXheader L) in Hres.
  apply Z.eqb_eq in L. rewrite L in Hres. cbn [negb] in Hres.
  set (pcxh := header_of_bytes hdr) in *.
  destruct (load_after_header sdl pcxh (mkIO (before ++ hdr) rest) heap) as [d|] eqn:Ed;
    [|discriminate].
  inversion Hres; subst res. clear Hres.
  unfold done in Hret. destruct (d_error d) as [e|] eqn:Ee; [discriminate|].
  cbn [ret] in Hret.
  unfold load_after_header in Ed.
  rewrite (pcx_format_indexed8 pcxh Hb Hn), Hb in Ed.
  fold bpl in Ed. replace (8 * NPlanes pcxh) with 8 in Ed by lia.
  destruct (SDL_CreateSurface sdl _ _ SDL_PIXELFORMAT_INDEX8) as [pitch_|];
    [|inversion Ed; subst; discriminate].
  destruct (negb (SDL_calloc sdl bpl)); [inversion Ed; subst; discriminate|].
  match type of Ed with context [decode_rows ?a ?b ?c ?d ?e ?f ?g ?h] =>
    destruct (decode_rows a b c d e f g h) as [[[rows st]|e1|] s2] eqn:D end;
    try (inversion Ed; subst; discriminate).
  destruct (decode_rows_rle8 pcxh _ _ _ He _ run_init (mkIO (before ++ hdr) rest) _ _ _
              ltac:(cbn; lia) Hwf D)
    as [_ Hrows].
  cbn [run_init count ch Z.to_nat repeat app io_after] in Hrows.
  change (8 =? 8) with true in Ed. cbv iota in Ed.
  destruct (SDL_CreateSurfacePalette sdl) as [cols|];
    [|inversion Ed; subst; discriminate].
  destruct (fill_palette _ _ _ _) as [[pal|e2|] s3];
    inversion Ed; subst; try discriminate.
  cbn in Hret. inversion Hret; subst sf. cbn [pixels w] in *.
  now apply Hrows.
Qed.

Lemma rle_indexed8_rows_witness :
  firstn 4 [x7f; x7f; x7f; x09]
  = firstn 4 (skipn (1 * 4)
                (rle_expand_spec ([x01; x02; xc5; x7f; x09] ++ [x0c] ++ repeat x07 768))).
Proof.
  apply (rle_indexed8_rows sdl_usual empty_heap [] (header_bytes 1 8 0 0 3 1 1 4 [])
           ([x01; x02; xc5; x7f; x09] ++ [x0c] ++ repeat x07 768)
           (mkResult
              (Some (mkSurface SDL_PIXELFORMAT_INDEX8 4 2 4
                       [[x01; x02; x7f; x7f]; [x7f; x7f; x7f; x09]]
                       (Some (mkPalette 256 (repeat (mkColor x07 x07 x07 xff) 256)))))
              (Some (mkIO (header_bytes 1 8 0 0 3 1 1 4 []
                           ++ [x01; x02; xc5; x7f; x09] ++ [x0c] ++ repeat x07 768) []))
              (mkHeap 1 0) None)
           (mkSurface SDL_PIXELFORMAT_INDEX8 4 2 4
              [[x01; x02; x7f; x7f]; [x7f; x7f; x7f; x09]]
              (Some (mkPalette 256 (repeat (mkColor x07 x07 x07 xff) 256))))
           1%nat).
  - reflexivity.
  - vm_compute. discriminate.
  - reflexivity.
  - reflexivity.
  - vm_compute. repeat split; discriminate.
  - vm_compute. reflexivity.
  - reflexivity.
  - cbn. lia.
Defined.

(* ================================================================== *)
(** ** Every nonzero encoding is the run-length one *)




